(** * OneWayQR: framed one-way transport over QR codes

    A shallow embedding of the transport core of the repository
    (frame codec, XOR parity, chunker, sender frame plan, receiver
    reassembler) together with the properties its specification states.

    Conventions.
    - A Python [int] is a [Z]; [bytes] is a [list byte]; [str] is a [string].
    - A Python [dict] used as a map is a [gmap].
    - A function that can raise returns a [result]; the exception classes
      that occur are the constructors of [exn].
    - Each Python module is a Rocq [Module] of the same name. *)

From Stdlib Require Import ZArith Lia List Ascii String DecimalString.
From Stdlib Require Import Strings.Byte.
From stdpp Require Import base option list gmap strings.

Local Open Scope Z_scope.

(** ** Exceptions and results *)

(** The reasons for which [frames.py] raises [FrameError], one per
    [raise] statement. *)
Inductive frame_error : Type :=
  | SessionIdLength      (* "session_id must be 16 bytes" *)
  | PayloadTooLarge      (* "payload too large for frame" *)
  | FrameTooShort        (* "frame too short" *)
  | BadMagic             (* "bad magic" *)
  | UnsupportedVersion   (* "unsupported version ..." *)
  | LengthMismatch       (* "frame length mismatch" *)
  | CRCMismatch          (* "CRC mismatch" *)
  | Base64Failed.        (* "base64 decode failed: ..." *)

Inductive runtime_error : Type :=
  | NoSessionMetadata            (* "No session metadata available" *)
  | MissingBlock (idx : Z).      (* "Missing block {idx}" *)

Inductive exn : Type :=
  | FrameError (why : frame_error)
  | ValueError                   (* raised by [FrameType(n)] on an unknown n *)
  | StructError                  (* [struct.error]: argument out of range *)
  | RuntimeError (why : runtime_error).

Inductive result (A : Type) : Type :=
  | Ok (a : A)
  | Raise (e : exn).
Arguments Ok {A} a.
Arguments Raise {A} e.

Definition bind {A B} (r : result A) (k : A -> result B) : result B :=
  match r with
  | Ok a => k a
  | Raise e => Raise e
  end.

Notation "x <-! r ; k" := (bind r (fun x => k))
  (at level 100, r at next level, right associativity, only parsing).

(** ** Bytes *)

Module bytes.

Definition byte_of_Z (z : Z) : byte :=
  match Byte.of_N (Z.to_N (z mod 256)) with
  | Some b => b
  | None => Byte.x00
  end.

Definition Z_of_byte (b : byte) : Z := Z.of_N (Byte.to_N b).

(** [data[a:b]] for non-negative literal bounds. *)
Definition slice (a b : nat) (l : list byte) : list byte :=
  take (b - a) (drop a l).

(** [data[:n]] for an arbitrary integer [n]: a negative bound counts
    from the end. *)
Definition slice_to (l : list byte) (n : Z) : list byte :=
  if 0 <=? n then take (Z.to_nat n) l
  else take (Z.to_nat (Z.of_nat (length l) + n)) l.

(** [b.ljust(n, b"\0")] *)
Definition ljust (n : nat) (b : list byte) : list byte :=
  b ++ replicate (n - length b) Byte.x00.

(** Big-endian unsigned integers, as [struct] lays them out. *)
Fixpoint be_bytes (n : nat) (v : Z) : list byte :=
  match n with
  | O => []
  | S k => byte_of_Z (v / 256 ^ Z.of_nat k) :: be_bytes k v
  end.

Definition be_value (l : list byte) : Z :=
  fold_left (fun acc b => acc * 256 + Z_of_byte b) l 0.

(** [a ^ b] on two byte values. *)
Definition xor_byte (a b : byte) : byte :=
  byte_of_Z (Z.lxor (Z_of_byte a) (Z_of_byte b)).

#[export] Instance byte_eq_dec : EqDecision byte := Byte.byte_eq_dec.

End bytes.
Import bytes.

(** ** The [struct] module, for the two layouts the codec uses *)

Module struct.

(** An unsigned field of [n] bytes ("B", "H", "I"): out-of-range
    arguments raise [struct.error]. *)
Definition pack_uint (n : nat) (v : Z) : result (list byte) :=
  if (0 <=? v) && (v <? 256 ^ Z.of_nat n) then Ok (be_bytes n v)
  else Raise StructError.

(** A fixed-width bytes field ("4s", "16s"): truncated or zero-padded. *)
Definition pack_s (n : nat) (b : list byte) : list byte :=
  ljust n (take n b).

End struct.

(** ** [zlib.crc32]: CRC-32 (IEEE 802.3), reflected polynomial 0xEDB88320 *)

Module zlib.

Definition crc32_bit (c : Z) : Z :=
  if Z.odd c then Z.lxor (Z.shiftr c 1) 0xEDB88320 else Z.shiftr c 1.

Definition crc32_byte (c : Z) (b : byte) : Z :=
  Nat.iter 8 crc32_bit (Z.lxor c (Z_of_byte b)).

Definition crc32 (data : list byte) : Z :=
  Z.lxor (fold_left crc32_byte data 0xFFFFFFFF) 0xFFFFFFFF.

End zlib.

(** ** [base64.b64encode] and [base64.b64decode(..., validate=True)]

    Standard alphabet, "=" padding.  The decoder follows the strict mode of
    CPython's [binascii.a2b_base64]: a character outside the alphabet, a
    leading pad, data after a completed pad sequence, a data character
    after a pad, or a trailing incomplete group is an error. *)

Module base64.

Definition b64_char (n : Z) : ascii :=
  ascii_of_N (Z.to_N
    (if n <? 26 then n + 65
     else if n <? 52 then n + 71
     else if n <? 62 then n - 4
     else if n =? 62 then 43
     else 47)).

Definition b64_index (c : ascii) : option Z :=
  let n := Z.of_N (N_of_ascii c) in
  if (65 <=? n) && (n <=? 90) then Some (n - 65)
  else if (97 <=? n) && (n <=? 122) then Some (n - 71)
  else if (48 <=? n) && (n <=? 57) then Some (n + 4)
  else if n =? 43 then Some 62
  else if n =? 47 then Some 63
  else None.

Definition pad : ascii := "="%char.

Fixpoint b64encode (l : list byte) : string :=
  match l with
  | [] => EmptyString
  | [a] =>
      let n := Z_of_byte a * 65536 in
      String (b64_char (n / 262144))
        (String (b64_char (n / 4096 mod 64))
           (String pad (String pad EmptyString)))
  | [a; b] =>
      let n := Z_of_byte a * 65536 + Z_of_byte b * 256 in
      String (b64_char (n / 262144))
        (String (b64_char (n / 4096 mod 64))
           (String (b64_char (n / 64 mod 64))
              (String pad EmptyString)))
  | a :: b :: c :: rest =>
      let n := Z_of_byte a * 65536 + Z_of_byte b * 256 + Z_of_byte c in
      String (b64_char (n / 262144))
        (String (b64_char (n / 4096 mod 64))
           (String (b64_char (n / 64 mod 64))
              (String (b64_char (n mod 64)) (b64encode rest))))
  end.

(** The loop of [a2b_base64] over the remaining input, with its local
    variables.  [quad_pos] is the position within the current group of
    four, [leftchar] the bits left over from the previous character. *)
Fixpoint a2b_loop (s : string) (quad_pos : nat) (leftchar : Z) (pads : nat)
    (padding_started : bool) (bin_data : list byte) : option (list byte) :=
  match s with
  | EmptyString =>
      if (quad_pos =? 0)%nat then Some bin_data else None
  | String this_ch rest =>
      if Ascii.eqb this_ch pad then
        if (2 <=? quad_pos)%nat then
          if (4 <=? quad_pos + S pads)%nat then
            match rest with
            | EmptyString => Some bin_data
            | _ => None                      (* excess data after padding *)
            end
          else a2b_loop rest quad_pos leftchar (S pads) true bin_data
        else a2b_loop rest quad_pos leftchar pads true bin_data
      else
        match b64_index this_ch with
        | None => None                       (* only base64 data is allowed *)
        | Some v =>
            if padding_started then None     (* discontinuous padding *)
            else
              match quad_pos with
              | 0%nat => a2b_loop rest 1 v 0 false bin_data
              | 1%nat =>
                  a2b_loop rest 2 (Z.land v 0x0f) 0 false
                    (bin_data ++
                     [byte_of_Z (Z.lor (Z.shiftl leftchar 2) (Z.shiftr v 4))])
              | 2%nat =>
                  a2b_loop rest 3 (Z.land v 0x03) 0 false
                    (bin_data ++
                     [byte_of_Z (Z.lor (Z.shiftl leftchar 4) (Z.shiftr v 2))])
              | _ =>
                  a2b_loop rest 0 0 0 false
                    (bin_data ++
                     [byte_of_Z (Z.lor (Z.shiftl leftchar 6) v)])
              end
        end
  end.

(** [None] stands for [binascii.Error] (or the [ValueError] a non-ASCII
    [str] gives); the caller treats all of them alike. *)
Definition b64decode (s : string) : option (list byte) :=
  match s with
  | String c _ =>
      if Ascii.eqb c pad then None           (* leading padding *)
      else a2b_loop s 0 0 0 false []
  | EmptyString => Some []
  end.

End base64.

(** ** config.py *)

Module config.
Definition MAGIC : list byte := [Byte.x51; Byte.x52; Byte.x43; Byte.x4d].
Definition VERSION : Z := 1.
Definition DEFAULT_HEADER_REPEAT : Z := 10.
Definition DEFAULT_HEADER_INTERVAL : Z := 100.
End config.

(** ** models.py *)

Module models.

Inductive FrameType : Type :=
  | SESSION_HEADER
  | DATA
  | FEC
  | INDEX.

#[export] Instance FrameType_eq_dec : EqDecision FrameType.
Proof. solve_decision. Defined.

(** [int(frame_type)] *)
Definition int_of_FrameType (t : FrameType) : Z :=
  match t with
  | SESSION_HEADER => 0
  | DATA => 1
  | FEC => 2
  | INDEX => 3
  end.

(** [FrameType(n)], which raises [ValueError] on an unknown value. *)
Definition FrameType_of_int (n : Z) : result FrameType :=
  if n =? 0 then Ok SESSION_HEADER
  else if n =? 1 then Ok DATA
  else if n =? 2 then Ok FEC
  else if n =? 3 then Ok INDEX
  else Raise ValueError.

(** [session_id] is the UUID, held as its 16 [bytes]. *)
Record SessionMetadata : Type := {
  session_id : list byte;
  total_size : Z;
  chunk_size : Z;
  total_chunks : Z;
  superblock_data : Z;
  redundancy : Z;
  sha256 : string;
  packaging : string;
  compression : string;
  root_name : string;
  file_count : Z
}.

(** Python's [//] is floor division, as is [Z.div]. *)
Definition estimate_total_chunks (total_size chunk_size : Z) : Z :=
  (total_size + chunk_size - 1) / chunk_size.

End models.
Import models.

(** ** frames.py *)

Module frames.

Definition HEADER_SIZE : nat := 39.   (* _HEADER_STRUCT.size *)
Definition CRC_SIZE : nat := 4.       (* _CRC_STRUCT.size *)

Record Frame : Type := {
  frame_type : FrameType;
  session_id : list byte;
  superblock_id : Z;
  block_id : Z;
  total_blocks : Z;
  blocks_in_super : Z;
  flags : Z;
  payload : list byte
}.

(** [_HEADER_STRUCT.pack(...)] with format ">4sBBB16sIIIHH". *)
Definition pack_header (magic : list byte) (version ftype flags : Z)
    (sid : list byte) (superblock block total in_super payload_len : Z)
    : result (list byte) :=
  v <-! struct.pack_uint 1 version;
  t <-! struct.pack_uint 1 ftype;
  g <-! struct.pack_uint 1 flags;
  s <-! struct.pack_uint 4 superblock;
  b <-! struct.pack_uint 4 block;
  n <-! struct.pack_uint 4 total;
  k <-! struct.pack_uint 2 in_super;
  p <-! struct.pack_uint 2 payload_len;
  Ok (struct.pack_s 4 magic ++ v ++ t ++ g ++ struct.pack_s 16 sid
        ++ s ++ b ++ n ++ k ++ p).

Definition to_bytes (self : Frame) : result (list byte) :=
  if negb (length (session_id self) =? 16)%nat then
    Raise (FrameError SessionIdLength)
  else
    let payload_len := Z.of_nat (length (payload self)) in
    if payload_len >? 0xFFFF then Raise (FrameError PayloadTooLarge)
    else
      header <-! pack_header config.MAGIC config.VERSION
                   (int_of_FrameType (frame_type self))
                   (Z.land (flags self) 0xFF)
                   (session_id self)
                   (superblock_id self) (block_id self)
                   (total_blocks self) (blocks_in_super self)
                   payload_len;
      let crc := Z.land (zlib.crc32 (header ++ payload self)) 0xFFFFFFFF in
      Ok (header ++ payload self ++ be_bytes 4 crc).

Definition from_bytes (data : list byte) : result Frame :=
  if (length data <? HEADER_SIZE + CRC_SIZE)%nat then
    Raise (FrameError FrameTooShort)
  else
    let header := take HEADER_SIZE data in
    let magic := slice 0 4 header in
    let version := be_value (slice 4 5 header) in
    let ftype := be_value (slice 5 6 header) in
    let flags := be_value (slice 6 7 header) in
    let sid := slice 7 23 header in
    let superblock := be_value (slice 23 27 header) in
    let block := be_value (slice 27 31 header) in
    let total := be_value (slice 31 35 header) in
    let in_super := be_value (slice 35 37 header) in
    let payload_len := be_value (slice 37 39 header) in
    if negb (bool_decide (magic = config.MAGIC)) then
      Raise (FrameError BadMagic)
    else if negb (version =? config.VERSION) then
      Raise (FrameError UnsupportedVersion)
    else
      let expected_len :=
        Z.of_nat HEADER_SIZE + payload_len + Z.of_nat CRC_SIZE in
      if negb (Z.of_nat (length data) =? expected_len) then
        Raise (FrameError LengthMismatch)
      else
        let payload :=
          slice HEADER_SIZE (HEADER_SIZE + Z.to_nat payload_len) data in
        let crc_stored := be_value (drop (length data - CRC_SIZE) data) in
        let crc_calc := Z.land (zlib.crc32 (header ++ payload)) 0xFFFFFFFF in
        if negb (crc_calc =? crc_stored) then
          Raise (FrameError CRCMismatch)
        else
          t <-! FrameType_of_int ftype;
          Ok {| frame_type := t;
                session_id := sid;
                superblock_id := superblock;
                block_id := block;
                total_blocks := total;
                blocks_in_super := in_super;
                flags := flags;
                payload := payload |}.

Definition to_b64 (self : Frame) : result string :=
  raw <-! to_bytes self;
  Ok (base64.b64encode raw).

Definition from_b64 (data : string) : result Frame :=
  match base64.b64decode data with
  | None => Raise (FrameError Base64Failed)
  | Some raw => from_bytes raw
  end.

End frames.
Import frames.

(** ** fec.py *)

Module fec.

(** [for i, val in enumerate(padded): parity[i] ^= val]; the two
    buffers always have the same length [max_len]. *)
Definition xor_into (parity padded : list byte) : list byte :=
  zip_with xor_byte parity padded.

Definition xor_parity_block (blocks : list (list byte)) : list byte :=
  match blocks with
  | [] => []
  | _ =>
      let max_len := max_list (length <$> blocks) in
      fold_left (fun parity block => xor_into parity (ljust max_len block))
        blocks (replicate max_len Byte.x00)
  end.

Definition generate_parity_blocks (blocks : list (list byte)) (count : Z)
    : list (list byte) :=
  if count <=? 0 then []
  else replicate (Z.to_nat count) (xor_parity_block blocks).

Definition recover_single_missing (known_blocks : list (list byte))
    (parity_block : list byte) (missing_count : Z) : option (list byte) :=
  if negb (missing_count =? 1) || bool_decide (parity_block = []) then None
  else Some (xor_parity_block (known_blocks ++ [parity_block])).

End fec.

(** ** chunker.py *)

Module chunker.

(** [f.read(n)] on the unread rest of a file: everything when [n] is
    negative, at most [n] bytes otherwise. *)
Definition read (rest : list byte) (n : Z) : list byte :=
  if n <? 0 then rest else take (Z.to_nat n) rest.

(** The [while True] loop of [iter_chunks]; every turn that does not
    stop consumes at least one byte. *)
Fixpoint read_loop (fuel : nat) (rest : list byte) (chunk_size : Z)
    : list (list byte) :=
  match fuel with
  | O => []
  | S fuel' =>
      match read rest chunk_size with
      | [] => []
      | chunk =>
          chunk :: read_loop fuel' (drop (length chunk) rest) chunk_size
      end
  end.

(** The chunks [iter_chunks(path, chunk_size)] yields, for a file whose
    content is [file]. *)
Definition iter_chunks (file : list byte) (chunk_size : Z)
    : list (list byte) :=
  read_loop (S (length file)) file chunk_size.

Definition READ_BUF : Z := 1024 * 256.

Section hashing.
(** [hashlib.sha256(data).hexdigest()]; a hasher object is modelled by the
    bytes it has been fed, [update] appending to them. *)
Variable hexdigest : list byte -> string.

(** [_hashing_copy(src, dst)]: what was written to [dst], and the
    returned pair of byte count and digest. *)
Definition _hashing_copy (src : list byte) : list byte * (Z * string) :=
  let '(dst, hasher, total) :=
    fold_left
      (fun '(dst, hasher, total) chunk =>
         (dst ++ chunk, hasher ++ chunk, total + Z.of_nat (length chunk)))
      (read_loop (S (length src)) src READ_BUF) ([], [], 0) in
  (dst, (total, hexdigest hasher)).

(** [_file_sha256(path)] for a file whose content is [file]. *)
Definition _file_sha256 (file : list byte) : string :=
  hexdigest
    (fold_left (fun hasher chunk => hasher ++ chunk)
       (read_loop (S (length file)) file READ_BUF) []).

End hashing.

End chunker.

(** ** Standard-library collaborators of the session header

    The header payload is produced by [json.dumps(meta.to_dict(), ...)]
    and read back by [SessionMetadata.from_dict(json.loads(...))] inside a
    [try] that drops the frame on any exception; the payload digest is
    [hashlib.sha256].  They are parameters of the development. *)

Class Externals : Type := {
  (** [json.dumps(meta.to_dict(), separators=(",", ":")).encode()] *)
  encode_metadata : SessionMetadata -> list byte;
  (** [SessionMetadata.from_dict(json.loads(payload.decode()))], [None]
      when any step raises *)
  decode_metadata : list byte -> option SessionMetadata;
  (** [hashlib.sha256(data).hexdigest()] *)
  sha256_hexdigest : list byte -> string
}.

(** ** sender.py *)

Module sender.
Section with_externals.
Context `{Externals}.

(** [session] is the UUID the session runs under, [sha256] the digest
    the payload preparer computed. *)
Definition build_metadata (payload_size chunk_size superblock_data
    redundancy : Z) (sha256 packaging compression root_name : string)
    (file_count : Z) (session : list byte) : SessionMetadata :=
  {| models.session_id := session;
     total_size := payload_size;
     chunk_size := chunk_size;
     total_chunks := estimate_total_chunks payload_size chunk_size;
     superblock_data := superblock_data;
     redundancy := redundancy;
     sha256 := sha256;
     packaging := packaging;
     compression := compression;
     root_name := root_name;
     file_count := file_count |}.

Definition _header_frame (meta : SessionMetadata) (flags : Z) : Frame :=
  {| frame_type := SESSION_HEADER;
     frames.session_id := models.session_id meta;
     superblock_id := 0;
     block_id := 0;
     total_blocks := total_chunks meta;
     blocks_in_super := 0;
     frames.flags := flags;
     payload := encode_metadata meta |}.

Definition data_frame (meta : SessionMetadata) (superblock_id block_id : Z)
    (blocks_in_super : Z) (local_idx : nat) (block : list byte) : Frame :=
  {| frame_type := DATA;
     frames.session_id := models.session_id meta;
     frames.superblock_id := superblock_id;
     frames.block_id := block_id + Z.of_nat local_idx;
     total_blocks := total_chunks meta;
     frames.blocks_in_super := blocks_in_super;
     flags := 0;
     payload := block |}.

Definition parity_frame (meta : SessionMetadata) (superblock_id block_id : Z)
    (blocks_in_super : Z) (parity_idx : nat) (parity : list byte) : Frame :=
  {| frame_type := FEC;
     frames.session_id := models.session_id meta;
     frames.superblock_id := superblock_id;
     frames.block_id := block_id + Z.of_nat parity_idx;
     total_blocks := total_chunks meta;
     frames.blocks_in_super := blocks_in_super;
     flags := 0;
     payload := parity |}.

(** The [while True] loop of [generate_frames]: one turn per superblock.
    [chunk_iter] is what the chunk iterator has not yielded yet,
    [block_id] and [superblock_id] are the loop's counters. *)
Fixpoint superblock_loop (fuel : nat) (meta : SessionMetadata)
    (header : Frame) (header_interval : Z) (chunk_iter : list (list byte))
    (block_id superblock_id : Z) : list Frame :=
  match fuel with
  | O => []
  | S fuel' =>
      let n := Z.to_nat (superblock_data meta) in
      let data_blocks := take n chunk_iter in
      match data_blocks with
      | [] => []
      | _ =>
          let blocks_in_super := Z.of_nat (length data_blocks) in
          let data_frames :=
            imap (data_frame meta superblock_id block_id blocks_in_super)
              data_blocks in
          let block_id' := block_id + Z.of_nat (length data_blocks) in
          let parity_blocks :=
            fec.generate_parity_blocks data_blocks (redundancy meta) in
          let parity_frames :=
            imap (parity_frame meta superblock_id block_id' blocks_in_super)
              parity_blocks in
          let resync :=
            if (0 <? header_interval) && (block_id' mod header_interval =? 0)
            then [header] else [] in
          data_frames ++ parity_frames ++ resync
            ++ superblock_loop fuel' meta header header_interval
                 (drop n chunk_iter) block_id' (superblock_id + 1)
      end
  end.

(** All frames [generate_frames] yields, in order, for a payload file
    whose content is [payload]. *)
Definition generate_frames (payload : list byte) (meta : SessionMetadata)
    (header_repeat header_interval : Z) : list Frame :=
  let header := _header_frame meta 0 in
  let chunk_iter := chunker.iter_chunks payload (chunk_size meta) in
  replicate (Z.to_nat (Z.max 1 header_repeat)) header
    ++ superblock_loop (S (length chunk_iter)) meta header header_interval
         chunk_iter 0 0.

End with_externals.

(** The generator [_batched(seq, n)]: [batch] is the batch being filled. *)
Fixpoint _batched_loop {A} (seq : list A) (n : Z) (batch : list A)
    : list (list A) :=
  match seq with
  | [] =>
      match batch with
      | [] => []
      | _ => [batch]
      end
  | item :: seq' =>
      let batch' := batch ++ [item] in
      if Z.of_nat (length batch') =? n then batch' :: _batched_loop seq' n []
      else _batched_loop seq' n batch'
  end.

Definition _batched {A} (seq : list A) (n : Z) : list (list A) :=
  _batched_loop seq n [].

(** [[f.to_b64() for f in frames]]: the first failure is raised. *)
Fixpoint frames_to_qr_strings (frames : list Frame) : result (list string) :=
  match frames with
  | [] => Ok []
  | f :: frames' =>
      s <-! to_b64 f;
      rest <-! frames_to_qr_strings frames';
      Ok (s :: rest)
  end.

End sender.

(** ** receiver.py *)

Module receiver.

Record Reassembler : Type := {
  meta : option SessionMetadata;
  session_id : option (list byte);
  data_blocks : gmap Z (list byte);
  parity_blocks : gmap Z (list (list byte));
  headers_seen : Z
}.

(** [Reassembler()] *)
Definition init : Reassembler :=
  {| meta := None; session_id := None; data_blocks := ∅;
     parity_blocks := ∅; headers_seen := 0 |}.

(** [self.session_id and frame.session_id != self.session_id]: [None]
    and the empty [bytes] are both falsy. *)
Definition other_session (self : Reassembler) (frame : Frame) : bool :=
  match session_id self with
  | None | Some [] => false
  | Some sid => negb (bool_decide (frames.session_id frame = sid))
  end.

Definition set_data_block (self : Reassembler) (block_id : Z)
    (block : list byte) : Reassembler :=
  {| meta := meta self; session_id := session_id self;
     data_blocks := <[block_id := block]> (data_blocks self);
     parity_blocks := parity_blocks self;
     headers_seen := headers_seen self |}.

(** [self.parity_blocks.setdefault(superblock_id, []).append(parity)] *)
Definition append_parity (self : Reassembler) (superblock_id : Z)
    (parity : list byte) : Reassembler :=
  {| meta := meta self; session_id := session_id self;
     data_blocks := data_blocks self;
     parity_blocks :=
       <[superblock_id :=
           default [] (parity_blocks self !! superblock_id) ++ [parity]]>
         (parity_blocks self);
     headers_seen := headers_seen self |}.

Definition _expected_len (m : SessionMetadata) (block_id : Z) : Z :=
  if block_id <? total_chunks m - 1 then chunk_size m
  else total_size m - chunk_size m * (total_chunks m - 1).

(** [list(range(start, end))] of the superblock's block ids. *)
Definition indices (m : SessionMetadata) (superblock_id : Z) : list Z :=
  let start := superblock_id * superblock_data m in
  let end_ := Z.min (start + superblock_data m) (total_chunks m) in
  seqZ start (end_ - start).

Definition missing (self : Reassembler) (idx : list Z) : list Z :=
  filter (fun i => data_blocks self !! i = None) idx.

(** [[self.data_blocks[i] for i in indices if i in self.data_blocks]] *)
Definition known (self : Reassembler) (idx : list Z) : list (list byte) :=
  omap (fun i => data_blocks self !! i) idx.

Definition _maybe_recover (self : Reassembler) (superblock_id : Z)
    : Reassembler :=
  match meta self with
  | None => self
  | Some m =>
      let idx := indices m superblock_id in
      match missing self idx with
      | [] => self
      | (block_id :: _) as miss =>
          match parity_blocks self !! superblock_id with
          | None | Some [] => self
          | Some (parity0 :: _) =>
              match fec.recover_single_missing (known self idx) parity0
                      (Z.of_nat (length miss)) with
              | None => self
              | Some recovered =>
                  set_data_block self block_id
                    (slice_to recovered (_expected_len m block_id))
              end
          end
      end
  end.

Section with_externals.
Context `{Externals}.

Definition _handle_header (self : Reassembler) (frame : Frame)
    : Reassembler :=
  match decode_metadata (payload frame) with
  | None => self
  | Some m =>
      if other_session self frame then self
      else
        {| meta := Some m;
           session_id := Some (frames.session_id frame);
           data_blocks := data_blocks self;
           parity_blocks := parity_blocks self;
           headers_seen := headers_seen self + 1 |}
  end.

Definition ingest (self : Reassembler) (frame : Frame) : Reassembler :=
  match frame_type frame with
  | SESSION_HEADER => _handle_header self frame
  | t =>
      if other_session self frame then self   (* different session *)
      else
        match meta self with
        | None => self                        (* ignore until header *)
        | Some _ =>
            match t with
            | DATA =>
                match data_blocks self !! block_id frame with
                | None =>
                    _maybe_recover
                      (set_data_block self (block_id frame) (payload frame))
                      (superblock_id frame)
                | Some _ => self
                end
            | FEC =>
                _maybe_recover
                  (append_parity self (superblock_id frame) (payload frame))
                  (superblock_id frame)
            | _ => self
            end
        end
  end.

(** Feeding a sequence of decoded frames, as the capture loop does. *)
Definition ingest_all (self : Reassembler) (fs : list Frame) : Reassembler :=
  fold_left ingest fs self.

End with_externals.

Definition is_complete (self : Reassembler) : bool :=
  match meta self with
  | None => false
  | Some m => Z.of_nat (size (data_blocks self)) >=? total_chunks m
  end.

(** The loop of [write_payload] over [range(total_chunks)]: the bytes
    written, or the first missing block. *)
Fixpoint write_blocks (blocks : gmap Z (list byte)) (idx : list Z)
    : result (list byte) :=
  match idx with
  | [] => Ok []
  | i :: idx' =>
      match blocks !! i with
      | None => Raise (RuntimeError (MissingBlock i))
      | Some b => out <-! write_blocks blocks idx'; Ok (b ++ out)
      end
  end.

(** The content of the file [write_payload] leaves when it returns. *)
Definition write_payload (self : Reassembler) : result (list byte) :=
  match meta self with
  | None => Raise (RuntimeError NoSessionMetadata)
  | Some m => write_blocks (data_blocks self) (seqZ 0 (total_chunks m))
  end.

(** How [process_stream] ends when it does not return normally. *)
Inductive stream_error : Type :=
  | NoSessionHeader                          (* "No session header received" *)
  | SHA256Mismatch (expected got : string)   (* "SHA256 mismatch; ..." *)
  | Propagated (e : exn).                    (* an exception from below *)

Inductive stream_result (A : Type) : Type :=
  | Done (a : A)
  | Failed (e : stream_error).
Arguments Done {A} a.
Arguments Failed {A} e.

Section stream.
Context `{Externals}.

(** [_file_sha256(path)], the receiver's copy of the function. *)
Definition _file_sha256 (file : list byte) : string :=
  sha256_hexdigest
    (fold_left (fun hasher chunk => hasher ++ chunk)
       (chunker.read_loop (S (length file)) file (1024 * 256)) []).

(** One turn of [for data in decoded_info]: an empty text is skipped, a
    text that raises [FrameError] is skipped, any other exception leaves
    the loop. *)
Definition ingest_decoded (self : Reassembler) (data : string)
    : result Reassembler :=
  match data with
  | EmptyString => Ok self
  | _ =>
      match from_b64 data with
      | Ok frame => Ok (ingest self frame)
      | Raise (FrameError _) => Ok self
      | Raise e => Raise e
      end
  end.

Fixpoint ingest_decoded_info (self : Reassembler) (decoded_info : list string)
    : result Reassembler :=
  match decoded_info with
  | [] => Ok self
  | data :: rest =>
      self' <-! ingest_decoded self data;
      ingest_decoded_info self' rest
  end.

(** The [while True] loop over the captured images, each given by the
    texts the detector decoded from it; the capture ends with the list. *)
Fixpoint capture_loop (self : Reassembler) (captures : list (list string))
    : result Reassembler :=
  match captures with
  | [] => Ok self
  | decoded_info :: rest =>
      self' <-! ingest_decoded_info self decoded_info;
      if is_complete self' then Ok self' else capture_loop self' rest
  end.

(** [process_stream] from the first capture to the verified payload file
    it hands to [extract_payload]. *)
Definition process_stream (captures : list (list string))
    : stream_result (list byte) :=
  match capture_loop init captures with
  | Raise e => Failed (Propagated e)
  | Ok assembler =>
      match meta assembler with
      | None => Failed NoSessionHeader
      | Some m =>
          match write_payload assembler with
          | Raise e => Failed (Propagated e)
          | Ok payload =>
              let sha := _file_sha256 payload in
              if bool_decide (sha = sha256 m) then Done payload
              else Failed (SHA256Mismatch (sha256 m) sha)
          end
      end
  end.

End stream.

End receiver.

(** ** Executable instances of the collaborators

    For running the model on concrete sessions: SHA-256 as [hashlib]
    computes it, the compact JSON text [json.dumps] writes for a
    metadata dictionary whose strings need no escaping, and a reader that
    recognises the header payloads of a given list of sessions. *)

Module hashlib.

Definition w32 (x : Z) : Z := Z.land x 0xFFFFFFFF.

Definition rotr (n x : Z) : Z :=
  w32 (Z.lor (Z.shiftr x n) (Z.shiftl x (32 - n))).

Definition ch (x y z : Z) : Z :=
  Z.lxor (Z.land x y) (Z.land (Z.lxor x 0xFFFFFFFF) z).

Definition maj (x y z : Z) : Z :=
  Z.lxor (Z.lxor (Z.land x y) (Z.land x z)) (Z.land y z).

Definition bsig0 (x : Z) : Z :=
  Z.lxor (Z.lxor (rotr 2 x) (rotr 13 x)) (rotr 22 x).

Definition bsig1 (x : Z) : Z :=
  Z.lxor (Z.lxor (rotr 6 x) (rotr 11 x)) (rotr 25 x).

Definition ssig0 (x : Z) : Z :=
  Z.lxor (Z.lxor (rotr 7 x) (rotr 18 x)) (Z.shiftr x 3).

Definition ssig1 (x : Z) : Z :=
  Z.lxor (Z.lxor (rotr 17 x) (rotr 19 x)) (Z.shiftr x 10).

(** The round constants and the initial state are the first 32 bits of
    the fractional parts of the cube roots of the first 64 primes and of
    the square roots of the first 8 primes. *)
Definition is_prime (n : nat) : bool :=
  forallb (fun d => negb (n mod d =? 0)%nat) (seq 2 (n - 2)).

Definition primes : list Z :=
  Z.of_nat <$> filter (fun n => is_prime n = true) (seq 2 310).

(** The integer cube root of [n], bit by bit from bit [bits - 1] down. *)
Fixpoint cbrt_bits (bits : nat) (n root : Z) : Z :=
  match bits with
  | O => root
  | S bits' =>
      let candidate := root + 2 ^ Z.of_nat bits' in
      cbrt_bits bits' n
        (if candidate * candidate * candidate <=? n then candidate else root)
  end.

Definition K : list Z :=
  Eval vm_compute in
    (fun p => w32 (cbrt_bits 40 (p * 2 ^ 96) 0)) <$> primes.

Definition H0 : list Z :=
  Eval vm_compute in
    (fun p => w32 (Z.sqrt (p * 2 ^ 64))) <$> take 8 primes.

(** The message, a one bit, zero bits, and the bit length on 64 bits,
    to a multiple of 64 bytes. *)
Definition pad_message (msg : list byte) : list byte :=
  let len := length msg in
  let zeros := ((64 - (len + 9) mod 64) mod 64)%nat in
  msg ++ [Byte.x80] ++ replicate zeros Byte.x00
      ++ be_bytes 8 (Z.of_nat len * 8).

Fixpoint split_blocks (n width : nat) (l : list byte) : list (list byte) :=
  match n with
  | O => []
  | S n' => take width l :: split_blocks n' width (drop width l)
  end.

(** The message schedule: [n] more words after those of [w]. *)
Fixpoint schedule (n : nat) (w : list Z) : list Z :=
  match n with
  | O => w
  | S n' =>
      let i := length w in
      let back k := nth (i - k) w 0 in
      schedule n'
        (w ++ [w32 (ssig1 (back 2%nat) + back 7%nat
                    + ssig0 (back 15%nat) + back 16%nat)])
  end.

Definition round (st : list Z) (kw : Z * Z) : list Z :=
  match st with
  | [a; b; c; d; e; f; g; h] =>
      let t1 := h + bsig1 e + ch e f g + kw.1 + kw.2 in
      let t2 := bsig0 a + maj a b c in
      [w32 (t1 + t2); a; b; c; w32 (d + t1); e; f; g]
  | _ => st
  end.

Definition compress (st : list Z) (block : list byte) : list Z :=
  let w := schedule 48 (be_value <$> split_blocks 16 4 block) in
  zip_with (fun x y => w32 (x + y)) st (fold_left round (zip K w) st).

Definition sha256 (msg : list byte) : list byte :=
  let padded := pad_message msg in
  let st :=
    fold_left compress (split_blocks (length padded / 64) 64 padded) H0 in
  concat (be_bytes 4 <$> st).

Definition hex_digit (n : Z) : ascii :=
  ascii_of_N (Z.to_N (if n <? 10 then 48 + n else 87 + n)).

(** [bytes.hex()] *)
Fixpoint hex (l : list byte) : string :=
  match l with
  | [] => EmptyString
  | b :: l' =>
      String (hex_digit (Z_of_byte b / 16))
        (String (hex_digit (Z_of_byte b mod 16)) (hex l'))
  end.

Definition sha256_hexdigest (msg : list byte) : string := hex (sha256 msg).

End hashlib.

Module json.

Definition quote : ascii := "034"%char.

(** A string that needs no escaping, between quotes. *)
Definition str (s : string) : string :=
  String quote (s ++ String quote EmptyString).

Definition int (z : Z) : string := NilZero.string_of_int (Z.to_int z).

Definition member (key value : string) : string :=
  str key ++ ":" ++ value.

(** [json.dumps(d, separators=(",", ":"))] of a flat dictionary. *)
Definition object (members : list string) : string :=
  "{" ++ String.concat "," members ++ "}".

End json.

Definition bytes_of_string (s : string) : list byte :=
  map byte_of_ascii (list_ascii_of_string s).

(** [json.dumps(meta.to_dict(), separators=(",", ":")).encode()] *)
Definition dumps_metadata (m : SessionMetadata) : list byte :=
  bytes_of_string
    (json.object
       [ json.member "session_id" (json.str (hashlib.hex (models.session_id m)));
         json.member "total_size" (json.int (total_size m));
         json.member "chunk_size" (json.int (chunk_size m));
         json.member "total_chunks" (json.int (total_chunks m));
         json.member "superblock_data" (json.int (superblock_data m));
         json.member "redundancy" (json.int (redundancy m));
         json.member "sha256" (json.str (sha256 m));
         json.member "packaging" (json.str (packaging m));
         json.member "compression" (json.str (compression m));
         json.member "root_name" (json.str (root_name m));
         json.member "file_count" (json.int (file_count m)) ]).

(** The reader restricted to the header payloads of [sessions]: the
    metadata whose JSON text the payload is, and [None] for a payload
    that is the text of none of them. *)
Definition loads_metadata (sessions : list SessionMetadata)
    (payload : list byte) : option SessionMetadata :=
  find (fun m => bool_decide (dumps_metadata m = payload)) sessions.

Definition reference_externals (sessions : list SessionMetadata)
    : Externals :=
  {| encode_metadata := dumps_metadata;
     decode_metadata := loads_metadata sessions;
     sha256_hexdigest := hashlib.sha256_hexdigest |}.

(** ** A concrete session

    A two-byte file sent in chunks of one byte, two data blocks per
    superblock and one parity copy, with the default header settings. *)

Module example.

Definition session : list byte := replicate 16 Byte.x07.
Definition other_session : list byte := replicate 16 Byte.x09.

Definition file : list byte := bytes_of_string "AB".

Definition meta : SessionMetadata :=
  sender.build_metadata (Z.of_nat (length file)) 1 2 1
    (hashlib.sha256_hexdigest file) "raw" "none" "ab.bin" 1 session.

(** Metadata of another payload under the same session id. *)
Definition meta' : SessionMetadata :=
  sender.build_metadata 3 1 2 1
    (hashlib.sha256_hexdigest (bytes_of_string "ABC"))
    "raw" "none" "abc.bin" 1 session.

#[export] Instance externals : Externals :=
  reference_externals [meta; meta'].

Definition header : Frame := sender._header_frame meta 0.
Definition header' : Frame := sender._header_frame meta' 0.

Definition frames : list Frame :=
  sender.generate_frames file meta
    config.DEFAULT_HEADER_REPEAT config.DEFAULT_HEADER_INTERVAL.

Definition data0 : Frame :=
  sender.data_frame meta 0 0 2 0 (bytes_of_string "A").
Definition data1 : Frame :=
  sender.data_frame meta 0 0 2 1 (bytes_of_string "B").
Definition parity0 : Frame :=
  sender.parity_frame meta 0 2 2 0 [Byte.x03].

(** Well-formed DATA frames of the session whose block ids lie beyond
    its two chunks. *)
Definition stray (block_id : Z) : Frame :=
  {| frame_type := DATA; frames.session_id := session;
     superblock_id := 0; frames.block_id := block_id;
     total_blocks := 2; blocks_in_super := 2; flags := 0;
     payload := bytes_of_string "X" |}.

(** A DATA frame of another session. *)
Definition foreign : Frame :=
  {| frame_type := DATA; frames.session_id := other_session;
     superblock_id := 0; block_id := 0;
     total_blocks := 2; blocks_in_super := 2; flags := 0;
     payload := bytes_of_string "Z" |}.

(** A buffer of header plus CRC size with correct magic, version, a
    declared payload length of 0 and the CRC-32 of its header, whose
    type byte is 4; and its base64 text. *)
Definition unknown_type_raw : list byte :=
  config.MAGIC ++ [Byte.x01; Byte.x04; Byte.x00]
    ++ replicate 16 Byte.x00          (* session id *)
    ++ replicate 16 Byte.x00          (* ids, counts, payload length *)
    ++ [Byte.x47; Byte.x8c; Byte.x85; Byte.x43].

Definition unknown_type_b64 : string :=
  "UVJDTQEEAAAAAAAAAAAAAAAAAAAAAAAAAAAAAAAAAAAAAAAAAAAAR4yFQw==".

End example.

(** ** Sanity checks of the library models on known vectors *)

Example crc32_check_vector :
  zlib.crc32 (bytes_of_string "123456789") = 0xCBF43926.
Proof. vm_compute. reflexivity. Qed.

Example sha256_check_vectors :
  hashlib.sha256_hexdigest (bytes_of_string "abc")
  = "ba7816bf8f01cfea414140de5dae2223b00361a396177a9cb410ff61f20015ad"%string
  /\
  hashlib.sha256_hexdigest []
  = "e3b0c44298fc1c149afbf4c8996fb92427ae41e4649b934ca495991b7852b855"%string.
Proof. vm_compute. split; reflexivity. Qed.

Example b64encode_vectors :
  base64.b64encode (bytes_of_string "f") = "Zg=="%string /\
  base64.b64encode (bytes_of_string "fo") = "Zm8="%string /\
  base64.b64encode (bytes_of_string "foobar") = "Zm9vYmFy"%string.
Proof. vm_compute. auto. Qed.

Example b64decode_vectors :
  base64.b64decode "Zm9vYmE=" = Some (bytes_of_string "fooba") /\
  base64.b64decode "QR==" = Some (bytes_of_string "A") /\
  base64.b64decode "QUJD=" = Some (bytes_of_string "ABC") /\
  base64.b64decode "Zm9v!mE=" = None /\
  base64.b64decode "Zm9vYmE" = None /\
  base64.b64decode "=" = None /\
  base64.b64decode "QQ=" = None /\
  base64.b64decode "Zg==Zg==" = None.
Proof. vm_compute. repeat split. Qed.

(** * Properties of the reassembler *)

Section reassembler_properties.
Context `{Externals}.
Import receiver.

Implicit Types (r : Reassembler) (f : Frame) (m : SessionMetadata).

(** ** Cross-session isolation *)

Lemma other_session_true r sid f :
  session_id r = Some sid -> sid <> [] -> frames.session_id f <> sid ->
  other_session r f = true.
Proof.
  intros Hs Hne Hf. unfold other_session. rewrite Hs.
  destruct sid as [|b sid]; [done|].
  by rewrite bool_decide_false.
Qed.

Lemma other_session_false r f :
  session_id r = Some (frames.session_id f) -> other_session r f = false.
Proof.
  intros Hs. unfold other_session. rewrite Hs.
  destruct (frames.session_id f); [done|].
  by rewrite bool_decide_true.
Qed.

(** C9.  Once a session id is adopted (a non-empty [bytes] value, as every
    decoded frame carries), ingesting a frame of any type whose session id
    differs returns the very same state: metadata, data blocks, parity
    blocks and header counter are all unchanged. *)
Theorem ingest_other_session_unchanged r sid f :
  session_id r = Some sid -> sid <> [] -> frames.session_id f <> sid ->
  ingest r f = r.
Proof.
  intros Hs Hne Hf.
  pose proof (other_session_true r sid f Hs Hne Hf) as Ho.
  unfold ingest, _handle_header.
  destruct (frame_type f); rewrite ?Ho; try done.
  by destruct (decode_metadata (payload f)).
Qed.

(** ** Session headers *)

(** C6, as the code has it.  A further SESSION_HEADER bearing the adopted
    session id whose payload decodes to [m'] makes [m'] the stored
    metadata (so the metadata is unchanged when the header carries the
    metadata already stored), counts one more header, and changes neither
    the data blocks nor the parity blocks nor the session id. *)
Theorem header_same_session_replaces_metadata r sid f m' :
  session_id r = Some sid ->
  frame_type f = SESSION_HEADER ->
  frames.session_id f = sid ->
  decode_metadata (payload f) = Some m' ->
  meta (ingest r f) = Some m' /\
  session_id (ingest r f) = Some sid /\
  data_blocks (ingest r f) = data_blocks r /\
  parity_blocks (ingest r f) = parity_blocks r /\
  headers_seen (ingest r f) = headers_seen r + 1.
Proof.
  intros Hs Ht Hf Hd. unfold ingest, _handle_header.
  rewrite Ht, Hd, other_session_false by congruence.
  simpl. by rewrite Hf.
Qed.

Lemma header_same_metadata_idempotent r sid f m :
  session_id r = Some sid -> meta r = Some m ->
  frame_type f = SESSION_HEADER -> frames.session_id f = sid ->
  decode_metadata (payload f) = Some m ->
  meta (ingest r f) = meta r /\ data_blocks (ingest r f) = data_blocks r.
Proof.
  intros Hs Hm Ht Hf Hd. unfold ingest, _handle_header.
  rewrite Ht, Hd, other_session_false by congruence.
  simpl. by rewrite Hm.
Qed.

(** ** Superblock ranges *)

Lemma elem_of_indices m s j :
  j ∈ indices m s <->
  s * superblock_data m <= j < s * superblock_data m + superblock_data m /\
  j < total_chunks m.
Proof. unfold indices. rewrite elem_of_seqZ. lia. Qed.

Lemma indices_disjoint m s t j :
  j ∈ indices m s -> j ∈ indices m t -> s = t.
Proof. rewrite !elem_of_indices. nia. Qed.

Lemma elem_of_missing r idx j :
  j ∈ missing r idx <-> j ∈ idx /\ data_blocks r !! j = None.
Proof. unfold missing. rewrite list_elem_of_filter. tauto. Qed.

(** What a recovery attempt can do: nothing, or store one block at the
    first missing id of the superblock, and then only when that id is the
    only missing one and a first parity copy is held. *)
Lemma _maybe_recover_cases r s :
  _maybe_recover r s = r \/
  exists m j parity0 rest,
    meta r = Some m /\
    missing r (indices m s) = [j] /\
    parity_blocks r !! s = Some (parity0 :: rest) /\ parity0 <> [] /\
    _maybe_recover r s =
      set_data_block r j
        (slice_to (fec.xor_parity_block (known r (indices m s) ++ [parity0]))
           (_expected_len m j)).
Proof.
  unfold _maybe_recover.
  destruct (meta r) as [m|]; [|by left].
  destruct (missing r (indices m s)) as [|j miss] eqn:Hmiss; [by left|].
  destruct (parity_blocks r !! s) as [[|parity0 rest]|] eqn:Hp;
    [by left| |by left].
  unfold fec.recover_single_missing.
  destruct (negb (Z.of_nat (length (j :: miss)) =? 1)) eqn:Hlen;
    [by left|].
  destruct (bool_decide (parity0 = [])) eqn:Hp0; [by left|].
  cbn [orb].
  right. exists m, j, parity0, rest.
  apply negb_false_iff, Z.eqb_eq in Hlen.
  apply bool_decide_eq_false in Hp0.
  destruct miss; [|simpl in Hlen; lia].
  done.
Qed.

Lemma _maybe_recover_meta r s : meta (_maybe_recover r s) = meta r.
Proof.
  destruct (_maybe_recover_cases r s) as [->|(m&j&p&rest&_&_&_&_&->)]; done.
Qed.

Lemma _maybe_recover_session r s :
  session_id (_maybe_recover r s) = session_id r.
Proof.
  destruct (_maybe_recover_cases r s) as [->|(m&j&p&rest&_&_&_&_&->)]; done.
Qed.

Lemma _maybe_recover_parity r s :
  parity_blocks (_maybe_recover r s) = parity_blocks r.
Proof.
  destruct (_maybe_recover_cases r s) as [->|(m&j&p&rest&_&_&_&_&->)]; done.
Qed.

(** ** Two missing blocks are never recovered *)

(** A recovery attempt leaves two distinct missing ids of one superblock
    missing. *)
Lemma _maybe_recover_two_missing r m s t j1 j2 :
  meta r = Some m ->
  j1 ∈ indices m s -> j2 ∈ indices m s -> j1 <> j2 ->
  data_blocks r !! j1 = None -> data_blocks r !! j2 = None ->
  data_blocks (_maybe_recover r t) !! j1 = None /\
  data_blocks (_maybe_recover r t) !! j2 = None.
Proof.
  intros Hm H1 H2 Hne Hn1 Hn2.
  destruct (_maybe_recover_cases r t)
    as [->|(m'&j&p&rest&Hm'&Hmiss&_&_&->)]; [done|].
  assert (m' = m) as -> by congruence.
  assert (forall i, i ∈ indices m s -> data_blocks r !! i = None ->
                    i <> j -> s <> t) as Hst.
  { intros i Hi Hnone Hij ->. apply Hij.
    assert (i ∈ missing r (indices m t)) as Hin
      by (by apply elem_of_missing).
    rewrite Hmiss in Hin. by apply list_elem_of_singleton in Hin. }
  assert (j ∈ indices m t) as Hjt.
  { assert (j ∈ missing r (indices m t)) as Hin
      by (rewrite Hmiss; apply list_elem_of_here).
    by apply elem_of_missing in Hin as [? _]. }
  assert (j <> j1).
  { intros ->. destruct (Hst j2 H2 Hn2); [done|].
    by apply (indices_disjoint m s t j1). }
  assert (j <> j2).
  { intros ->. destruct (Hst j1 H1 Hn1); [done|].
    by apply (indices_disjoint m s t j2). }
  simpl. by rewrite !lookup_insert_ne.
Qed.

(** The frames that neither deliver block [j1] or [j2] nor replace the
    session metadata [m]. *)
Definition withholds (m : SessionMetadata) (j1 j2 : Z) (f : Frame) : Prop :=
  match frame_type f with
  | SESSION_HEADER =>
      forall m', decode_metadata (payload f) = Some m' -> m' = m
  | DATA => block_id f <> j1 /\ block_id f <> j2
  | _ => True
  end.

Lemma ingest_two_missing r m s j1 j2 f :
  meta r = Some m ->
  j1 ∈ indices m s -> j2 ∈ indices m s -> j1 <> j2 ->
  data_blocks r !! j1 = None -> data_blocks r !! j2 = None ->
  withholds m j1 j2 f ->
  meta (ingest r f) = Some m /\
  data_blocks (ingest r f) !! j1 = None /\
  data_blocks (ingest r f) !! j2 = None.
Proof.
  intros Hm H1 H2 Hne Hn1 Hn2 Hf.
  unfold withholds in Hf. unfold ingest, _handle_header.
  destruct (frame_type f).
  - destruct (decode_metadata (payload f)) as [m'|]; [|by auto].
    destruct (other_session r f); [by auto|]. simpl.
    by rewrite (Hf m' eq_refl).
  - destruct (other_session r f); [by auto|]. rewrite Hm.
    destruct (data_blocks r !! block_id f) eqn:Hb; [by auto|].
    destruct Hf as [Hf1 Hf2].
    rewrite _maybe_recover_meta. split; [done|].
    apply (_maybe_recover_two_missing _ m s); try done;
      simpl; by rewrite lookup_insert_ne.
  - destruct (other_session r f); [by auto|]. rewrite Hm.
    rewrite _maybe_recover_meta. split; [done|].
    by apply (_maybe_recover_two_missing _ m s).
  - destruct (other_session r f); [by auto|]. rewrite Hm. by auto.
Qed.

(** C8.  Let [j1] and [j2] be two distinct block ids of superblock [s]
    that are not stored.  Whatever sequence of frames is ingested that
    contains no DATA frame for [j1] or [j2] (the remaining DATA frames,
    any number of FEC frames, of this or any superblock, and headers
    that keep the metadata), both ids are still absent afterwards. *)
Theorem two_missing_never_recovered r m s j1 j2 fs :
  meta r = Some m ->
  j1 ∈ indices m s -> j2 ∈ indices m s -> j1 <> j2 ->
  data_blocks r !! j1 = None -> data_blocks r !! j2 = None ->
  Forall (withholds m j1 j2) fs ->
  data_blocks (ingest_all r fs) !! j1 = None /\
  data_blocks (ingest_all r fs) !! j2 = None.
Proof.
  intros Hm H1 H2 Hne Hn1 Hn2 Hfs. revert r Hm Hn1 Hn2.
  induction Hfs as [|f fs Hf _ IH]; intros r Hm Hn1 Hn2; [done|].
  simpl.
  destruct (ingest_two_missing r m s j1 j2 f) as (?&?&?); try done.
  by apply IH.
Qed.

(** ** Completion *)

Lemma write_blocks_mapM (blocks : gmap Z (list byte)) (idx : list Z)
    (bs : list (list byte)) :
  mapM (fun i => blocks !! i) idx = Some bs ->
  write_blocks blocks idx = Ok (concat bs).
Proof.
  revert bs. induction idx as [|i idx IH]; intros bs Hbs.
  - by injection Hbs as <-.
  - simpl in *. destruct (blocks !! i) as [b|]; [|done]. simpl in Hbs.
    destruct (mapM _ idx) as [bs'|]; [|done]. injection Hbs as <-.
    by rewrite (IH bs' eq_refl).
Qed.

Lemma write_blocks_missing (blocks : gmap Z (list byte)) (idx : list Z)
    (out : list byte) :
  write_blocks blocks idx = Ok out ->
  forall i, i ∈ idx -> is_Some (blocks !! i).
Proof.
  revert out. induction idx as [|j idx IH]; intros out Hout i Hi.
  - by apply elem_of_nil in Hi.
  - simpl in Hout. destruct (blocks !! j) as [b|] eqn:Hb; [|done].
    destruct (write_blocks blocks idx) as [out'|]; [|done].
    apply elem_of_cons in Hi as [->|Hi]; [by rewrite Hb|].
    by apply (IH out').
Qed.

Lemma mapM_lookup_total (blocks : gmap Z (list byte)) (idx : list Z) :
  (forall i, i ∈ idx -> is_Some (blocks !! i)) ->
  exists bs, mapM (fun i => blocks !! i) idx = Some bs.
Proof.
  intros Hall. apply (mapM_is_Some_2 (fun i => blocks !! i)).
  by apply Forall_forall.
Qed.

(** As many stored blocks as [total_chunks], all with ids below
    [total_chunks]: then every id below [total_chunks] is stored. *)
Lemma complete_in_range_all_present (blocks : gmap Z (list byte)) (n : Z) :
  n <= Z.of_nat (size blocks) ->
  (forall i, is_Some (blocks !! i) -> 0 <= i < n) ->
  forall i, 0 <= i < n -> is_Some (blocks !! i).
Proof.
  intros Hsize Hrange i Hi.
  set (full := list_to_set (seqZ 0 n) : gset Z).
  assert (dom blocks = full) as Hdom.
  { apply set_subseteq_size_eq.
    - intros k Hk. apply elem_of_dom in Hk.
      apply elem_of_list_to_set, elem_of_seqZ. specialize (Hrange k Hk). lia.
    - unfold full. rewrite size_list_to_set by apply NoDup_seqZ.
      rewrite length_seqZ, size_dom. lia. }
  apply elem_of_dom. rewrite Hdom.
  apply elem_of_list_to_set, elem_of_seqZ. lia.
Qed.

(** C5, as the code has it.  When [is_complete()] holds and no stored
    block id lies outside [0, total_chunks), every block id of that range
    is stored, and [write_payload] succeeds and writes the concatenation
    of exactly those blocks in ascending block id order. *)
Theorem complete_in_range_writes_all r m :
  meta r = Some m ->
  is_complete r = true ->
  (forall i, is_Some (data_blocks r !! i) -> 0 <= i < total_chunks m) ->
  (forall i, 0 <= i < total_chunks m -> is_Some (data_blocks r !! i)) /\
  exists blocks,
    mapM (fun i => data_blocks r !! i) (seqZ 0 (total_chunks m))
      = Some blocks /\
    write_payload r = Ok (concat blocks).
Proof.
  intros Hm Hc Hrange. unfold is_complete in Hc. rewrite Hm in Hc.
  assert (forall i, 0 <= i < total_chunks m -> is_Some (data_blocks r !! i))
    as Hall.
  { apply complete_in_range_all_present; [lia|done]. }
  split; [done|].
  destruct (mapM_lookup_total (data_blocks r) (seqZ 0 (total_chunks m)))
    as [bs Hbs].
  { intros i Hi. apply Hall. apply elem_of_seqZ in Hi. lia. }
  exists bs. split; [done|].
  unfold write_payload. rewrite Hm. by apply write_blocks_mapM.
Qed.

End reassembler_properties.

(** * Properties of the byte-level encodings *)

Section byte_facts.

Lemma Z_of_byte_range b : 0 <= Z_of_byte b < 256.
Proof.
  unfold Z_of_byte. pose proof (Byte.to_N_bounded b). lia.
Qed.

Lemma byte_of_Z_of_byte b : byte_of_Z (Z_of_byte b) = b.
Proof.
  unfold byte_of_Z. pose proof (Z_of_byte_range b).
  rewrite Z.mod_small by done. unfold Z_of_byte.
  by rewrite N2Z.id, Byte.of_to_N.
Qed.

Lemma Z_of_byte_of_Z z : Z_of_byte (byte_of_Z z) = z mod 256.
Proof.
  unfold byte_of_Z, Z_of_byte.
  pose proof (Z.mod_pos_bound z 256 ltac:(lia)) as Hz.
  destruct (Byte.of_N (Z.to_N (z mod 256))) as [b|] eqn:Hb.
  - apply Byte.to_of_N in Hb. rewrite Hb. lia.
  - apply Byte.of_N_None_iff in Hb. lia.
Qed.

Lemma byte_of_Z_eq z b : z mod 256 = Z_of_byte b -> byte_of_Z z = b.
Proof.
  intros Hz. rewrite <- (byte_of_Z_of_byte b), <- Hz.
  unfold byte_of_Z. by rewrite Z.mod_mod.
Qed.

Lemma Z_of_byte_inj a b : Z_of_byte a = Z_of_byte b -> a = b.
Proof.
  intros Hab. by rewrite <- (byte_of_Z_of_byte a), Hab, byte_of_Z_of_byte.
Qed.

Lemma length_be_bytes n v : length (be_bytes n v) = n.
Proof. induction n; simpl; congruence. Qed.

Lemma be_value_acc l acc :
  fold_left (fun a b => a * 256 + Z_of_byte b) l acc
  = acc * 256 ^ Z.of_nat (length l) + be_value l.
Proof.
  unfold be_value. revert acc.
  induction l as [|b l IH]; intros acc; [simpl; lia|].
  cbn [fold_left length]. rewrite IH, (IH (0 * 256 + _)).
  rewrite Nat2Z.inj_succ, Z.pow_succ_r by lia. lia.
Qed.

Lemma be_value_cons b l :
  be_value (b :: l) = Z_of_byte b * 256 ^ Z.of_nat (length l) + be_value l.
Proof.
  unfold be_value at 1. cbn [fold_left]. by rewrite be_value_acc.
Qed.

(** Unpacking what was packed gives the value back, modulo the field
    width. *)
Lemma be_value_be_bytes n v :
  be_value (be_bytes n v) = v mod 256 ^ Z.of_nat n.
Proof.
  induction n as [|n IH]; [by rewrite Z.mod_1_r|].
  cbn [be_bytes]. rewrite be_value_cons, length_be_bytes, IH.
  rewrite Z_of_byte_of_Z, Nat2Z.inj_succ, Z.pow_succ_r by lia.
  assert (0 < 256 ^ Z.of_nat n) by (apply Z.pow_pos_nonneg; lia).
  rewrite (Z.mul_comm 256), Z.rem_mul_r by lia. lia.
Qed.

Lemma be_value_be_bytes_small n v :
  0 <= v < 256 ^ Z.of_nat n -> be_value (be_bytes n v) = v.
Proof. intros Hv. by rewrite be_value_be_bytes, Z.mod_small. Qed.

Lemma pack_uint_ok n v :
  0 <= v < 256 ^ Z.of_nat n -> struct.pack_uint n v = Ok (be_bytes n v).
Proof.
  intros Hv. unfold struct.pack_uint.
  destruct (Z.leb_spec 0 v); [|lia].
  destruct (Z.ltb_spec v (256 ^ Z.of_nat n)); [done|lia].
Qed.

Lemma pack_s_exact n (b : list byte) :
  length b = n -> struct.pack_s n b = b.
Proof.
  intros <-. unfold struct.pack_s, ljust.
  rewrite firstn_all, Nat.sub_diag. apply app_nil_r.
Qed.

End byte_facts.

(** ** Base64 *)

Section base64_facts.
Import base64.

Lemma b64_index_char n : 0 <= n < 64 -> b64_index (b64_char n) = Some n.
Proof.
  intros Hn. unfold b64_index, b64_char.
  rewrite N_ascii_embedding;
    repeat match goal with
    | |- context [if ?a <? ?b then _ else _] => destruct (Z.ltb_spec a b)
    | |- context [if ?a =? ?b then _ else _] => destruct (Z.eqb_spec a b)
    end; try lia.
  all: rewrite Z2N.id by lia.
  all: repeat match goal with
    | |- context [?a <=? ?b] => destruct (Z.leb_spec a b); try lia
    | |- context [?a =? ?b] => destruct (Z.eqb_spec a b); try lia
    end; cbn [andb]; f_equal; lia.
Qed.

Lemma b64_char_not_pad n :
  0 <= n < 64 -> Ascii.eqb (b64_char n) pad = false.
Proof.
  intros Hn. apply Ascii.eqb_neq. intros Heq.
  apply (f_equal N_of_ascii) in Heq. revert Heq.
  unfold b64_char.
  rewrite N_ascii_embedding;
    repeat match goal with
    | |- context [if ?a <? ?b then _ else _] => destruct (Z.ltb_spec a b)
    | |- context [if ?a =? ?b then _ else _] => destruct (Z.eqb_spec a b)
    end; try lia.
  all: change (N_of_ascii pad) with 61%N; lia.
Qed.

Lemma b64encode_nil_inv l : b64encode l = EmptyString -> l = [].
Proof. by destruct l as [|a [|b [|c l]]]. Qed.

Lemma list_ind3 {A} (P : list A -> Prop) :
  P [] -> (forall a, P [a]) -> (forall a b, P [a; b]) ->
  (forall a b c l, P l -> P (a :: b :: c :: l)) ->
  forall l, P l.
Proof.
  intros H0 H1 H2 H3 l.
  assert (P l /\ (forall a, P (a :: l)) /\ (forall a b, P (a :: b :: l)))
    as [? _]; [|done].
  induction l as [|x l (IHa & IHb & IHc)]; [by auto|].
  split; [by apply IHb|]. split; [intros a; by apply IHc|].
  intros a b. by apply H3.
Qed.

Ltac zdm := Z.div_mod_to_equations; lia.

(** A decidable fact about two sextet values holds by enumeration. *)
Lemma sextet_enum (P : Z -> Z -> bool) :
  forallb (fun x => forallb (P x) (seqZ 0 64)) (seqZ 0 64) = true ->
  forall u v, 0 <= u < 64 -> 0 <= v < 64 -> P u v = true.
Proof.
  intros Hall u v Hu Hv. rewrite forallb_forall in Hall.
  specialize (Hall u). rewrite forallb_forall in Hall.
  apply Hall; apply list_elem_of_In, elem_of_seqZ; lia.
Qed.

(** The three bit-twiddling steps of the decoder, as arithmetic. *)
Lemma a2b_byte1 u v :
  0 <= u < 64 -> 0 <= v < 64 ->
  Z.lor (Z.shiftl u 2) (Z.shiftr v 4) = u * 4 + v / 16.
Proof.
  intros Hu Hv. apply Z.eqb_eq.
  apply (sextet_enum (fun u v =>
    Z.lor (Z.shiftl u 2) (Z.shiftr v 4) =? u * 4 + v / 16));
    [by vm_compute|done..].
Qed.

Lemma a2b_byte2 u v :
  0 <= u < 64 -> 0 <= v < 64 ->
  Z.lor (Z.shiftl (Z.land u 0x0f) 4) (Z.shiftr v 2) = u mod 16 * 16 + v / 4.
Proof.
  intros Hu Hv. apply Z.eqb_eq.
  apply (sextet_enum (fun u v =>
    Z.lor (Z.shiftl (Z.land u 0x0f) 4) (Z.shiftr v 2)
    =? u mod 16 * 16 + v / 4));
    [by vm_compute|done..].
Qed.

Lemma a2b_byte3 u v :
  0 <= u < 64 -> 0 <= v < 64 ->
  Z.lor (Z.shiftl (Z.land u 0x03) 6) v = u mod 4 * 64 + v.
Proof.
  intros Hu Hv. apply Z.eqb_eq.
  apply (sextet_enum (fun u v =>
    Z.lor (Z.shiftl (Z.land u 0x03) 6) v =? u mod 4 * 64 + v));
    [by vm_compute|done..].
Qed.

(** Run from the start of a group, the decoder loop appends the bytes
    that were encoded. *)
Lemma a2b_loop_b64encode l lc out :
  a2b_loop (b64encode l) 0 lc 0 false out = Some (out ++ l).
Proof.
  revert lc out.
  induction l as [|a|a b|a b c l IH] using list_ind3; intros lc out.
  - by rewrite app_nil_r.
  - pose proof (Z_of_byte_range a).
    cbn [b64encode a2b_loop].
    rewrite !b64_char_not_pad, !b64_index_char by zdm.
    rewrite Ascii.eqb_refl. cbn.
    rewrite a2b_byte1 by zdm.
    do 3 f_equal. apply byte_of_Z_eq. zdm.
  - pose proof (Z_of_byte_range a). pose proof (Z_of_byte_range b).
    cbn [b64encode a2b_loop].
    rewrite !b64_char_not_pad, !b64_index_char by zdm.
    rewrite Ascii.eqb_refl. cbn.
    rewrite a2b_byte1, a2b_byte2 by zdm.
    rewrite <- app_assoc. do 2 f_equal. cbn [app].
    f_equal; [|f_equal]; apply byte_of_Z_eq; zdm.
  - pose proof (Z_of_byte_range a). pose proof (Z_of_byte_range b).
    pose proof (Z_of_byte_range c).
    cbn [b64encode a2b_loop].
    rewrite !b64_char_not_pad, !b64_index_char by zdm.
    rewrite IH, a2b_byte1, a2b_byte2, a2b_byte3 by zdm.
    rewrite <- !app_assoc. do 2 f_equal. cbn [app].
    f_equal; [|f_equal; [|f_equal]]; apply byte_of_Z_eq; zdm.
Qed.

(** [b64decode(b64encode(raw)) == raw] *)
Lemma b64decode_b64encode l : b64decode (b64encode l) = Some l.
Proof.
  unfold b64decode.
  destruct (b64encode l) as [|c s] eqn:Hl.
  - by apply b64encode_nil_inv in Hl as ->.
  - assert (Ascii.eqb c pad = false) as ->.
    { destruct l as [|x [|y [|z l]]]; [done|..];
        injection Hl as <- _; apply b64_char_not_pad;
        pose proof (Z_of_byte_range x);
        try pose proof (Z_of_byte_range y);
        try pose proof (Z_of_byte_range z); zdm. }
    rewrite <- Hl. apply a2b_loop_b64encode.
Qed.

End base64_facts.

(** * Properties of the frame codec *)

(** The wire image of a frame, read off the layout table of the
    specification: magic, version, type, flags, session id, superblock
    id, block id, total blocks, blocks in superblock, payload length,
    payload, CRC-32 of everything before it; integers big-endian. *)
Definition wire_header (f : Frame) : list byte :=
  config.MAGIC
    ++ [byte_of_Z config.VERSION;
        byte_of_Z (int_of_FrameType (frame_type f));
        byte_of_Z (Z.land (flags f) 0xFF)]
    ++ frames.session_id f
    ++ be_bytes 4 (superblock_id f)
    ++ be_bytes 4 (block_id f)
    ++ be_bytes 4 (total_blocks f)
    ++ be_bytes 2 (blocks_in_super f)
    ++ be_bytes 2 (Z.of_nat (length (payload f))).

Definition wire_frame (f : Frame) : list byte :=
  wire_header f ++ payload f
    ++ be_bytes 4 (Z.land (zlib.crc32 (wire_header f ++ payload f)) 0xFFFFFFFF).

(** The integer fields fit their wire widths. *)
Definition wire_ranges (f : Frame) : Prop :=
  0 <= superblock_id f < 2 ^ 32 /\
  0 <= block_id f < 2 ^ 32 /\
  0 <= total_blocks f < 2 ^ 32 /\
  0 <= blocks_in_super f < 2 ^ 16.

(** A valid frame: what the data model of the specification allows. *)
Definition valid_frame (f : Frame) : Prop :=
  length (frames.session_id f) = 16%nat /\
  Z.of_nat (length (payload f)) <= 65535 /\
  0 <= flags f <= 255 /\
  wire_ranges f.

Section codec_properties.

Lemma be_bytes_1 v : be_bytes 1 v = [byte_of_Z v].
Proof. cbn [be_bytes]. by rewrite Z.pow_0_r, Z.div_1_r. Qed.

Lemma land_255_range z : 0 <= Z.land z 0xFF < 256.
Proof.
  change 0xFF with (Z.ones 8). rewrite Z.land_ones by lia.
  apply Z.mod_pos_bound. lia.
Qed.

Lemma land_32_range z : 0 <= Z.land z 0xFFFFFFFF < 2 ^ 32.
Proof.
  change 0xFFFFFFFF with (Z.ones 32). rewrite Z.land_ones by lia.
  apply Z.mod_pos_bound. lia.
Qed.

Lemma int_of_FrameType_range t : 0 <= int_of_FrameType t < 4.
Proof. destruct t; simpl; lia. Qed.

Lemma FrameType_of_int_of_FrameType t :
  FrameType_of_int (int_of_FrameType t) = Ok t.
Proof. by destruct t. Qed.

Lemma length_wire_header f :
  length (frames.session_id f) = 16%nat -> length (wire_header f) = 39%nat.
Proof.
  intros Hs. unfold wire_header.
  rewrite !length_app, !length_be_bytes, Hs. reflexivity.
Qed.

(** Within the wire ranges and past the two guards, [to_bytes] returns
    the wire image. *)
Lemma to_bytes_ok f :
  wire_ranges f ->
  length (frames.session_id f) = 16%nat ->
  Z.of_nat (length (payload f)) <= 65535 ->
  to_bytes f = Ok (wire_frame f).
Proof.
  intros (Hsb & Hb & Ht & Hk) Hs Hp. unfold to_bytes.
  rewrite Hs. cbn [Nat.eqb negb].
  destruct (Z.gtb_spec (Z.of_nat (length (payload f))) 0xFFFF); [lia|].
  unfold pack_header.
  pose proof (int_of_FrameType_range (frame_type f)).
  pose proof (land_255_range (flags f)).
  assert (0 <= Z.of_nat (length (payload f))) by lia.
  unfold wire_ranges, config.VERSION in *.
  repeat (rewrite pack_uint_ok by (simpl Z.of_nat; lia); cbn [bind]).
  rewrite !pack_s_exact by done.
  rewrite !be_bytes_1. unfold wire_frame, wire_header.
  by rewrite <- !app_assoc.
Qed.

(** C10.  For a frame whose integer fields are within their wire ranges,
    [to_bytes] raises [FrameError] exactly when the session id is not 16
    bytes long or the payload is longer than 65535 bytes; otherwise it
    raises nothing and returns the wire image of the frame. *)
Theorem to_bytes_FrameError_iff f :
  wire_ranges f ->
  ((exists why, to_bytes f = Raise (FrameError why)) <->
   (length (frames.session_id f) <> 16%nat \/
    65535 < Z.of_nat (length (payload f)))) /\
  (~ (length (frames.session_id f) <> 16%nat \/
      65535 < Z.of_nat (length (payload f))) ->
   to_bytes f = Ok (wire_frame f)).
Proof.
  intros Hr.
  assert (~ (length (frames.session_id f) <> 16%nat \/
             65535 < Z.of_nat (length (payload f))) ->
          to_bytes f = Ok (wire_frame f)) as Hok.
  { intros Hn. apply to_bytes_ok; [done|lia..]. }
  split; [|done]. split.
  - intros [why Hwhy].
    destruct (decide (length (frames.session_id f) = 16%nat)); [|by left].
    destruct (Z.le_gt_cases (Z.of_nat (length (payload f))) 65535);
      [|right; lia].
    rewrite Hok in Hwhy by lia. done.
  - intros Hbad. unfold to_bytes.
    destruct (Nat.eqb_spec (length (frames.session_id f)) 16);
      [|by eexists].
    cbn [negb].
    destruct (Z.gtb_spec (Z.of_nat (length (payload f))) 0xFFFF);
      [by eexists|lia].
Qed.

(** What [from_bytes] does on a buffer of at least header and CRC size,
    by the fields of the fixed layout. *)
Lemma from_bytes_layout (magic : list byte) (v t g : byte)
    (sid s b n k p payload crc : list byte) :
  length magic = 4%nat -> length sid = 16%nat ->
  length s = 4%nat -> length b = 4%nat -> length n = 4%nat ->
  length k = 2%nat -> length p = 2%nat -> length crc = 4%nat ->
  let header := magic ++ [v; t; g] ++ sid ++ s ++ b ++ n ++ k ++ p in
  from_bytes (header ++ payload ++ crc) =
    if negb (bool_decide (magic = config.MAGIC)) then
      Raise (FrameError BadMagic)
    else if negb (Z_of_byte v =? config.VERSION) then
      Raise (FrameError UnsupportedVersion)
    else if negb (Z.of_nat (length payload) =? be_value p) then
      Raise (FrameError LengthMismatch)
    else if negb (Z.land (zlib.crc32 (header ++ payload)) 0xFFFFFFFF
                  =? be_value crc) then
      Raise (FrameError CRCMismatch)
    else
      ft <-! FrameType_of_int (Z_of_byte t);
      Ok {| frame_type := ft; frames.session_id := sid;
            superblock_id := be_value s; block_id := be_value b;
            total_blocks := be_value n; blocks_in_super := be_value k;
            flags := Z_of_byte g; payload := payload |}.
Proof.
  intros Hmagic Hsid Hs Hb Hn Hk Hp Hcrc header.
  assert (length header = 39%nat) as Hlen.
  { unfold header. rewrite !length_app. cbn [length]. lia. }
  assert (length (header ++ payload ++ crc)
          = (39 + length payload + 4)%nat) as Hdata.
  { rewrite !length_app. lia. }
  unfold from_bytes, HEADER_SIZE, CRC_SIZE. cbv zeta.
  rewrite Hdata.
  destruct (Nat.ltb_spec (39 + length payload + 4) (39 + 4)); [lia|].
  rewrite (take_app_length' header) by done.
  assert (slice 0 4 header = magic) as ->.
  { unfold slice, header. rewrite drop_0. by rewrite take_app_length'. }
  assert (forall a c, slice a c header = take (c - a) (drop a header))
    as Hslice by done.
  assert (drop 4 header = [v; t; g] ++ sid ++ s ++ b ++ n ++ k ++ p)
    as Hd4 by (unfold header; by rewrite drop_app_length').
  assert (forall i j, (4 <= i)%nat ->
            slice i j header = take (j - i) (drop (i - 4) (drop 4 header)))
    as Hsl.
  { intros i j Hi. rewrite Hslice, drop_drop. do 2 f_equal. lia. }
  rewrite !Hsl by lia. rewrite Hd4.
  clear Hslice Hsl Hd4 Hdata.
  destruct sid as [|? [|? [|? [|? [|? [|? [|? [|? [|? [|? [|? [|?
    [|? [|? [|? [|? [|]]]]]]]]]]]]]]]]]; try done.
  destruct s as [|? [|? [|? [|? [|]]]]]; try done.
  destruct b as [|? [|? [|? [|? [|]]]]]; try done.
  destruct n as [|? [|? [|? [|? [|]]]]]; try done.
  destruct k as [|? [|? [|]]]; try done.
  destruct p as [|? [|? [|]]]; try done.
  cbn [Nat.sub drop take app].
  change (be_value [v]) with (0 * 256 + Z_of_byte v).
  change (be_value [t]) with (0 * 256 + Z_of_byte t).
  change (be_value [g]) with (0 * 256 + Z_of_byte g).
  rewrite !Z.add_0_l.
  destruct (negb (bool_decide (magic = config.MAGIC))); [done|].
  destruct (negb (Z_of_byte v =? config.VERSION)); [done|].
  match goal with
  | |- context [be_value [?x; ?y]] => set (plen := be_value [x; y])
  end.
  assert (0 <= plen) as Hpl.
  { unfold plen, be_value. cbn [fold_left].
    match goal with
    | |- 0 <= (0 * 256 + Z_of_byte ?x) * 256 + Z_of_byte ?y =>
        pose proof (Z_of_byte_range x); pose proof (Z_of_byte_range y)
    end. lia. }
  destruct (Z.eqb_spec (Z.of_nat (39 + length payload + 4))
              (Z.of_nat 39 + plen + Z.of_nat 4)) as [Heq|Hneq];
    destruct (Z.eqb_spec (Z.of_nat (length payload)) plen) as [Heq'|Hneq'];
    try lia; cbn [negb]; [|done].
  unfold slice.
  replace (39 + Z.to_nat plen - 39)%nat with (length payload) by lia.
  rewrite (drop_app_length' _ (payload ++ crc) 39) by done.
  rewrite take_app_length.
  replace (39 + length payload + 4 - 4)%nat
    with (length (header ++ payload)) by (rewrite length_app; lia).
  rewrite (app_assoc header payload crc), drop_app_length.
  reflexivity.
Qed.

(** Decoding the wire image of a frame gives the frame back, its flags
    reduced to one byte. *)
Lemma from_bytes_wire_frame f :
  wire_ranges f ->
  length (frames.session_id f) = 16%nat ->
  Z.of_nat (length (payload f)) <= 65535 ->
  from_bytes (wire_frame f)
  = Ok {| frame_type := frame_type f;
          frames.session_id := frames.session_id f;
          superblock_id := superblock_id f;
          block_id := block_id f;
          total_blocks := total_blocks f;
          blocks_in_super := blocks_in_super f;
          flags := Z.land (flags f) 0xFF;
          payload := payload f |}.
Proof.
  intros (Hsb & Hb & Ht & Hk) Hs Hp.
  unfold wire_frame, wire_header.
  rewrite (from_bytes_layout config.MAGIC _ _ _ (frames.session_id f)
             (be_bytes 4 _) (be_bytes 4 _) (be_bytes 4 _) (be_bytes 2 _)
             (be_bytes 2 _) (payload f) (be_bytes 4 _))
    by (done || apply length_be_bytes).
  rewrite bool_decide_true by done. cbn [negb].
  rewrite !Z_of_byte_of_Z.
  rewrite (Z.mod_small config.VERSION) by (unfold config.VERSION; lia).
  rewrite Z.eqb_refl. cbn [negb].
  rewrite (be_value_be_bytes_small 2 (Z.of_nat _)) by (simpl Z.of_nat; lia).
  rewrite Z.eqb_refl. cbn [negb].
  rewrite (be_value_be_bytes_small 4 (Z.land _ _))
    by (apply land_32_range).
  rewrite Z.eqb_refl. cbn [negb].
  pose proof (int_of_FrameType_range (frame_type f)).
  rewrite (Z.mod_small (int_of_FrameType _)) by lia.
  rewrite FrameType_of_int_of_FrameType. cbn [bind].
  rewrite !be_value_be_bytes_small by (simpl Z.of_nat; lia).
  rewrite (Z.mod_small (Z.land _ _)) by apply land_255_range.
  reflexivity.
Qed.

Lemma from_bytes_to_bytes f raw :
  valid_frame f -> to_bytes f = Ok raw -> from_bytes raw = Ok f.
Proof.
  intros (Hs & Hp & Hf & Hr) Hraw.
  rewrite to_bytes_ok in Hraw by done. injection Hraw as <-.
  rewrite from_bytes_wire_frame by done.
  change 0xFF with (Z.ones 8). rewrite Z.land_ones, Z.mod_small by lia.
  by destruct f.
Qed.

(** C2.  Every valid frame survives the wrapped codec: [to_b64] returns
    a string, and [from_b64] of that string returns a frame equal to the
    original. *)
Theorem from_b64_to_b64 f :
  valid_frame f ->
  exists s, to_b64 f = Ok s /\ from_b64 s = Ok f.
Proof.
  intros Hv. pose proof Hv as (Hs & Hp & Hf & Hr).
  exists (base64.b64encode (wire_frame f)). unfold to_b64, from_b64.
  rewrite to_bytes_ok by done. split; [done|].
  rewrite b64decode_b64encode.
  apply from_bytes_to_bytes; [done|]. by apply to_bytes_ok.
Qed.

End codec_properties.

(** * Properties of the XOR parity *)

Section fec_properties.
Import fec.

Implicit Types (a b c : byte) (x y z : list byte).

Lemma lxor_byte_range u v :
  0 <= u < 256 -> 0 <= v < 256 -> 0 <= Z.lxor u v < 256.
Proof.
  intros Hu Hv.
  assert (0 <= Z.lxor u v) as Hnn by (apply Z.lxor_nonneg; lia).
  split; [done|].
  destruct (Z.eq_dec (Z.lxor u v) 0) as [->|Hne]; [lia|].
  assert (forall w, 0 <= w < 256 -> Z.log2 w < 8) as Hlog.
  { intros w Hw. destruct (Z.eq_dec w 0) as [->|]; [done|].
    apply Z.log2_lt_pow2; lia. }
  change 256 with (2 ^ 8). apply Z.log2_lt_pow2; [lia|].
  eapply Z.le_lt_trans; [apply Z.log2_lxor; lia|].
  apply Z.max_lub_lt; by apply Hlog.
Qed.

Lemma Z_of_byte_xor a b :
  Z_of_byte (xor_byte a b) = Z.lxor (Z_of_byte a) (Z_of_byte b).
Proof.
  unfold xor_byte. rewrite Z_of_byte_of_Z. apply Z.mod_small.
  apply lxor_byte_range; apply Z_of_byte_range.
Qed.

Lemma xor_byte_comm a b : xor_byte a b = xor_byte b a.
Proof. apply Z_of_byte_inj. by rewrite !Z_of_byte_xor, Z.lxor_comm. Qed.

Lemma xor_byte_assoc a b c :
  xor_byte (xor_byte a b) c = xor_byte a (xor_byte b c).
Proof. apply Z_of_byte_inj. by rewrite !Z_of_byte_xor, Z.lxor_assoc. Qed.

Lemma xor_byte_self a : xor_byte a a = Byte.x00.
Proof. apply Z_of_byte_inj. by rewrite Z_of_byte_xor, Z.lxor_nilpotent. Qed.

Lemma xor_byte_zero_l a : xor_byte Byte.x00 a = a.
Proof.
  apply Z_of_byte_inj. rewrite Z_of_byte_xor.
  change (Z_of_byte Byte.x00) with 0. apply Z.lxor_0_l.
Qed.

(** Buffers under position-wise XOR. *)
Lemma xor_into_comm x y : xor_into x y = xor_into y x.
Proof.
  unfold xor_into. revert y.
  induction x as [|a x IH]; intros [|b y]; [done..|].
  cbn [zip_with]. by rewrite xor_byte_comm, IH.
Qed.

Lemma xor_into_assoc x y z :
  xor_into (xor_into x y) z = xor_into x (xor_into y z).
Proof.
  unfold xor_into. revert y z.
  induction x as [|a x IH]; intros [|b y] [|c z]; [done..|].
  cbn [zip_with]. by rewrite xor_byte_assoc, IH.
Qed.

Lemma xor_into_self x : xor_into x x = replicate (length x) Byte.x00.
Proof.
  unfold xor_into. induction x as [|a x IH]; [done|].
  cbn [zip_with length replicate]. by rewrite xor_byte_self, IH.
Qed.

Lemma xor_into_zeros_l n x :
  (length x <= n)%nat -> xor_into (replicate n Byte.x00) x = x.
Proof.
  unfold xor_into. revert n.
  induction x as [|a x IH]; intros [|n] Hn; [done|done|simpl in Hn; lia|].
  cbn [zip_with replicate]. rewrite xor_byte_zero_l, IH; [done|].
  simpl in Hn. lia.
Qed.

Lemma length_xor_into x y :
  length x = length y -> length (xor_into x y) = length x.
Proof. intros Hxy. unfold xor_into. rewrite length_zip_with. lia. Qed.

Lemma length_ljust n x : (length x <= n)%nat -> length (ljust n x) = n.
Proof.
  intros Hx. unfold ljust. rewrite length_app, length_replicate. lia.
Qed.

Lemma ljust_exact n x : length x = n -> ljust n x = x.
Proof.
  intros <-. unfold ljust. rewrite Nat.sub_diag. apply app_nil_r.
Qed.

Lemma take_ljust n x : take (length x) (ljust n x) = x.
Proof. unfold ljust. apply take_app_length. Qed.

(** The accumulation loop of [xor_parity_block] for a fixed width. *)
Definition xor_fold (width : nat) (blocks : list (list byte))
    (parity : list byte) : list byte :=
  fold_left (fun parity block => xor_into parity (ljust width block))
    blocks parity.

Lemma xor_fold_cons width blk blocks x :
  xor_fold width (blk :: blocks) x
  = xor_fold width blocks (xor_into x (ljust width blk)).
Proof. done. Qed.

Lemma xor_fold_snoc width blocks blk x :
  xor_fold width (blocks ++ [blk]) x
  = xor_into (xor_fold width blocks x) (ljust width blk).
Proof. unfold xor_fold. by rewrite fold_left_app. Qed.

Lemma xor_parity_block_fold blocks :
  blocks <> [] ->
  xor_parity_block blocks
  = xor_fold (max_list (length <$> blocks)) blocks
      (replicate (max_list (length <$> blocks)) Byte.x00).
Proof. by destruct blocks. Qed.

Lemma length_xor_fold width blocks x :
  length x = width ->
  Forall (fun blk => (length blk <= width)%nat) blocks ->
  length (xor_fold width blocks x) = width.
Proof.
  intros Hx Hall. revert x Hx.
  induction Hall as [|b blocks Hb _ IH]; intros x Hx; [done|].
  rewrite xor_fold_cons. apply IH.
  rewrite length_xor_into; [done|]. by rewrite length_ljust.
Qed.

Lemma xor_fold_acc width blocks x :
  length x = width ->
  Forall (fun blk => (length blk <= width)%nat) blocks ->
  xor_fold width blocks x
  = xor_into x (xor_fold width blocks (replicate width Byte.x00)).
Proof.
  intros Hx Hall. revert x Hx.
  induction Hall as [|b blocks Hb _ IH]; intros x Hx.
  - unfold xor_fold. cbn [fold_left].
    rewrite xor_into_comm, xor_into_zeros_l; [done|lia].
  - rewrite !xor_fold_cons.
    rewrite IH, (IH (xor_into (replicate _ _) _)).
    + rewrite xor_into_zeros_l by (rewrite length_ljust; lia).
      apply xor_into_assoc.
    + rewrite length_xor_into; rewrite ?length_replicate, ?length_ljust;
        done.
    + rewrite length_xor_into; rewrite ?length_ljust; done.
Qed.

Lemma xor_fold_perm width blocks blocks' :
  blocks ≡ₚ blocks' ->
  forall x, xor_fold width blocks x = xor_fold width blocks' x.
Proof.
  induction 1 as [|b l l' _ IH|b b' l|l l' l'' _ IH1 _ IH2]; intros x.
  - done.
  - rewrite !xor_fold_cons. apply IH.
  - rewrite !xor_fold_cons. f_equal.
    rewrite !xor_into_assoc. f_equal. apply xor_into_comm.
  - by rewrite IH1.
Qed.

Lemma max_list_unique (ns : list nat) (n : nat) :
  n ∈ ns -> (forall k, k ∈ ns -> (k <= n)%nat) -> max_list ns = n.
Proof.
  intros Hin Hle. apply Nat.le_antisymm.
  - apply Hle, max_list_elem_of. intros ->. by apply elem_of_nil in Hin.
  - by apply max_list_elem_of_le.
Qed.

Lemma Forall_length_le_max (blocks : list (list byte)) :
  Forall (fun blk => (length blk <= max_list (length <$> blocks))%nat) blocks.
Proof.
  apply Forall_forall. intros b Hb.
  apply max_list_elem_of_le, list_elem_of_fmap. by exists b.
Qed.

Lemma length_xor_parity_block blocks :
  length (xor_parity_block blocks) = max_list (length <$> blocks).
Proof.
  destruct blocks as [|b blocks]; [done|].
  rewrite xor_parity_block_fold by done.
  apply length_xor_fold; [apply length_replicate|].
  apply Forall_length_le_max.
Qed.

(** The XOR parity law: the parity of a superblock, XORed with all its
    blocks but one, is the remaining block, zero-padded to the longest
    block of the superblock. *)
Lemma xor_parity_recover (blocks known : list (list byte))
    (lost : list byte) :
  blocks ≡ₚ lost :: known ->
  xor_parity_block (known ++ [xor_parity_block blocks])
  = ljust (max_list (length <$> blocks)) lost.
Proof.
  intros Hperm.
  set (width := max_list (length <$> blocks)).
  pose proof (Forall_length_le_max blocks) as Hall. fold width in Hall.
  assert (Forall (fun blk => (length blk <= width)%nat) (lost :: known)) as Hall'.
  { by rewrite <- Hperm. }
  apply Forall_cons in Hall' as [Hlost Hknown].
  assert (length (xor_parity_block blocks) = width) as Hlen
    by apply length_xor_parity_block.
  assert (max_list (length <$> (known ++ [xor_parity_block blocks]))
          = width) as Hmax.
  { apply max_list_unique.
    - apply list_elem_of_fmap. exists (xor_parity_block blocks).
      split; [done|]. apply elem_of_app. right. apply list_elem_of_here.
    - intros k (b & -> & Hb)%list_elem_of_fmap.
      apply elem_of_app in Hb as [Hb|Hb].
      + by apply (proj1 (Forall_forall _ _) Hknown).
      + apply list_elem_of_singleton in Hb as ->. lia. }
  rewrite xor_parity_block_fold by (by destruct known).
  rewrite Hmax, xor_fold_snoc.
  rewrite (ljust_exact width) by done.
  assert (blocks <> []) as Hne.
  { intros ->. by apply Permutation_nil_cons in Hperm. }
  rewrite (xor_parity_block_fold blocks) by done. fold width.
  rewrite (xor_fold_perm width _ _ Hperm), xor_fold_cons.
  rewrite xor_into_zeros_l by (rewrite length_ljust; lia).
  rewrite (xor_fold_acc width known (ljust width lost))
    by (done || by apply length_ljust).
  set (K := xor_fold width known (replicate width Byte.x00)).
  assert (length K = width) as HK.
  { apply length_xor_fold; [apply length_replicate|done]. }
  rewrite (xor_into_comm (ljust width lost) K), <- xor_into_assoc.
  rewrite xor_into_self, HK.
  apply xor_into_zeros_l. rewrite length_ljust; lia.
Qed.

End fec_properties.

(** * Recovery of a single missing block *)

(** The recovery rule in the words of the specification: the parity XORed
    with every observed block, each right-zero-padded to the parity
    length, then truncated to the expected length of the missing block. *)
Definition spec_recover (parity : list byte) (observed : list (list byte))
    (expected_len : Z) : list byte :=
  slice_to
    (fold_left
       (fun acc block => fec.xor_into acc (ljust (length parity) block))
       observed parity)
    expected_len.

Section recovery_properties.
Context `{Externals}.
Import receiver.

Implicit Types (r : Reassembler) (f : Frame) (m : SessionMetadata).

(** What the code XORs together agrees with the rule of the
    specification as soon as no observed block is longer than the
    parity. *)
Lemma recover_agrees_with_spec (parity : list byte)
    (observed : list (list byte)) :
  Forall (fun blk => (length blk <= length parity)%nat) observed ->
  fec.xor_parity_block (observed ++ [parity])
  = fold_left
      (fun acc block => fec.xor_into acc (ljust (length parity) block))
      observed parity.
Proof.
  intros Hobs.
  assert (max_list (length <$> (observed ++ [parity])) = length parity)
    as Hmax.
  { apply max_list_unique.
    - apply list_elem_of_fmap. exists parity. split; [done|].
      apply elem_of_app. right. apply list_elem_of_here.
    - intros k (blk & -> & Hb)%list_elem_of_fmap.
      apply elem_of_app in Hb as [Hb|Hb].
      + by apply (proj1 (Forall_forall _ _) Hobs).
      + apply list_elem_of_singleton in Hb as ->. lia. }
  rewrite xor_parity_block_fold by (by destruct observed).
  rewrite Hmax, xor_fold_snoc, ljust_exact by done.
  change (fold_left _ observed parity)
    with (xor_fold (length parity) observed parity).
  rewrite (xor_fold_acc _ observed parity) by done.
  apply xor_into_comm.
Qed.

Lemma filter_none (P : Z -> Prop) `{!forall i, Decision (P i)}
    (l : list Z) :
  (forall i, i ∈ l -> ~ P i) -> filter P l = [].
Proof.
  induction l as [|a l IH]; intros Hno; [done|].
  rewrite filter_cons_False by (apply Hno, list_elem_of_here).
  apply IH. intros i Hi. by apply Hno, list_elem_of_further.
Qed.

Lemma filter_unique (P : Z -> Prop) `{!forall i, Decision (P i)}
    (l : list Z) (j : Z) :
  NoDup l -> j ∈ l -> (forall i, i ∈ l -> (P i <-> i = j)) ->
  filter P l = [j].
Proof.
  induction l as [|a l IH]; intros Hnd Hj Hiff.
  - by apply elem_of_nil in Hj.
  - apply NoDup_cons in Hnd as [Ha Hnd].
    destruct (decide (a = j)) as [->|Hne].
    + rewrite filter_cons_True
        by (apply Hiff; [apply list_elem_of_here|done]).
      f_equal. apply filter_none. intros i Hi HP.
      apply Hiff in HP; [|by apply list_elem_of_further].
      by subst.
    + rewrite filter_cons_False.
      * apply IH; [done| |].
        -- apply elem_of_cons in Hj as [->|Hj]; done.
        -- intros i Hi. apply Hiff. by apply list_elem_of_further.
      * intros HP. apply Hiff in HP; [done|apply list_elem_of_here].
Qed.

Lemma missing_single r idx j :
  NoDup idx -> j ∈ idx ->
  (forall i, i ∈ idx -> (data_blocks r !! i = None <-> i = j)) ->
  missing r idx = [j].
Proof. intros. by apply filter_unique. Qed.

Lemma NoDup_indices m s : NoDup (indices m s).
Proof. apply NoDup_seqZ. Qed.

(** A recovery attempt with exactly one missing id and a non-empty
    first parity copy stores the recovered block. *)
Lemma _maybe_recover_single r m s j parity0 rest :
  meta r = Some m ->
  missing r (indices m s) = [j] ->
  parity_blocks r !! s = Some (parity0 :: rest) ->
  parity0 <> [] ->
  _maybe_recover r s
  = set_data_block r j
      (slice_to
         (fec.xor_parity_block (known r (indices m s) ++ [parity0]))
         (_expected_len m j)).
Proof.
  intros Hm Hmiss Hp Hne. unfold _maybe_recover.
  rewrite Hm, Hmiss, Hp. unfold fec.recover_single_missing.
  cbn [length Z.of_nat]. rewrite bool_decide_false by done. done.
Qed.

(** ** Stored blocks are never overwritten *)

Lemma _maybe_recover_preserves r s i (v : list byte) :
  data_blocks r !! i = Some v ->
  data_blocks (_maybe_recover r s) !! i = Some v.
Proof.
  intros Hv.
  destruct (_maybe_recover_cases r s)
    as [->|(m&j&p&rest&_&Hmiss&_&_&->)]; [done|].
  assert (j ∈ missing r (indices m s)) as Hj
    by (rewrite Hmiss; apply list_elem_of_here).
  apply elem_of_missing in Hj as [_ Hj].
  simpl. rewrite lookup_insert_ne; [done|]. congruence.
Qed.

Lemma ingest_preserves r f i (v : list byte) :
  data_blocks r !! i = Some v -> data_blocks (ingest r f) !! i = Some v.
Proof.
  intros Hv. unfold ingest, _handle_header.
  destruct (frame_type f).
  - destruct (decode_metadata (payload f)); [|done].
    by destruct (other_session r f).
  - destruct (other_session r f); [done|].
    destruct (meta r); [|done].
    destruct (data_blocks r !! block_id f) eqn:Hb; [done|].
    apply _maybe_recover_preserves. simpl.
    rewrite lookup_insert_ne; [done|]. congruence.
  - destruct (other_session r f); [done|].
    destruct (meta r); [|done].
    by apply _maybe_recover_preserves.
  - destruct (other_session r f); [done|]. by destruct (meta r).
Qed.

Lemma ingest_all_preserves r fs i (v : list byte) :
  data_blocks r !! i = Some v ->
  data_blocks (ingest_all r fs) !! i = Some v.
Proof.
  revert r. induction fs as [|f fs IH]; intros r Hv; [done|].
  apply IH. by apply ingest_preserves.
Qed.

(** C3.  The session is adopted; of the block ids of superblock [s]
    exactly [j] is not stored; the parity copies already held for [s], if
    any, equal the parity [p], which is not empty and at least as long as
    every stored block of [s].  Then ingesting an FEC frame of [s] that
    carries [p] stores block [j], and its bytes are the XOR of the parity
    with the observed blocks, each zero-padded to the parity length,
    truncated to the expected length of [j]; further frames never change
    it. *)
Theorem single_missing_recovered r m sid s j (p : list byte) f fs :
  meta r = Some m ->
  session_id r = Some sid ->
  j ∈ indices m s ->
  (forall i, i ∈ indices m s -> (data_blocks r !! i = None <-> i = j)) ->
  (forall held, parity_blocks r !! s = Some held -> Forall (eq p) held) ->
  p <> [] ->
  Forall (fun blk => (length blk <= length p)%nat)
    (known r (indices m s)) ->
  frame_type f = FEC ->
  frames.session_id f = sid ->
  superblock_id f = s ->
  payload f = p ->
  data_blocks (ingest_all r (f :: fs)) !! j
  = Some (spec_recover p (known r (indices m s)) (_expected_len m j)).
Proof.
  intros Hm Hsid Hj Hmiss Hheld Hp Hlen Ht Hfs Hs Hpay.
  cbn [ingest_all fold_left]. apply ingest_all_preserves.
  unfold ingest. rewrite Ht, other_session_false, Hm by congruence.
  rewrite Hs, Hpay.
  assert (exists rest,
            parity_blocks (append_parity r s p) !! s = Some (p :: rest))
    as [rest Hpar].
  { cbn [append_parity parity_blocks]. rewrite lookup_insert_eq.
    destruct (parity_blocks r !! s) as [[|p' held]|] eqn:Hold;
      cbn [default app]; [by eexists| |by eexists].
    specialize (Hheld _ eq_refl). apply Forall_cons in Hheld as [<- _].
    by eexists. }
  rewrite (_maybe_recover_single _ m s j p rest); try done.
  - cbn [set_data_block data_blocks]. rewrite lookup_insert_eq.
    unfold spec_recover.
    change (known (append_parity r s p)) with (known r).
    by rewrite recover_agrees_with_spec.
  - apply missing_single; [apply NoDup_indices|done..].
Qed.

End recovery_properties.

(** * Properties of the chunker *)

Section chunker_properties.
Import chunker.

Lemma read_positive rest cs :
  0 < cs -> read rest cs = take (Z.to_nat cs) rest.
Proof. intros Hcs. unfold read. destruct (Z.ltb_spec cs 0); [lia|done]. Qed.

(** With enough fuel the read loop stops by itself, and the chunks
    concatenate to what was left to read. *)
Lemma read_loop_concat fuel rest cs :
  0 < cs -> (length rest < fuel)%nat ->
  concat (read_loop fuel rest cs) = rest.
Proof.
  intros Hcs. revert rest.
  induction fuel as [|fuel IH]; intros rest Hfuel; [lia|].
  cbn [read_loop]. rewrite read_positive by done.
  destruct (take (Z.to_nat cs) rest) as [|b chunk] eqn:Hchunk.
  - destruct rest as [|b rest]; [done|].
    destruct (Z.to_nat cs) eqn:Hn; [lia|done].
  - cbn [concat]. rewrite IH.
    + rewrite <- Hchunk, length_take.
      destruct (Nat.min_spec (Z.to_nat cs) (length rest)) as [[? ->]|[? ->]].
      * apply take_drop.
      * by rewrite take_ge, drop_all, app_nil_r by lia.
    + destruct rest; [by rewrite take_nil in Hchunk|].
      rewrite length_drop. cbn [length] in *. lia.
Qed.

Lemma read_loop_lookup fuel rest cs (i : nat) :
  0 < cs -> (length rest < fuel)%nat ->
  read_loop fuel rest cs !! i
  = if decide (i * Z.to_nat cs < length rest)%nat
    then Some (take (Z.to_nat cs) (drop (i * Z.to_nat cs) rest))
    else None.
Proof.
  intros Hcs. revert rest i.
  induction fuel as [|fuel IH]; intros rest i Hfuel; [lia|].
  cbn [read_loop]. rewrite read_positive by done.
  set (n := Z.to_nat cs). assert (0 < n)%nat by lia.
  destruct (take n rest) as [|b chunk] eqn:Hchunk.
  - destruct rest as [|b rest]; [|destruct n; [lia|done]].
    cbn [length]. by rewrite decide_False by lia.
  - assert (rest <> []) as Hrest by (intros ->; by rewrite take_nil in Hchunk).
    assert (0 < length rest)%nat by (destruct rest; [done|simpl; lia]).
    destruct i as [|i].
    + rewrite decide_True by lia.
      by rewrite Nat.mul_0_l, drop_0, Hchunk.
    + match goal with
      | |- (?c :: ?t) !! S i = _ => change ((c :: t) !! S i) with (t !! i)
      end.
      rewrite IH by (rewrite length_drop; cbn [length]; lia).
      fold n. rewrite <- Hchunk, length_take, length_drop, drop_drop.
      destruct (Nat.min_spec n (length rest)) as [[Hlt ->]|[Hge ->]].
      * replace (n + i * n)%nat with (S i * n)%nat by lia.
        destruct (decide (i * n < length rest - n)%nat);
          [rewrite decide_True by lia|rewrite decide_False by lia]; done.
      * rewrite decide_False by lia. rewrite decide_False by nia. done.
Qed.

Lemma iter_chunks_concat file cs :
  0 < cs -> concat (iter_chunks file cs) = file.
Proof. intros Hcs. apply read_loop_concat; [done|lia]. Qed.

Lemma iter_chunks_lookup file cs (i : nat) :
  0 < cs ->
  iter_chunks file cs !! i
  = if decide (i * Z.to_nat cs < length file)%nat
    then Some (take (Z.to_nat cs) (drop (i * Z.to_nat cs) file))
    else None.
Proof. intros Hcs. apply read_loop_lookup; [done|lia]. Qed.

(** [i] is below the estimated chunk count exactly when chunk [i]
    starts before the end of the file. *)
Lemma below_total_chunks size cs i :
  0 < cs -> 0 <= size -> 0 <= i ->
  i < estimate_total_chunks size cs <-> i * cs < size.
Proof.
  intros Hcs Hsize Hi. unfold estimate_total_chunks. split.
  - intros Hlt.
    assert (i + 1 <= (size + cs - 1) / cs) as Hle by lia.
    pose proof (Z.mul_div_le (size + cs - 1) cs Hcs). nia.
  - intros Hlt. apply Z.lt_le_pred. 
    assert (i + 1 <= (size + cs - 1) / cs); [|lia].
    apply Z.div_le_lower_bound; [done|]. nia.
Qed.

Lemma length_iter_chunks file cs :
  0 < cs ->
  Z.of_nat (length (iter_chunks file cs))
  = estimate_total_chunks (Z.of_nat (length file)) cs.
Proof.
  intros Hcs.
  set (chunks := iter_chunks file cs).
  set (tc := estimate_total_chunks (Z.of_nat (length file)) cs).
  assert (forall i : nat, (i < length chunks)%nat <-> Z.of_nat i < tc)
    as Hiff.
  { intros i. rewrite <- lookup_lt_is_Some. unfold chunks, tc.
    rewrite iter_chunks_lookup, below_total_chunks by lia.
    destruct (decide (i * Z.to_nat cs < length file)%nat).
    - split; [intros _; nia|by eexists].
    - split; [by intros [? ?]|nia]. }
  assert (0 <= tc).
  { unfold tc, estimate_total_chunks. apply Z.div_pos; lia. }
  pose proof (Hiff (length chunks)) as H1.
  pose proof (Hiff (Z.to_nat tc)) as H2.
  lia.
Qed.

Lemma iter_chunks_length_chunk file cs (i : nat) (chunk : list byte) :
  0 < cs ->
  iter_chunks file cs !! i = Some chunk ->
  Z.of_nat (length chunk)
  = Z.min cs (Z.of_nat (length file) - Z.of_nat i * cs) /\
  Z.of_nat i * cs < Z.of_nat (length file).
Proof.
  intros Hcs. rewrite iter_chunks_lookup by done.
  destruct (decide _) as [Hlt|]; [|done]. intros [= <-].
  rewrite length_take, length_drop. nia.
Qed.

End chunker_properties.

(** * One session, end to end

    A payload file, the metadata describing it, the frames the sender
    plans for it, and the states the reassembler reaches on them. *)

Section session_properties.
Context `{Externals}.
Import receiver.

Variables (file : list byte) (m : SessionMetadata).

Hypothesis chunk_size_pos : 0 < chunk_size m.
Hypothesis superblock_data_pos : 0 < superblock_data m.
Hypothesis total_size_file : total_size m = Z.of_nat (length file).
Hypothesis total_chunks_est :
  total_chunks m = estimate_total_chunks (total_size m) (chunk_size m).

Implicit Types (r : Reassembler) (f : Frame).

(** The chunks of the file and the data blocks of one superblock. *)
Definition session_chunks : list (list byte) :=
  chunker.iter_chunks file (chunk_size m).

Definition superblock_chunks (s : Z) : list (list byte) :=
  take (Z.to_nat (superblock_data m))
    (drop (Z.to_nat (s * superblock_data m)) session_chunks).

(** A frame of this session as the sender builds it: the header carries
    the metadata, a DATA frame carries the chunk of its block id, an FEC
    frame the parity of its superblock. *)
Definition genuine (f : Frame) : Prop :=
  frames.session_id f = models.session_id m /\
  match frame_type f with
  | SESSION_HEADER => decode_metadata (payload f) = Some m
  | DATA =>
      0 <= block_id f /\
      session_chunks !! Z.to_nat (block_id f) = Some (payload f)
  | FEC =>
      0 <= superblock_id f /\
      superblock_chunks (superblock_id f) <> [] /\
      payload f = fec.xor_parity_block (superblock_chunks (superblock_id f))
  | INDEX => True
  end.

(** A reassembler state that holds only what this session sent. *)
Record consistent (r : Reassembler) : Prop := {
  consistent_meta : meta r = Some m;
  consistent_session : session_id r = Some (models.session_id m);
  consistent_blocks : forall i blk,
    data_blocks r !! i = Some blk ->
    0 <= i /\ session_chunks !! Z.to_nat i = Some blk;
  consistent_parity : forall s held,
    parity_blocks r !! s = Some held ->
    0 <= s /\ superblock_chunks s <> [] /\
    Forall (eq (fec.xor_parity_block (superblock_chunks s))) held
}.

Lemma total_chunks_length :
  total_chunks m = Z.of_nat (length session_chunks).
Proof.
  unfold session_chunks.
  by rewrite length_iter_chunks, total_chunks_est, total_size_file.
Qed.

Lemma session_chunk_below i blk :
  0 <= i -> session_chunks !! Z.to_nat i = Some blk -> i < total_chunks m.
Proof.
  intros Hi Hblk. apply lookup_lt_Some in Hblk.
  rewrite total_chunks_length. lia.
Qed.

(** Every chunk has the length the receiver expects of its block id. *)
Lemma session_chunk_expected_len i blk :
  0 <= i -> session_chunks !! Z.to_nat i = Some blk ->
  _expected_len m i = Z.of_nat (length blk).
Proof.
  intros Hi Hblk.
  pose proof (session_chunk_below i blk Hi Hblk) as Hlt.
  apply iter_chunks_length_chunk in Hblk as [-> Hstart]; [|done].
  rewrite Z2Nat.id in * by done.
  assert (0 <= total_size m) by lia.
  unfold _expected_len.
  destruct (Z.ltb_spec i (total_chunks m - 1)) as [Hin|Hlast].
  - assert (i + 1 < total_chunks m) as Hnext by lia.
    rewrite total_chunks_est in Hnext.
    apply below_total_chunks in Hnext; [|lia..].
    rewrite total_size_file in Hnext. lia.
  - assert (i = total_chunks m - 1) as Hi' by lia.
    assert (~ total_chunks m < total_chunks m) as Hnot by lia.
    rewrite total_chunks_est in Hnot at 2.
    rewrite below_total_chunks in Hnot by lia.
    rewrite total_size_file in *. nia.
Qed.

Lemma session_chunk_nonempty (i : nat) blk :
  session_chunks !! i = Some blk -> blk <> [].
Proof.
  intros Hblk.
  apply iter_chunks_length_chunk in Hblk as [Hlen Hstart]; [|done].
  intros ->. cbn [length] in Hlen. lia.
Qed.

Lemma superblock_chunks_lookup s (k : nat) blk :
  superblock_chunks s !! k = Some blk ->
  session_chunks !! (Z.to_nat (s * superblock_data m) + k)%nat = Some blk.
Proof.
  unfold superblock_chunks. intros [Hk _]%lookup_take_Some.
  by rewrite lookup_drop in Hk.
Qed.

(** The block ids the receiver computes for a superblock are those of
    the blocks the sender put into it. *)
Lemma indices_superblock s :
  0 <= s -> superblock_chunks s <> [] ->
  indices m s
  = seqZ (s * superblock_data m) (Z.of_nat (length (superblock_chunks s))).
Proof.
  intros Hs Hne. unfold indices. f_equal.
  assert (0 < length (superblock_chunks s))%nat as Hlen
    by (destruct (superblock_chunks s); [done|simpl; lia]).
  revert Hlen. unfold superblock_chunks.
  rewrite length_take, length_drop, total_chunks_length. nia.
Qed.

Lemma omap_seqZ_all (blocks : gmap Z (list byte)) (bs : list (list byte))
    (a : Z) :
  (forall (k : nat) blk,
     bs !! k = Some blk -> blocks !! (a + Z.of_nat k) = Some blk) ->
  omap (fun i => blocks !! i) (seqZ a (Z.of_nat (length bs))) = bs.
Proof.
  revert a. induction bs as [|b bs IH]; intros a Hall; [done|].
  rewrite seqZ_cons by (cbn [length]; lia). cbn [omap list_omap].
  pose proof (Hall 0%nat b eq_refl) as Hhd.
  change (Z.of_nat 0) with 0 in Hhd. rewrite Z.add_0_r in Hhd.
  rewrite Hhd. f_equal.
  replace (Z.pred (Z.of_nat (length (b :: bs))))
    with (Z.of_nat (length bs)) by (cbn [length]; lia).
  apply IH. intros k blk Hk.
  replace (Z.succ a + Z.of_nat k) with (a + Z.of_nat (S k)) by lia.
  by apply Hall.
Qed.

Lemma omap_seqZ_delete (blocks : gmap Z (list byte))
    (bs : list (list byte)) (a : Z) (lost : nat) :
  (lost < length bs)%nat ->
  blocks !! (a + Z.of_nat lost) = None ->
  (forall (k : nat) blk,
     bs !! k = Some blk -> k <> lost ->
     blocks !! (a + Z.of_nat k) = Some blk) ->
  omap (fun i => blocks !! i) (seqZ a (Z.of_nat (length bs)))
  = delete lost bs.
Proof.
  revert a lost. induction bs as [|b bs IH]; intros a lost Hlt Hnone Hall.
  - cbn [length] in Hlt. lia.
  - rewrite seqZ_cons by (cbn [length]; lia). cbn [omap list_omap].
    replace (Z.pred (Z.of_nat (length (b :: bs))))
      with (Z.of_nat (length bs)) by (cbn [length]; lia).
    destruct lost as [|lost].
    + change (Z.of_nat 0) with 0 in Hnone.
      rewrite Z.add_0_r in Hnone. rewrite Hnone. cbn [delete list_delete].
      apply omap_seqZ_all. intros k blk Hk.
      replace (Z.succ a + Z.of_nat k) with (a + Z.of_nat (S k)) by lia.
      by apply Hall.
    + pose proof (Hall 0%nat b eq_refl ltac:(done)) as Hhd.
      change (Z.of_nat 0) with 0 in Hhd. rewrite Z.add_0_r in Hhd.
      rewrite Hhd.
      cbn [delete list_delete]. f_equal. apply IH.
      * cbn [length] in Hlt. lia.
      * by replace (Z.succ a + Z.of_nat lost)
          with (a + Z.of_nat (S lost)) by lia.
      * intros k blk Hk Hne.
        replace (Z.succ a + Z.of_nat k) with (a + Z.of_nat (S k)) by lia.
        apply Hall; [done|lia].
Qed.

(** ** Recovery is byte-exact on what the session sent *)

Lemma slice_to_ljust width (blk : list byte) :
  slice_to (ljust width blk) (Z.of_nat (length blk)) = blk.
Proof.
  unfold slice_to. destruct (Z.leb_spec 0 (Z.of_nat (length blk))); [|lia].
  rewrite Nat2Z.id. apply take_ljust.
Qed.

Lemma _maybe_recover_consistent r s :
  consistent r -> consistent (_maybe_recover r s).
Proof.
  intros Hr.
  destruct (_maybe_recover_cases r s)
    as [->|(m'&j&p0&rest&Hm&Hmiss&Hpar&Hp0&->)]; [done|].
  assert (m' = m) as -> by (destruct Hr; congruence).
  destruct (consistent_parity r Hr s _ Hpar) as (Hs & Hne & Hheld).
  apply Forall_cons in Hheld as [<- _].
  set (a := s * superblock_data m) in *.
  set (bs := superblock_chunks s) in *.
  pose proof (indices_superblock s Hs Hne) as Hidx. fold a bs in Hidx.
  assert (forall i, i ∈ indices m s -> i <> j ->
                    is_Some (data_blocks r !! i)) as Hpresent.
  { intros i Hi Hij.
    destruct (data_blocks r !! i) eqn:Hi'; [by eexists|].
    assert (i ∈ missing r (indices m s)) as Hin
      by (by apply elem_of_missing).
    rewrite Hmiss in Hin. by apply list_elem_of_singleton in Hin. }
  assert (j ∈ missing r (indices m s)) as Hj
    by (rewrite Hmiss; apply list_elem_of_here).
  apply elem_of_missing in Hj as [Hjin Hjnone].
  rewrite Hidx in Hjin. apply elem_of_seqZ in Hjin.
  set (lost := Z.to_nat (j - a)).
  assert (j = a + Z.of_nat lost) as Hjl by lia.
  assert (lost < length bs)%nat as Hlost by lia.
  destruct (lookup_lt_is_Some_2 bs lost Hlost) as [blk Hblk].
  assert (0 <= a) by (unfold a; lia).
  assert (session_chunks !! Z.to_nat j = Some blk) as Hchunk.
  { apply superblock_chunks_lookup in Hblk. fold a in Hblk.
    by replace (Z.to_nat j) with (Z.to_nat a + lost)%nat by lia. }
  assert (known r (indices m s) = delete lost bs) as Hknown.
  { unfold known. rewrite Hidx. apply omap_seqZ_delete; [done|by rewrite <- Hjl|].
    intros k blk' Hk Hne'.
    assert (k < length bs)%nat by (by apply lookup_lt_Some in Hk).
    destruct (Hpresent (a + Z.of_nat k)) as [blk'' Hblk''].
    { rewrite Hidx. apply elem_of_seqZ. lia. }
    { lia. }
    rewrite Hblk''. f_equal.
    apply (consistent_blocks r Hr) in Hblk'' as [_ Hblk''].
    apply superblock_chunks_lookup in Hk. fold a in Hk.
    replace (Z.to_nat (a + Z.of_nat k)) with (Z.to_nat a + k)%nat
      in Hblk'' by lia.
    congruence. }
  rewrite Hknown.
  rewrite (xor_parity_recover bs (delete lost bs) blk)
    by (by apply delete_Permutation).
  rewrite (session_chunk_expected_len j blk) by (done || lia).
  rewrite slice_to_ljust.
  destruct Hr as [Hmeta Hsess Hblocks Hparity].
  split; cbn [set_data_block meta session_id data_blocks parity_blocks];
    try done.
  intros i blk' Hi.
  destruct (decide (i = j)) as [->|Hij].
  - rewrite lookup_insert_eq in Hi. injection Hi as <-. split; [lia|done].
  - rewrite lookup_insert_ne in Hi by done. by apply Hblocks.
Qed.

(** ** The reassembler on frames of the session *)

Lemma genuine_same_session r f :
  consistent r -> genuine f -> other_session r f = false.
Proof.
  intros Hr [Hf _]. apply other_session_false.
  by rewrite (consistent_session r Hr), Hf.
Qed.

Lemma ingest_consistent r f :
  consistent r -> genuine f -> consistent (ingest r f).
Proof.
  intros Hr Hf. pose proof (genuine_same_session r f Hr Hf) as Hsame.
  pose proof Hr as [Hmeta Hsess Hblocks Hparity].
  destruct Hf as [Hsid Hf]. unfold ingest, _handle_header.
  destruct (frame_type f); rewrite ?Hsame, ?Hmeta.
  - rewrite Hf. split; cbn; by rewrite ?Hsid.
  - destruct (data_blocks r !! block_id f) eqn:Hb; [done|].
    apply _maybe_recover_consistent.
    split; cbn [set_data_block meta session_id data_blocks parity_blocks];
      try done.
    intros i blk Hi. destruct (decide (i = block_id f)) as [->|Hne].
    + rewrite lookup_insert_eq in Hi. injection Hi as <-. done.
    + rewrite lookup_insert_ne in Hi by done. by apply Hblocks.
  - apply _maybe_recover_consistent.
    destruct Hf as (Hs & Hne & Hpay).
    split; cbn [append_parity meta session_id data_blocks parity_blocks];
      try done.
    intros s held Hheld.
    destruct (decide (s = superblock_id f)) as [->|Hs'].
    + rewrite lookup_insert_eq in Hheld. injection Hheld as <-.
      split; [done|]. split; [done|].
      apply Forall_app. split; [|by apply Forall_singleton].
      destruct (parity_blocks r !! superblock_id f) as [old|] eqn:Hold;
        [|done].
      by apply Hparity in Hold as (_ & _ & ?).
    + rewrite lookup_insert_ne in Hheld by done. by apply Hparity.
  - done.
Qed.

Lemma ingest_data_present r f :
  consistent r -> genuine f -> frame_type f = DATA ->
  is_Some (data_blocks (ingest r f) !! block_id f).
Proof.
  intros Hr Hf Ht. pose proof (genuine_same_session r f Hr Hf) as Hsame.
  unfold ingest. rewrite Ht, Hsame, (consistent_meta r Hr).
  destruct (data_blocks r !! block_id f) as [blk|] eqn:Hb;
    [by rewrite Hb|].
  exists (payload f). apply _maybe_recover_preserves.
  cbn [set_data_block data_blocks]. apply lookup_insert_eq.
Qed.

Lemma ingest_all_consistent r fs :
  consistent r -> Forall genuine fs ->
  consistent (ingest_all r fs) /\
  forall f, f ∈ fs -> frame_type f = DATA ->
            is_Some (data_blocks (ingest_all r fs) !! block_id f).
Proof.
  intros Hr Hfs. revert r Hr.
  induction Hfs as [|f fs Hf _ IH]; intros r Hr.
  - split; [done|]. intros f Hf. by apply elem_of_nil in Hf.
  - cbn [ingest_all fold_left].
    destruct (IH (ingest r f)) as [Hc Hd]; [by apply ingest_consistent|].
    split; [done|]. intros f' Hf' Ht.
    apply elem_of_cons in Hf' as [->|Hf']; [|by apply Hd].
    destruct (ingest_data_present r f Hr Hf Ht) as [blk Hblk].
    exists blk. by apply ingest_all_preserves.
Qed.

Lemma adopt_consistent f :
  genuine f -> frame_type f = SESSION_HEADER -> consistent (ingest init f).
Proof.
  intros [Hsid Hf] Ht. rewrite Ht in Hf.
  unfold ingest, _handle_header. rewrite Ht, Hf.
  cbn [other_session init session_id].
  split; cbn; [done|by rewrite Hsid|..].
  - intros i blk Hi. by rewrite lookup_empty in Hi.
  - intros s held Hs. by rewrite lookup_empty in Hs.
Qed.

(** ** Completion on the session's blocks *)

Lemma write_blocks_chunks (blocks : gmap Z (list byte))
    (bs : list (list byte)) (a : Z) :
  (forall (k : nat) blk,
     bs !! k = Some blk -> blocks !! (a + Z.of_nat k) = Some blk) ->
  write_blocks blocks (seqZ a (Z.of_nat (length bs))) = Ok (concat bs).
Proof.
  revert a. induction bs as [|b bs IH]; intros a Hall; [done|].
  rewrite seqZ_cons by (cbn [length]; lia). cbn [write_blocks].
  pose proof (Hall 0%nat b eq_refl) as Hhd.
  change (Z.of_nat 0) with 0 in Hhd. rewrite Z.add_0_r in Hhd.
  rewrite Hhd.
  replace (Z.pred (Z.of_nat (length (b :: bs))))
    with (Z.of_nat (length bs)) by (cbn [length]; lia).
  rewrite IH; [done|]. intros k blk Hk.
  replace (Z.succ a + Z.of_nat k) with (a + Z.of_nat (S k)) by lia.
  by apply Hall.
Qed.

(** A consistent state that holds every block id below [total_chunks]
    is complete and writes the file. *)
Lemma consistent_all_present_writes r :
  consistent r ->
  (forall i, 0 <= i < total_chunks m -> is_Some (data_blocks r !! i)) ->
  is_complete r = true /\ write_payload r = Ok file.
Proof.
  intros Hr Hall. pose proof Hr as [Hmeta Hsess Hblocks Hparity].
  split.
  - unfold is_complete. rewrite Hmeta.
    assert (dom (data_blocks r)
            = (list_to_set (seqZ 0 (total_chunks m)) : gset Z)) as Hdom.
    { apply set_eq. intros i.
      rewrite elem_of_dom, elem_of_list_to_set, elem_of_seqZ. split.
      - intros [blk Hblk]. destruct (Hblocks i blk Hblk) as [Hi Hc].
        pose proof (session_chunk_below i blk Hi Hc). lia.
      - intros Hi. apply Hall. lia. }
    rewrite <- size_dom, Hdom.
    rewrite size_list_to_set by apply NoDup_seqZ.
    rewrite length_seqZ. apply Z.geb_le. lia.
  - unfold write_payload. rewrite Hmeta, total_chunks_length.
    rewrite (write_blocks_chunks _ session_chunks).
    + unfold session_chunks. by rewrite iter_chunks_concat.
    + intros k blk Hk. rewrite Z.add_0_l.
      destruct (Hall (Z.of_nat k)) as [blk' Hblk'].
      { apply lookup_lt_Some in Hk. rewrite total_chunks_length. lia. }
      rewrite Hblk'. apply Hblocks in Hblk' as [_ Hblk'].
      rewrite Nat2Z.id in Hblk'. congruence.
Qed.

(** ** The frames the sender plans *)

Hypothesis header_decodes : decode_metadata (encode_metadata m) = Some m.

Lemma header_frame_genuine flags : genuine (sender._header_frame m flags).
Proof. by split. Qed.

Lemma superblock_loop_nil fuel hdr hi b s :
  sender.superblock_loop fuel m hdr hi [] b s = [].
Proof. destruct fuel; [done|]. cbn. by rewrite take_nil. Qed.

Lemma elem_of_generate_parity_blocks blocks count (parity : list byte) :
  parity ∈ fec.generate_parity_blocks blocks count ->
  parity = fec.xor_parity_block blocks.
Proof.
  unfold fec.generate_parity_blocks.
  destruct (count <=? 0); [by intros ?%elem_of_nil|].
  apply elem_of_replicate_inv.
Qed.

(** One run of the superblock loop from block id [b] = [s] full
    superblocks: with enough fuel it yields only frames of the session,
    among them a DATA frame for every block id from [b] on. *)
Lemma superblock_loop_spec fuel hdr hi b s :
  genuine hdr -> 0 <= s -> b = s * superblock_data m ->
  (length (drop (Z.to_nat b) session_chunks) < fuel)%nat ->
  Forall genuine
    (sender.superblock_loop fuel m hdr hi
       (drop (Z.to_nat b) session_chunks) b s) /\
  forall i, b <= i < total_chunks m ->
    exists f,
      f ∈ sender.superblock_loop fuel m hdr hi
            (drop (Z.to_nat b) session_chunks) b s /\
      frame_type f = DATA /\ block_id f = i.
Proof.
  intros Hhdr. revert b s.
  induction fuel as [|fuel IH]; intros b s Hs Hb Hfuel; [lia|].
  assert (0 <= b) as Hb0 by nia.
  cbn [sender.superblock_loop].
  set (n := Z.to_nat (superblock_data m)).
  set (rest := drop (Z.to_nat b) session_chunks) in *.
  assert (0 < n)%nat as Hn by lia.
  assert (take n rest = superblock_chunks s) as Hsuper.
  { unfold superblock_chunks, rest, n. by rewrite Hb. }
  assert (forall (k : nat) blk,
            take n rest !! k = Some blk ->
            session_chunks !! Z.to_nat (b + Z.of_nat k) = Some blk)
    as Hlookup.
  { intros k blk [Hk _]%lookup_take_Some. unfold rest in Hk.
    rewrite lookup_drop in Hk.
    by replace (Z.to_nat (b + Z.of_nat k)) with (Z.to_nat b + k)%nat
      by lia. }
  assert (Z.of_nat (length rest) = total_chunks m - b \/
          (length rest = 0%nat /\ total_chunks m <= b)) as Hrest.
  { unfold rest. rewrite length_drop, total_chunks_length. lia. }
  destruct (take n rest) as [|c cs] eqn:Htake.
  { split; [constructor|]. intros i Hi. exfalso.
    apply (f_equal length) in Htake.
    rewrite length_take in Htake. cbn [length] in Htake. lia. }
  rewrite <- Htake in *.
  set (blocks := take n rest) in *.
  assert (blocks <> []) as Hne by (by rewrite Htake).
  set (tail := sender.superblock_loop fuel m hdr hi (drop n rest)
                 (b + Z.of_nat (length blocks)) (s + 1)).
  assert (Forall genuine tail /\
          forall i, b + Z.of_nat (length blocks) <= i < total_chunks m ->
            exists f, f ∈ tail /\ frame_type f = DATA /\ block_id f = i)
    as [Htail Htail_data].
  { destruct (decide (n <= length rest)%nat) as [Hfull|Hpart].
    - assert (length blocks = n) as Hlen
        by (unfold blocks; rewrite length_take; lia).
      unfold tail. rewrite Hlen. unfold rest. rewrite drop_drop.
      replace (Z.to_nat b + n)%nat with (Z.to_nat (b + Z.of_nat n)) by lia.
      apply IH; [lia|unfold n; nia|].
      assert (length rest = (length session_chunks - Z.to_nat b)%nat)
        as Hlr by (unfold rest; apply length_drop).
      rewrite length_drop. fold rest in Hfuel. lia.
    - assert (length blocks = length rest) as Hlen
        by (unfold blocks; rewrite length_take; lia).
      unfold tail. rewrite drop_ge, superblock_loop_nil by lia.
      split; [constructor|]. intros i Hi. lia. }
  split.
  - repeat apply Forall_app_2; [| |by destruct (_ && _); auto|done].
    + apply Forall_forall. intros f (k & blk & -> & Hk)%elem_of_lookup_imap.
      split; [done|]. cbn. split; [lia|]. by apply Hlookup.
    + apply Forall_forall. intros f (k & blk & -> & Hk)%elem_of_lookup_imap.
      apply list_elem_of_lookup_2, elem_of_generate_parity_blocks in Hk.
      split; [done|]. cbn. rewrite <- Hsuper. by fold blocks.
  - intros i Hi.
    destruct (decide (i < b + Z.of_nat (length blocks))) as [Hin|Hout].
    + destruct (lookup_lt_is_Some_2 blocks (Z.to_nat (i - b)))
        as [blk Hblk]; [lia|].
      eexists. split; [|split];
        [apply elem_of_app; left;
         apply (elem_of_lookup_imap_2 _ _ _ _ Hblk)|done|cbn; lia].
    + destruct (Htail_data i) as (f & Hf & Hdata); [lia|].
      exists f. split; [|done].
      do 3 (apply elem_of_app; right). done.
Qed.

Lemma generate_frames_genuine header_repeat header_interval :
  Forall genuine
    (sender.generate_frames file m header_repeat header_interval).
Proof.
  unfold sender.generate_frames. apply Forall_app_2.
  - apply Forall_forall. intros f ->%elem_of_replicate_inv.
    apply header_frame_genuine.
  - fold session_chunks.
    rewrite <- (drop_0 session_chunks) at 2.
    apply (superblock_loop_spec _ _ _ 0 0);
      [apply header_frame_genuine|lia|lia|].
    rewrite drop_0. lia.
Qed.

Lemma generate_frames_data header_repeat header_interval i :
  0 <= i < total_chunks m ->
  exists f,
    f ∈ sender.generate_frames file m header_repeat header_interval /\
    frame_type f = DATA /\ block_id f = i.
Proof.
  intros Hi. unfold sender.generate_frames. fold session_chunks.
  destruct (superblock_loop_spec (S (length session_chunks))
              (sender._header_frame m 0) header_interval 0 0)
    as [_ Hdata]; [apply header_frame_genuine|lia|lia|rewrite drop_0; lia|].
  destruct (Hdata i Hi) as (f & Hf & Ht). rewrite drop_0 in Hf.
  exists f. split; [|done]. apply elem_of_app. by right.
Qed.

Lemma generate_frames_head header_repeat header_interval :
  exists tl,
    sender.generate_frames file m header_repeat header_interval
    = sender._header_frame m 0 :: tl.
Proof.
  unfold sender.generate_frames.
  destruct (Z.to_nat (Z.max 1 header_repeat)) as [|k] eqn:Hk; [lia|].
  cbn [replicate app]. by eexists.
Qed.

(** ** Reassembly of the session *)

(** A header of the session first, then frames of the session in any
    order, among them a DATA frame for every block: the reassembler is
    complete and writes the file. *)
Lemma reassembly_complete hdr fs :
  genuine hdr -> frame_type hdr = SESSION_HEADER ->
  Forall genuine fs ->
  (forall i, 0 <= i < total_chunks m ->
     exists f, f ∈ fs /\ frame_type f = DATA /\ block_id f = i) ->
  is_complete (ingest_all init (hdr :: fs)) = true /\
  write_payload (ingest_all init (hdr :: fs)) = Ok file.
Proof.
  intros Hhdr Ht Hfs Hdata. cbn [ingest_all fold_left].
  destruct (ingest_all_consistent (ingest init hdr) fs) as [Hc Hpresent];
    [by apply adopt_consistent|done|].
  apply consistent_all_present_writes; [done|].
  intros i Hi. destruct (Hdata i Hi) as (f & Hf & Hft & <-).
  by apply Hpresent.
Qed.

End session_properties.

(** * Reassembly of what the sender emits *)

Section end_to_end.
Context `{Externals}.
Import receiver.

(** Any order of the emitted frames that starts with a header
    reassembles the file. *)
Lemma reassembly_of_permutation (file : list byte) (m : SessionMetadata)
    (header_repeat header_interval : Z) (fs : list Frame) :
  0 < chunk_size m -> 0 < superblock_data m ->
  total_size m = Z.of_nat (length file) ->
  total_chunks m = estimate_total_chunks (total_size m) (chunk_size m) ->
  decode_metadata (encode_metadata m) = Some m ->
  fs ≡ₚ sender.generate_frames file m header_repeat header_interval ->
  (exists h tl, fs = h :: tl /\ frame_type h = SESSION_HEADER) ->
  is_complete (ingest_all init fs) = true /\
  write_payload (ingest_all init fs) = Ok file.
Proof.
  intros Hcs Hsd Hsize Htc Hdec Hperm (h & tl & -> & Hh).
  pose proof (generate_frames_genuine file m Hcs Hsd Hsize Htc Hdec
                header_repeat header_interval) as Hgen.
  rewrite <- Hperm in Hgen. apply Forall_cons in Hgen as [Hgh Hgtl].
  apply (reassembly_complete file m); try done.
  intros i Hi.
  destruct (generate_frames_data file m Hcs Hsd Hsize Htc Hdec
              header_repeat header_interval i Hi) as (f & Hf & Ht & Hid).
  exists f. split; [|done].
  rewrite <- Hperm in Hf. apply elem_of_cons in Hf as [->|Hf]; [|done].
  congruence.
Qed.

(** C1.  The metadata is built from the size and SHA-256 digest of the
    file with a positive chunk size and superblock size, and its header
    payload decodes to it.  A fresh
    reassembler that ingests the SESSION_HEADER frame and then every DATA
    frame of [generate_frames] exactly once, in any order, and no FEC
    frame, is complete, and [write_payload] writes exactly the bytes of
    the file, whose SHA-256 is the one in the metadata. *)
Theorem reassembly_completeness (file : list byte) (cs sd red : Z)
    (sha pk cp rn : string) (fc : Z) (session : list byte)
    (header_repeat header_interval : Z) (ds : list Frame) :
  let m := sender.build_metadata (Z.of_nat (length file)) cs sd red
             sha pk cp rn fc session in
  sha256_hexdigest file = sha ->
  0 < cs -> 0 < sd ->
  decode_metadata (encode_metadata m) = Some m ->
  ds ≡ₚ filter (fun f => frame_type f = DATA)
          (sender.generate_frames file m header_repeat header_interval) ->
  is_complete (ingest_all init (sender._header_frame m 0 :: ds)) = true /\
  exists out,
    write_payload (ingest_all init (sender._header_frame m 0 :: ds)) = Ok out
    /\ out = file /\ sha256_hexdigest out = sha256 m.
Proof.
  intros m Hsha Hcs Hsd Hdec Hperm.
  pose proof (generate_frames_genuine file m Hcs Hsd eq_refl eq_refl Hdec
                header_repeat header_interval) as Hgen.
  destruct (reassembly_complete file m Hcs Hsd eq_refl eq_refl
              (sender._header_frame m 0) ds) as [Hc Hw].
  - by apply header_frame_genuine.
  - done.
  - apply Forall_forall. intros f Hf. rewrite Hperm in Hf.
    apply list_elem_of_filter in Hf as [_ Hf].
    by apply (proj1 (Forall_forall _ _) Hgen).
  - intros i Hi.
    destruct (generate_frames_data file m Hcs Hsd eq_refl eq_refl Hdec
                header_repeat header_interval i Hi) as (f & Hf & Ht & Hid).
    exists f. split; [|done]. rewrite Hperm.
    by apply list_elem_of_filter.
  - split; [done|]. by exists file.
Qed.

(** C4, as the code has it.  For every permutation of the emitted frame
    sequence that begins with a SESSION_HEADER frame, the output of
    [write_payload] is the same as for the emitted order: the bytes of
    the file.  (Frames that arrive before the first header are ignored
    by design.) *)
Theorem order_independence_after_header (file : list byte) (cs sd red : Z)
    (sha pk cp rn : string) (fc : Z) (session : list byte)
    (header_repeat header_interval : Z) (fs : list Frame) :
  let m := sender.build_metadata (Z.of_nat (length file)) cs sd red
             sha pk cp rn fc session in
  let emitted :=
    sender.generate_frames file m header_repeat header_interval in
  0 < cs -> 0 < sd ->
  decode_metadata (encode_metadata m) = Some m ->
  fs ≡ₚ emitted ->
  (exists h tl, fs = h :: tl /\ frame_type h = SESSION_HEADER) ->
  write_payload (ingest_all init fs)
  = write_payload (ingest_all init emitted) /\
  write_payload (ingest_all init fs) = Ok file.
Proof.
  intros m emitted Hcs Hsd Hdec Hperm Hhead.
  destruct (reassembly_of_permutation file m header_repeat header_interval
              fs Hcs Hsd eq_refl eq_refl Hdec Hperm Hhead) as [_ Hfs].
  destruct (reassembly_of_permutation file m header_repeat header_interval
              emitted Hcs Hsd eq_refl eq_refl Hdec) as [_ Hem]; [done| |].
  - destruct (generate_frames_head file m header_repeat header_interval)
      as [tl Htl].
    exists (sender._header_frame m 0), tl. by split.
  - by rewrite Hfs, Hem.
Qed.

End end_to_end.

(** * The properties on the concrete session *)

Section concrete.
Import receiver example.

Ltac conjuncts := repeat match goal with |- _ /\ _ => split end.

Example frames_emitted :
  frames = replicate 10 header ++ [data0; data1; parity0].
Proof. vm_compute. reflexivity. Qed.

Example header_decodes :
  decode_metadata (encode_metadata meta) = Some meta /\
  decode_metadata (encode_metadata meta') = Some meta'.
Proof. vm_compute. split; reflexivity. Qed.

(** C7, failing input.  The text is strict base64 of a buffer of header
    plus CRC size with magic "QRCM", version 1, a declared payload
    length of 0 that matches the buffer, and a matching CRC-32; its type
    byte is 4.  [from_b64] raises [ValueError], which is neither a
    [FrameError] nor a returned frame. *)
Theorem from_b64_unknown_frame_type :
  base64.b64decode unknown_type_b64 = Some unknown_type_raw /\
  length unknown_type_raw = (HEADER_SIZE + CRC_SIZE)%nat /\
  slice 0 4 unknown_type_raw = config.MAGIC /\
  be_value (slice 4 5 unknown_type_raw) = config.VERSION /\
  be_value (slice 5 6 unknown_type_raw) = 4 /\
  be_value (slice 37 39 unknown_type_raw) = 0 /\
  Z.land (zlib.crc32 (take HEADER_SIZE unknown_type_raw)) 0xFFFFFFFF
  = be_value (drop HEADER_SIZE unknown_type_raw) /\
  from_b64 unknown_type_b64 = Raise ValueError.
Proof. vm_compute. conjuncts; reflexivity. Qed.

(** C4, counterexample.  The emitted sequence with its ten headers moved
    behind the DATA and FEC frames is a permutation of it; the emitted
    order reassembles the file, the permuted order stores nothing and
    [write_payload] fails on block 0. *)
Lemma order_independence_counterexample :
  drop 10 frames ++ take 10 frames ≡ₚ frames /\
  write_payload (ingest_all init frames) = Ok file /\
  write_payload (ingest_all init (drop 10 frames ++ take 10 frames))
  = Raise (RuntimeError (MissingBlock 0)) /\
  write_payload (ingest_all init (drop 10 frames ++ take 10 frames))
  <> write_payload (ingest_all init frames).
Proof.
  split; [|split; [|split]].
  - rewrite Permutation_app_comm. by rewrite take_drop.
  - vm_compute. reflexivity.
  - vm_compute. reflexivity.
  - vm_compute. discriminate.
Qed.

(** C5, counterexample.  After the header and two valid DATA frames
    whose block ids are 5 and 7, two blocks are recorded for a session of
    two chunks: [is_complete()] holds, block 0 is not stored, and
    [write_payload] fails. *)
Lemma completion_counterexample :
  valid_frame header /\ valid_frame (stray 5) /\ valid_frame (stray 7) /\
  is_complete (ingest_all init [header; stray 5; stray 7]) = true /\
  data_blocks (ingest_all init [header; stray 5; stray 7]) !! 0 = None /\
  write_payload (ingest_all init [header; stray 5; stray 7])
  = Raise (RuntimeError (MissingBlock 0)).
Proof.
  assert (forall f, bool_decide (length (frames.session_id f) = 16%nat)
                    && (Z.of_nat (length (payload f)) <=? 65535)
                    && (0 <=? flags f) && (flags f <=? 255)
                    && (0 <=? superblock_id f) && (superblock_id f <? 2 ^ 32)
                    && (0 <=? block_id f) && (block_id f <? 2 ^ 32)
                    && (0 <=? total_blocks f) && (total_blocks f <? 2 ^ 32)
                    && (0 <=? blocks_in_super f)
                    && (blocks_in_super f <? 2 ^ 16) = true ->
                    valid_frame f) as Hvalid.
  { intros f Hf. repeat (apply andb_prop in Hf as [Hf ?]).
    apply bool_decide_eq_true_1 in Hf.
    unfold valid_frame, wire_ranges. lia. }
  conjuncts; try (apply Hvalid; vm_compute; reflexivity);
    vm_compute; reflexivity.
Qed.

(** C6, counterexample.  After adopting the session from [header], a
    further header with the same session id whose payload decodes to
    other metadata replaces the stored metadata. *)
Lemma header_idempotence_counterexample :
  session_id (ingest init header) = Some session /\
  receiver.meta (ingest init header) = Some example.meta /\
  frame_type header' = SESSION_HEADER /\
  frames.session_id header' = session /\
  decode_metadata (payload header') = Some meta' /\
  receiver.meta (ingest (ingest init header) header') = Some meta' /\
  receiver.meta (ingest (ingest init header) header') <> receiver.meta (ingest init header).
Proof.
  conjuncts; try (vm_compute; reflexivity).
  vm_compute. discriminate.
Qed.

(** ** The theorems at the concrete session *)

Lemma valid_example_frame (f : Frame) :
  bool_decide (length (frames.session_id f) = 16%nat)
  && (Z.of_nat (length (payload f)) <=? 65535)
  && (0 <=? flags f) && (flags f <=? 255)
  && (0 <=? superblock_id f) && (superblock_id f <? 2 ^ 32)
  && (0 <=? block_id f) && (block_id f <? 2 ^ 32)
  && (0 <=? total_blocks f) && (total_blocks f <? 2 ^ 32)
  && (0 <=? blocks_in_super f) && (blocks_in_super f <? 2 ^ 16) = true ->
  valid_frame f.
Proof.
  intros Hf. repeat (apply andb_prop in Hf as [Hf ?]).
  apply bool_decide_eq_true_1 in Hf.
  unfold valid_frame, wire_ranges. lia.
Defined.

Lemma from_b64_to_b64_witness :
  valid_frame data1 /\
  exists s, to_b64 data1 = Ok s /\ from_b64 s = Ok data1.
Proof.
  assert (valid_frame data1) as Hv
    by (apply valid_example_frame; vm_compute; reflexivity).
  split; [exact Hv|]. exact (from_b64_to_b64 data1 Hv).
Defined.

Lemma to_bytes_FrameError_iff_witness :
  wire_ranges parity0 /\
  ((exists why, to_bytes parity0 = Raise (FrameError why)) <->
   (length (frames.session_id parity0) <> 16%nat \/
    65535 < Z.of_nat (length (payload parity0)))) /\
  (~ (length (frames.session_id parity0) <> 16%nat \/
      65535 < Z.of_nat (length (payload parity0))) ->
   to_bytes parity0 = Ok (wire_frame parity0)).
Proof.
  assert (wire_ranges parity0) as Hr
    by (unfold wire_ranges; conjuncts; vm_compute;
        (reflexivity || discriminate)).
  split; [exact Hr|]. exact (to_bytes_FrameError_iff parity0 Hr).
Defined.

Lemma ingest_other_session_unchanged_witness :
  session_id (ingest init header) = Some session /\
  session <> [] /\
  frames.session_id foreign <> session /\
  ingest (ingest init header) foreign = ingest init header.
Proof.
  assert (session_id (ingest init header) = Some session) as H1
    by (vm_compute; reflexivity).
  assert (session <> []) as H2 by (vm_compute; discriminate).
  assert (frames.session_id foreign <> session) as H3
    by (vm_compute; discriminate).
  split; [exact H1|]. split; [exact H2|]. split; [exact H3|].
  exact (ingest_other_session_unchanged (ingest init header) session
           foreign H1 H2 H3).
Defined.

Lemma header_same_session_replaces_metadata_witness :
  session_id (ingest init header) = Some session /\
  frame_type header' = SESSION_HEADER /\
  frames.session_id header' = session /\
  decode_metadata (payload header') = Some meta' /\
  receiver.meta (ingest (ingest init header) header') = Some meta' /\
  session_id (ingest (ingest init header) header') = Some session /\
  data_blocks (ingest (ingest init header) header')
  = data_blocks (ingest init header) /\
  parity_blocks (ingest (ingest init header) header')
  = parity_blocks (ingest init header) /\
  headers_seen (ingest (ingest init header) header')
  = headers_seen (ingest init header) + 1.
Proof.
  assert (session_id (ingest init header) = Some session) as H1
    by (vm_compute; reflexivity).
  assert (frame_type header' = SESSION_HEADER) as H2 by reflexivity.
  assert (frames.session_id header' = session) as H3 by reflexivity.
  assert (decode_metadata (payload header') = Some meta') as H4
    by (vm_compute; reflexivity).
  split; [exact H1|]. split; [exact H2|]. split; [exact H3|].
  split; [exact H4|].
  exact (header_same_session_replaces_metadata (ingest init header)
           session header' meta' H1 H2 H3 H4).
Defined.

Lemma example_indices : indices example.meta 0 = [0; 1].
Proof. vm_compute. reflexivity. Defined.

Lemma two_missing_never_recovered_witness :
  receiver.meta (ingest init header) = Some example.meta /\
  0 ∈ indices example.meta 0 /\ 1 ∈ indices example.meta 0 /\ 0 <> 1 /\
  data_blocks (ingest init header) !! 0 = None /\
  data_blocks (ingest init header) !! 1 = None /\
  Forall (withholds example.meta 0 1) [parity0; header; parity0] /\
  data_blocks (ingest_all (ingest init header) [parity0; header; parity0])
    !! 0 = None /\
  data_blocks (ingest_all (ingest init header) [parity0; header; parity0])
    !! 1 = None.
Proof.
  assert (receiver.meta (ingest init header) = Some example.meta) as H1
    by (vm_compute; reflexivity).
  assert (0 ∈ indices example.meta 0) as H2
    by (rewrite example_indices; apply list_elem_of_here).
  assert (1 ∈ indices example.meta 0) as H3
    by (rewrite example_indices;
        apply list_elem_of_further, list_elem_of_here).
  assert (0 <> 1) as H4 by lia.
  assert (data_blocks (ingest init header) !! 0 = None) as H5
    by (vm_compute; reflexivity).
  assert (data_blocks (ingest init header) !! 1 = None) as H6
    by (vm_compute; reflexivity).
  assert (Forall (withholds example.meta 0 1) [parity0; header; parity0])
    as H7.
  { repeat apply Forall_cons_2; [exact I| |exact I|apply Forall_nil_2].
    unfold withholds. cbn [frame_type header sender._header_frame].
    intros m' Hm'. vm_compute in Hm'. injection Hm' as <-.
    vm_compute. reflexivity. }
  do 6 (split; [assumption|]). split; [exact H7|].
  exact (two_missing_never_recovered (ingest init header) example.meta 0 0 1
           [parity0; header; parity0] H1 H2 H3 H4 H5 H6 H7).
Defined.

Lemma complete_in_range_writes_all_witness :
  receiver.meta (ingest_all init [header; data1; data0])
  = Some example.meta /\
  is_complete (ingest_all init [header; data1; data0]) = true /\
  (forall i,
     is_Some (data_blocks (ingest_all init [header; data1; data0]) !! i) ->
     0 <= i < total_chunks example.meta) /\
  (forall i, 0 <= i < total_chunks example.meta ->
     is_Some (data_blocks (ingest_all init [header; data1; data0]) !! i)) /\
  exists blocks,
    mapM (fun i => data_blocks (ingest_all init [header; data1; data0]) !! i)
      (seqZ 0 (total_chunks example.meta)) = Some blocks /\
    write_payload (ingest_all init [header; data1; data0])
    = Ok (concat blocks).
Proof.
  assert (receiver.meta (ingest_all init [header; data1; data0])
          = Some example.meta) as H1 by (vm_compute; reflexivity).
  assert (is_complete (ingest_all init [header; data1; data0]) = true)
    as H2 by (vm_compute; reflexivity).
  assert (forall i,
            is_Some (data_blocks (ingest_all init [header; data1; data0])
                       !! i) ->
            0 <= i < total_chunks example.meta) as H3.
  { intros i [blk Hblk]. apply elem_of_map_to_list in Hblk.
    assert (map_to_list
              (data_blocks (ingest_all init [header; data1; data0]))
            = [(1, bytes_of_string "B"); (0, bytes_of_string "A")]) as Hl
      by (vm_compute; reflexivity).
    rewrite Hl in Hblk. clear Hl.
    change (total_chunks example.meta) with 2.
    apply elem_of_cons in Hblk as [Hblk|Hblk]; [injection Hblk; lia|].
    apply elem_of_cons in Hblk as [Hblk|Hblk]; [injection Hblk; lia|].
    apply elem_of_nil in Hblk. destruct Hblk. }
  split; [exact H1|]. split; [exact H2|]. split; [exact H3|].
  exact (complete_in_range_writes_all
           (ingest_all init [header; data1; data0]) example.meta H1 H2 H3).
Defined.

Lemma reassembly_completeness_witness :
  sha256_hexdigest file = hashlib.sha256_hexdigest file /\
  0 < 1 /\ 0 < 2 /\
  decode_metadata (encode_metadata example.meta) = Some example.meta /\
  [data1; data0] ≡ₚ filter (fun f => frame_type f = DATA) frames /\
  is_complete (ingest_all init (header :: [data1; data0])) = true /\
  exists out,
    write_payload (ingest_all init (header :: [data1; data0])) = Ok out /\
    out = file /\ sha256_hexdigest out = sha256 example.meta.
Proof.
  assert (sha256_hexdigest file = hashlib.sha256_hexdigest file) as H0
    by (vm_compute; reflexivity).
  assert (0 < 1) as H1 by lia.
  assert (0 < 2) as H2 by lia.
  assert (decode_metadata (encode_metadata example.meta)
          = Some example.meta) as H3 by (vm_compute; reflexivity).
  assert ([data1; data0] ≡ₚ filter (fun f => frame_type f = DATA) frames)
    as H4.
  { assert (filter (fun f => frame_type f = DATA) frames = [data0; data1])
      as -> by (vm_compute; reflexivity).
    apply perm_swap. }
  split; [exact H0|].
  split; [exact H1|]. split; [exact H2|]. split; [exact H3|].
  split; [exact H4|].
  exact (reassembly_completeness file 1 2 1 (hashlib.sha256_hexdigest file)
           "raw" "none" "ab.bin" 1 session
           config.DEFAULT_HEADER_REPEAT config.DEFAULT_HEADER_INTERVAL
           [data1; data0] H0 H1 H2 H3 H4).
Defined.

Lemma order_independence_after_header_witness :
  0 < 1 /\ 0 < 2 /\
  decode_metadata (encode_metadata example.meta) = Some example.meta /\
  header :: parity0 :: data1 :: data0 :: replicate 9 header ≡ₚ frames /\
  (exists h tl,
     header :: parity0 :: data1 :: data0 :: replicate 9 header = h :: tl /\
     frame_type h = SESSION_HEADER) /\
  write_payload
    (ingest_all init
       (header :: parity0 :: data1 :: data0 :: replicate 9 header))
  = write_payload (ingest_all init frames) /\
  write_payload
    (ingest_all init
       (header :: parity0 :: data1 :: data0 :: replicate 9 header))
  = Ok file.
Proof.
  assert (0 < 1) as H1 by lia.
  assert (0 < 2) as H2 by lia.
  assert (decode_metadata (encode_metadata example.meta)
          = Some example.meta) as H3 by (vm_compute; reflexivity).
  assert (header :: parity0 :: data1 :: data0 :: replicate 9 header
          ≡ₚ frames) as H4.
  { rewrite frames_emitted.
    change (replicate 10 header) with (header :: replicate 9 header).
    cbn [app]. apply perm_skip.
    change (parity0 :: data1 :: data0 :: replicate 9 header)
      with ([parity0; data1; data0] ++ replicate 9 header).
    etrans; [apply Permutation_app_comm|]. apply Permutation_app_head.
    apply (Permutation_rev [parity0; data1; data0]). }
  assert (exists h tl,
            header :: parity0 :: data1 :: data0 :: replicate 9 header
            = h :: tl /\ frame_type h = SESSION_HEADER) as H5.
  { exists header, (parity0 :: data1 :: data0 :: replicate 9 header).
    split; reflexivity. }
  split; [exact H1|]. split; [exact H2|]. split; [exact H3|].
  split; [exact H4|]. split; [exact H5|].
  exact (order_independence_after_header file 1 2 1
           (hashlib.sha256_hexdigest file) "raw" "none" "ab.bin" 1 session
           config.DEFAULT_HEADER_REPEAT config.DEFAULT_HEADER_INTERVAL
           (header :: parity0 :: data1 :: data0 :: replicate 9 header)
           H1 H2 H3 H4 H5).
Defined.

Lemma single_missing_recovered_witness :
  receiver.meta (ingest_all init [header; data0]) = Some example.meta /\
  session_id (ingest_all init [header; data0]) = Some session /\
  1 ∈ indices example.meta 0 /\
  (forall i, i ∈ indices example.meta 0 ->
     (data_blocks (ingest_all init [header; data0]) !! i = None <-> i = 1))
  /\
  (forall held,
     parity_blocks (ingest_all init [header; data0]) !! 0 = Some held ->
     Forall (eq [Byte.x03]) held) /\
  [Byte.x03] <> [] /\
  Forall (fun blk => (length blk <= length [Byte.x03])%nat)
    (known (ingest_all init [header; data0]) (indices example.meta 0)) /\
  frame_type parity0 = FEC /\
  frames.session_id parity0 = session /\
  superblock_id parity0 = 0 /\
  payload parity0 = [Byte.x03] /\
  data_blocks (ingest_all (ingest_all init [header; data0])
                 (parity0 :: [data1])) !! 1
  = Some (spec_recover [Byte.x03]
            (known (ingest_all init [header; data0])
               (indices example.meta 0))
            (_expected_len example.meta 1)).
Proof.
  assert (receiver.meta (ingest_all init [header; data0])
          = Some example.meta) as H1 by (vm_compute; reflexivity).
  assert (session_id (ingest_all init [header; data0]) = Some session)
    as H2 by (vm_compute; reflexivity).
  assert (1 ∈ indices example.meta 0) as H3
    by (rewrite example_indices;
        apply list_elem_of_further, list_elem_of_here).
  assert (forall i, i ∈ indices example.meta 0 ->
            (data_blocks (ingest_all init [header; data0]) !! i = None
             <-> i = 1)) as H4.
  { intros i Hi. rewrite example_indices in Hi.
    apply elem_of_cons in Hi as [->|Hi].
    - split; [vm_compute; discriminate|lia].
    - apply elem_of_cons in Hi as [->|Hi].
      + split; [reflexivity|]. intros _. vm_compute. reflexivity.
      + apply elem_of_nil in Hi. destruct Hi. }
  assert (forall held,
            parity_blocks (ingest_all init [header; data0]) !! 0
            = Some held -> Forall (eq [Byte.x03]) held) as H5.
  { intros held Hheld. vm_compute in Hheld. discriminate Hheld. }
  assert ([Byte.x03] <> []) as H6 by discriminate.
  assert (Forall (fun blk => (length blk <= length [Byte.x03])%nat)
            (known (ingest_all init [header; data0])
               (indices example.meta 0))) as H7.
  { assert (known (ingest_all init [header; data0])
              (indices example.meta 0) = [bytes_of_string "A"]) as ->
      by (vm_compute; reflexivity).
    apply Forall_cons_2; [|apply Forall_nil_2]. cbn. lia. }
  split; [exact H1|]. split; [exact H2|]. split; [exact H3|].
  split; [exact H4|]. split; [exact H5|]. split; [exact H6|].
  split; [exact H7|]. do 4 (split; [reflexivity|]).
  exact (single_missing_recovered (ingest_all init [header; data0])
           example.meta session 0 1 [Byte.x03] parity0 [data1]
           H1 H2 H3 H4 H5 H6 H7 eq_refl eq_refl eq_refl eq_refl).
Defined.

(** On the concrete session the recovered block is the dropped one. *)
Example recovered_block_is_original :
  data_blocks (ingest_all init [header; data0; parity0]) !! 1
  = Some (bytes_of_string "B") /\
  write_payload (ingest_all init [header; data0; parity0]) = Ok file.
Proof. vm_compute. split; reflexivity. Qed.

End concrete.

(** * Further properties of the code *)

(** ** fec.py: what the parity block is, and what recovery returns *)

Section parity_properties.
Import fec.

(** The byte a block contributes at position [i]: its own byte, or the
    zero of the padding. *)
Definition byte_at (i : nat) (blk : list byte) : byte :=
  default Byte.x00 (blk !! i).

Lemma lookup_ljust width (blk : list byte) (i : nat) :
  (length blk <= width)%nat -> (i < width)%nat ->
  ljust width blk !! i = Some (byte_at i blk).
Proof.
  intros Hlen Hi. unfold ljust, byte_at.
  destruct (decide (i < length blk)%nat) as [Hlt|Hge].
  - rewrite lookup_app_l by done.
    destruct (lookup_lt_is_Some_2 blk i Hlt) as [b ->]. done.
  - rewrite lookup_app_r by lia.
    rewrite (lookup_ge_None_2 blk i) by lia.
    apply lookup_replicate_2. lia.
Qed.

Lemma xor_fold_lookup width (blocks : list (list byte)) (x : list byte)
    (i : nat) (b : byte) :
  Forall (fun blk => (length blk <= width)%nat) blocks ->
  length x = width -> x !! i = Some b ->
  xor_fold width blocks x !! i
  = Some (fold_left (fun acc blk => xor_byte acc (byte_at i blk)) blocks b).
Proof.
  intros Hall. revert x b.
  induction Hall as [|blk blocks Hblk _ IH]; intros x b Hx Hb; [done|].
  rewrite xor_fold_cons. cbn [fold_left].
  apply IH.
  - rewrite length_xor_into; [done|]. by rewrite length_ljust.
  - unfold xor_into. rewrite lookup_zip_with, Hb. cbn.
    rewrite lookup_ljust; [done|done|].
    rewrite <- Hx. by apply lookup_lt_Some in Hb.
Qed.

(** X1 (fec.py, xor_parity_block): the parity block is as long as the
    longest block, and its byte at every position below that length is
    the XOR of the bytes the blocks have there, a block that is too
    short counting as zero. *)
Theorem xor_parity_block_bytes (blocks : list (list byte)) (i : nat) :
  xor_parity_block blocks !! i
  = if decide (i < max_list (length <$> blocks))%nat
    then Some (fold_left (fun acc blk => xor_byte acc (byte_at i blk))
                 blocks Byte.x00)
    else None.
Proof.
  destruct (decide (i < max_list (length <$> blocks))%nat) as [Hlt|Hge].
  - assert (blocks <> []) as Hne by (intros ->; cbn in Hlt; lia).
    rewrite xor_parity_block_fold by done.
    apply xor_fold_lookup.
    + apply Forall_length_le_max.
    + apply length_replicate.
    + by apply lookup_replicate_2.
  - apply lookup_ge_None_2. rewrite length_xor_parity_block. lia.
Qed.

Lemma xor_parity_block_nonempty (blocks : list (list byte)) :
  Exists (fun blk => blk <> []) blocks -> xor_parity_block blocks <> [].
Proof.
  intros (blk & Hin & Hne)%Exists_exists Hnil.
  pose proof (length_xor_parity_block blocks) as Hlen.
  rewrite Hnil in Hlen. cbn [length] in Hlen.
  pose proof (proj1 (Forall_forall _ _) (Forall_length_le_max blocks)
                blk Hin) as Hle.
  cbn beta in Hle. destruct blk; [done|]. cbn [length] in Hle. lia.
Qed.

(** X2 (fec.py, recover_single_missing): when the given blocks are all
    blocks of a superblock but one, and the parity block is the one
    computed from the whole superblock with some block not empty, the
    function returns the lost block right-padded with zeros to the
    length of the longest block; cutting the result to the length of
    the lost block gives the lost block. *)
Theorem recover_single_missing_restores (blocks known : list (list byte))
    (lost : list byte) :
  blocks ≡ₚ lost :: known ->
  Exists (fun blk => blk <> []) blocks ->
  exists recovered,
    recover_single_missing known (xor_parity_block blocks) 1
    = Some recovered /\
    length recovered = max_list (length <$> blocks) /\
    take (length lost) recovered = lost.
Proof.
  intros Hperm Hne.
  exists (ljust (max_list (length <$> blocks)) lost).
  split; [|split].
  - unfold recover_single_missing.
    rewrite bool_decide_eq_false_2 by by apply xor_parity_block_nonempty.
    cbn. f_equal. by apply xor_parity_recover.
  - apply length_ljust.
    assert (lost ∈ blocks) as Hin by (rewrite Hperm; apply list_elem_of_here).
    exact (proj1 (Forall_forall _ _) (Forall_length_le_max blocks) lost Hin).
  - apply take_ljust.
Qed.

End parity_properties.

(** ** chunker.py and models.py: the chunks of a payload file *)

Section chunk_properties.
Import chunker.

Lemma iter_chunks_zero (file : list byte) : iter_chunks file 0 = [].
Proof. unfold iter_chunks. cbn [read_loop]. unfold read. cbn. done. Qed.

Lemma iter_chunks_negative (file : list byte) cs :
  cs < 0 ->
  iter_chunks file cs = match file with [] => [] | _ => [file] end.
Proof.
  intros Hcs. unfold iter_chunks. cbn [read_loop]. unfold read.
  destruct (Z.ltb_spec cs 0) as [_|?]; [|lia].
  destruct file as [|b file]; [done|].
  rewrite drop_all. f_equal.
  destruct (length (b :: file)) as [|fuel]; [done|].
  cbn [read_loop]. unfold read.
  destruct (Z.ltb_spec cs 0) as [_|?]; [done|lia].
Qed.

(** X3 (chunker.py, iter_chunks): for every chunk size the reader
    accepts (a positive size, or -1 for "all"; a size below -1 makes the
    buffered reader raise and is outside the model of [read]) other than
    zero, the chunks, joined in the order they are yielded, are the
    file. *)
Theorem iter_chunks_concat_file (file : list byte) cs :
  -1 <= cs -> cs <> 0 -> concat (iter_chunks file cs) = file.
Proof.
  intros _ Hcs. destruct (Z.lt_trichotomy cs 0) as [Hneg|[->|Hpos]].
  - rewrite iter_chunks_negative by done.
    destruct file; [done|]. cbn [concat]. apply app_nil_r.
  - done.
  - by apply iter_chunks_concat.
Qed.

(** X4 (chunker.py, iter_chunks): the two chunk sizes that are accepted
    and not positive.  A chunk size of zero yields no chunk at all,
    whatever the file holds, since [read(0)] returns nothing; a chunk
    size of -1 yields the whole file as one chunk, and none for an empty
    file, since [read(-1)] returns everything. *)
Theorem iter_chunks_degenerate_sizes (file : list byte) :
  iter_chunks file 0 = [] /\
  iter_chunks file (-1) = match file with [] => [] | _ => [file] end.
Proof.
  split.
  - apply iter_chunks_zero.
  - apply iter_chunks_negative. lia.
Qed.

(** X5 (chunker.py, iter_chunks; models.py, estimate_total_chunks): for
    a positive chunk size the number of chunks is the estimated count,
    no chunk is empty, and every chunk has [chunk_size] bytes except the
    last, which holds the rest of the file. *)
Theorem iter_chunks_sizes (file : list byte) cs (i : nat)
    (chunk : list byte) :
  0 < cs ->
  iter_chunks file cs !! i = Some chunk ->
  Z.of_nat (length (iter_chunks file cs))
  = estimate_total_chunks (Z.of_nat (length file)) cs /\
  0 < Z.of_nat (length chunk) <= cs /\
  Z.of_nat (length chunk)
  = if Z.of_nat i <? estimate_total_chunks (Z.of_nat (length file)) cs - 1
    then cs
    else Z.of_nat (length file)
         - cs * (estimate_total_chunks (Z.of_nat (length file)) cs - 1).
Proof.
  intros Hcs Hi.
  pose proof (length_iter_chunks file cs Hcs) as Hlen.
  pose proof (iter_chunks_length_chunk file cs i chunk Hcs Hi)
    as [Hchunk Hstart].
  assert (Z.of_nat i < estimate_total_chunks (Z.of_nat (length file)) cs)
    as Hbelow.
  { rewrite <- Hlen. apply lookup_lt_Some in Hi. lia. }
  set (tc := estimate_total_chunks (Z.of_nat (length file)) cs) in *.
  split; [done|]. split; [lia|].
  destruct (Z.ltb_spec (Z.of_nat i) (tc - 1)) as [Hlt|Hge].
  - assert ((Z.of_nat i + 1) * cs < Z.of_nat (length file)); [|lia].
    apply (below_total_chunks _ cs); lia.
  - assert (Z.of_nat i = tc - 1) as Hlast by lia.
    assert (~ tc * cs < Z.of_nat (length file)) as Hend.
    { intros Htc. apply (below_total_chunks _ cs) in Htc; [|lia..].
      fold tc in Htc. lia. }
    rewrite <- Hlast. nia.
Qed.

(** X6 (models.py, estimate_total_chunks): for a positive chunk size and
    a size that is not negative, the estimate is the least number of
    chunks that hold the size. *)
Theorem estimate_total_chunks_ceiling size cs :
  0 < cs -> 0 <= size ->
  cs * (estimate_total_chunks size cs - 1) < size
  <= cs * estimate_total_chunks size cs.
Proof.
  intros Hcs Hsize.
  set (tc := estimate_total_chunks size cs).
  assert (0 <= tc) as Htc.
  { unfold tc, estimate_total_chunks. apply Z.div_pos; lia. }
  split.
  - destruct (Z.eq_dec tc 0) as [Hz|Hnz].
    + rewrite Hz.
      assert (~ 0 * cs < size) as Hnot.
      { intros Hlt. apply (below_total_chunks size cs 0) in Hlt; [|lia..].
        fold tc in Hlt. lia. }
      nia.
    + assert ((tc - 1) * cs < size); [|lia].
      apply (below_total_chunks size cs); [lia..|]. fold tc. lia.
  - assert (~ tc * cs < size); [|lia].
    intros Hlt. apply (below_total_chunks size cs) in Hlt; [|lia..].
    fold tc in Hlt. lia.
Qed.

Lemma fold_left_append_chunks (chunks : list (list byte))
    (hasher : list byte) :
  fold_left (fun hasher chunk => hasher ++ chunk) chunks hasher
  = hasher ++ concat chunks.
Proof.
  revert hasher. induction chunks as [|chunk chunks IH]; intros hasher.
  - cbn. by rewrite app_nil_r.
  - cbn [fold_left concat]. by rewrite IH, app_assoc.
Qed.

Lemma fold_left_copy_chunks (chunks : list (list byte))
    (dst hasher : list byte) (total : Z) :
  fold_left
    (fun '(dst, hasher, total) chunk =>
       (dst ++ chunk, hasher ++ chunk, total + Z.of_nat (length chunk)))
    chunks (dst, hasher, total)
  = (dst ++ concat chunks, hasher ++ concat chunks,
     total + Z.of_nat (length (concat chunks))).
Proof.
  revert dst hasher total.
  induction chunks as [|chunk chunks IH]; intros dst hasher total.
  - cbn. by rewrite !app_nil_r, Z.add_0_r.
  - cbn [fold_left concat]. rewrite IH, !app_assoc, length_app.
    f_equal. lia.
Qed.

Lemma READ_BUF_pos : 0 < READ_BUF.
Proof. unfold READ_BUF. lia. Qed.

(** X7 (chunker.py, _hashing_copy): the copy loop writes the source to
    the destination unchanged, and returns the number of bytes of the
    source and the digest of the whole source, however the reads cut it
    into buffers. *)
Theorem hashing_copy_whole_source (hexdigest : list byte -> string)
    (src : list byte) :
  _hashing_copy hexdigest src
  = (src, (Z.of_nat (length src), hexdigest src)).
Proof.
  unfold _hashing_copy.
  rewrite fold_left_copy_chunks.
  rewrite read_loop_concat by (apply READ_BUF_pos || lia).
  cbn [app]. do 2 f_equal. 
Qed.

End chunk_properties.

(** ** frames.py: what the codec accepts and what it returns *)

#[export] Instance wire_ranges_dec (f : Frame) : Decision (wire_ranges f).
Proof. unfold wire_ranges. apply _. Defined.

Section codec_results.

Lemma be_value_range (l : list byte) :
  0 <= be_value l < 256 ^ Z.of_nat (length l).
Proof.
  induction l as [|b l IH]; [unfold be_value; cbn; lia|].
  rewrite be_value_cons. cbn [length].
  rewrite Nat2Z.inj_succ, Z.pow_succ_r by lia.
  pose proof (Z_of_byte_range b). nia.
Qed.

Lemma byte_of_Z_add_multiple z a : byte_of_Z (z + a * 256) = byte_of_Z z.
Proof.
  apply byte_of_Z_eq. rewrite Z_of_byte_of_Z. apply Z_mod_plus_full.
Qed.

Lemma be_bytes_shift n a v :
  be_bytes n (a * 256 ^ Z.of_nat n + v) = be_bytes n v.
Proof.
  revert a. induction n as [|n IH]; intros a; [done|].
  cbn [be_bytes].
  assert (0 < 256 ^ Z.of_nat n) by (apply Z.pow_pos_nonneg; lia).
  rewrite Nat2Z.inj_succ, Z.pow_succ_r by lia.
  replace (a * (256 * 256 ^ Z.of_nat n) + v)
    with (v + (a * 256) * 256 ^ Z.of_nat n) by lia.
  f_equal.
  - rewrite Z.div_add by lia. apply byte_of_Z_add_multiple.
  - rewrite Z.add_comm. apply IH.
Qed.

(** Packing what was unpacked gives the bytes back. *)
Lemma be_bytes_be_value (l : list byte) :
  be_bytes (length l) (be_value l) = l.
Proof.
  induction l as [|b l IH]; [done|].
  cbn [length be_bytes]. rewrite be_value_cons.
  pose proof (be_value_range l).
  assert (0 < 256 ^ Z.of_nat (length l)) by lia.
  f_equal.
  - rewrite Z.div_add_l, Z.div_small, Z.add_0_r by lia.
    apply byte_of_Z_of_byte.
  - by rewrite be_bytes_shift.
Qed.

Lemma be_bytes_be_value_width (width : nat) (l : list byte) :
  length l = width -> be_bytes width (be_value l) = l.
Proof. intros <-. apply be_bytes_be_value. Qed.

Lemma split_at {A} (n : nat) (l : list A) :
  (n <= length l)%nat -> exists a b, l = a ++ b /\ length a = n.
Proof.
  intros Hn. exists (take n l), (drop n l).
  split; [by rewrite take_drop|]. rewrite length_take. lia.
Qed.

Lemma FrameType_of_int_inv n t :
  FrameType_of_int n = Ok t -> n = int_of_FrameType t.
Proof.
  unfold FrameType_of_int.
  repeat match goal with
  | |- context [?a =? ?b] => destruct (Z.eqb_spec a b)
  end; intros [= <-]; done.
Qed.

Lemma to_bytes_cases f :
  to_bytes f
  = if decide (length (frames.session_id f) = 16%nat) then
      if decide (Z.of_nat (length (payload f)) <= 65535) then
        if decide (wire_ranges f) then Ok (wire_frame f)
        else Raise StructError
      else Raise (FrameError PayloadTooLarge)
    else Raise (FrameError SessionIdLength).
Proof.
  destruct (decide (length (frames.session_id f) = 16%nat)) as [Hs|Hs].
  - destruct (decide (Z.of_nat (length (payload f)) <= 65535)) as [Hp|Hp].
    + destruct (decide (wire_ranges f)) as [Hr|Hr].
      * by apply to_bytes_ok.
      * unfold to_bytes. rewrite Hs. cbn [Nat.eqb negb].
        destruct (Z.gtb_spec (Z.of_nat (length (payload f))) 0xFFFF);
          [lia|].
        unfold pack_header.
        pose proof (int_of_FrameType_range (frame_type f)).
        pose proof (land_255_range (flags f)).
        unfold config.VERSION.
        do 3 (rewrite pack_uint_ok by (simpl Z.of_nat; lia); cbn [bind]).
        unfold wire_ranges in Hr. unfold struct.pack_uint.
        change (256 ^ Z.of_nat 4) with (2 ^ 32).
        change (256 ^ Z.of_nat 2) with (2 ^ 16).
        repeat match goal with
        | |- context [?a <=? ?b] => destruct (Z.leb_spec a b)
        | |- context [?a <? ?b] => destruct (Z.ltb_spec a b)
        end; cbn [andb bind]; try reflexivity; lia.
    + unfold to_bytes. rewrite Hs. cbn [Nat.eqb negb].
      destruct (Z.gtb_spec (Z.of_nat (length (payload f))) 0xFFFF);
        [done|lia].
  - unfold to_bytes.
    destruct (Nat.eqb_spec (length (frames.session_id f)) 16); done.
Qed.

(** X8 (frames.py, Frame.to_bytes): the whole result of [to_bytes], in
    the order the code decides it: a session id that is not 16 bytes
    long, then a payload above 65535 bytes, each raise their
    [FrameError]; past them, a field outside its wire width makes
    [struct] raise its own error, which is no [FrameError]; otherwise
    the wire image is returned. *)
Theorem to_bytes_result f :
  (length (frames.session_id f) <> 16%nat /\
   to_bytes f = Raise (FrameError SessionIdLength)) \/
  (length (frames.session_id f) = 16%nat /\
   65535 < Z.of_nat (length (payload f)) /\
   to_bytes f = Raise (FrameError PayloadTooLarge)) \/
  (length (frames.session_id f) = 16%nat /\
   Z.of_nat (length (payload f)) <= 65535 /\
   ~ wire_ranges f /\ to_bytes f = Raise StructError) \/
  (length (frames.session_id f) = 16%nat /\
   Z.of_nat (length (payload f)) <= 65535 /\
   wire_ranges f /\ to_bytes f = Ok (wire_frame f)).
Proof.
  rewrite to_bytes_cases.
  destruct (decide (length (frames.session_id f) = 16%nat)); [|by left].
  right.
  destruct (decide (Z.of_nat (length (payload f)) <= 65535));
    [|left; split; [done|]; split; [lia|done]].
  right. destruct (decide (wire_ranges f)); [right|left]; done.
Qed.

(** X9 (frames.py, Frame.from_bytes): whatever [from_bytes] accepts is
    the encoding of the frame it returns: the frame is valid, and
    [to_bytes] of it gives the accepted bytes back, so no two byte
    strings decode to the same frame. *)
Theorem from_bytes_accepts_only_encodings (raw : list byte) f :
  from_bytes raw = Ok f -> valid_frame f /\ to_bytes f = Ok raw.
Proof.
  intros Hdec.
  assert (43 <= length raw)%nat as Hlen.
  { destruct (le_lt_dec 43 (length raw)) as [|Hlt]; [done|].
    unfold from_bytes in Hdec.
    rewrite (proj2 (Nat.ltb_lt _ (HEADER_SIZE + CRC_SIZE)) Hlt) in Hdec.
    done. }
  destruct (split_at 4 raw) as (magic & r1 & -> & Hmagic); [lia|].
  rewrite length_app in Hlen.
  destruct r1 as [|v [|t [|g r2]]]; cbn [length] in Hlen; try lia.
  destruct (split_at 16 r2) as (sid & r3 & -> & Hsid); [lia|].
  rewrite length_app in Hlen.
  destruct (split_at 4 r3) as (s & r4 & -> & Hs); [lia|].
  rewrite length_app in Hlen.
  destruct (split_at 4 r4) as (b & r5 & -> & Hb); [lia|].
  rewrite length_app in Hlen.
  destruct (split_at 4 r5) as (n & r6 & -> & Hn); [lia|].
  rewrite length_app in Hlen.
  destruct (split_at 2 r6) as (k & r7 & -> & Hk); [lia|].
  rewrite length_app in Hlen.
  destruct (split_at 2 r7) as (p & r8 & -> & Hp); [lia|].
  rewrite length_app in Hlen.
  destruct (split_at (length r8 - 4) r8) as (body & crc & -> & Hbody);
    [lia|].
  rewrite length_app in Hlen, Hbody.
  assert (length crc = 4%nat) as Hcrc by lia.
  clear Hlen Hbody.
  set (header := magic ++ [v; t; g] ++ sid ++ s ++ b ++ n ++ k ++ p).
  assert (magic ++ v :: t :: g
            :: sid ++ s ++ b ++ n ++ k ++ p ++ body ++ crc
          = header ++ body ++ crc) as Hraw.
  { unfold header. rewrite <- !app_assoc. reflexivity. }
  rewrite Hraw in Hdec |- *. unfold header in Hdec.
  rewrite (from_bytes_layout magic v t g sid s b n k p body crc)
    in Hdec by done.
  fold header in Hdec.
  destruct (bool_decide_reflect (magic = config.MAGIC)) as [Hm|];
    [|done].
  cbn [negb] in Hdec.
  destruct (Z.eqb_spec (Z_of_byte v) config.VERSION) as [Hv|]; [|done].
  cbn [negb] in Hdec.
  destruct (Z.eqb_spec (Z.of_nat (length body)) (be_value p)) as [Hlen|];
    [|done].
  cbn [negb] in Hdec.
  destruct (Z.eqb_spec (Z.land (zlib.crc32 (header ++ body)) 0xFFFFFFFF)
              (be_value crc)) as [Hsum|]; [|done].
  cbn [negb] in Hdec.
  destruct (FrameType_of_int (Z_of_byte t)) as [ft|] eqn:Hft; [|done].
  cbn [bind] in Hdec. injection Hdec as <-.
  apply FrameType_of_int_inv in Hft.
  pose proof (be_value_range s) as Rs. rewrite Hs in Rs.
  pose proof (be_value_range b) as Rb. rewrite Hb in Rb.
  pose proof (be_value_range n) as Rn. rewrite Hn in Rn.
  pose proof (be_value_range k) as Rk. rewrite Hk in Rk.
  pose proof (be_value_range p) as Rp. rewrite Hp in Rp.
  pose proof (Z_of_byte_range g) as Rg.
  change (256 ^ Z.of_nat 4) with (2 ^ 32) in *.
  change (256 ^ Z.of_nat 2) with (2 ^ 16) in *.
  assert (valid_frame
            {| frame_type := ft; frames.session_id := sid;
               superblock_id := be_value s; block_id := be_value b;
               total_blocks := be_value n; blocks_in_super := be_value k;
               flags := Z_of_byte g; payload := body |}) as Hvalid.
  { unfold valid_frame, wire_ranges. cbn. lia. }
  split; [exact Hvalid|].
  destruct Hvalid as (Hv1 & Hv2 & _ & Hv4).
  rewrite to_bytes_ok by done. f_equal.
  assert (wire_header
            {| frame_type := ft; frames.session_id := sid;
               superblock_id := be_value s; block_id := be_value b;
               total_blocks := be_value n; blocks_in_super := be_value k;
               flags := Z_of_byte g; payload := body |} = header)
    as Hheader.
  { unfold wire_header, header. cbn [frame_type frames.session_id
      superblock_id block_id total_blocks blocks_in_super flags payload].
    rewrite <- Hm, <- Hv, <- Hft, Hlen.
    change 0xFF with (Z.ones 8).
    rewrite Z.land_ones, Z.mod_small, !byte_of_Z_of_byte by lia.
    by rewrite !be_bytes_be_value_width by done. }
  unfold wire_frame. rewrite Hheader. cbn [payload].
  rewrite Hsum. by rewrite be_bytes_be_value_width by done.
Qed.

End codec_results.

(** ** frames.py: the text form of a frame *)

Section text_properties.
Import base64.

Lemma length_b64encode (l : list byte) :
  String.length (b64encode l) = (4 * ((length l + 2) / 3))%nat.
Proof.
  induction l as [|a|a b|a b c l IH] using list_ind3; [done..|].
  cbn [b64encode String.length length]. rewrite IH.
  replace (S (S (S (length l))) + 2)%nat with (length l + 2 + 1 * 3)%nat
    by lia.
  rewrite Nat.div_add by lia. lia.
Qed.

Lemma length_wire_frame f :
  length (frames.session_id f) = 16%nat ->
  length (wire_frame f) = (43 + length (payload f))%nat.
Proof.
  intros Hs. unfold wire_frame.
  rewrite !length_app, length_wire_header, length_be_bytes by done. lia.
Qed.

(** X10 (frames.py, Frame.to_bytes and Frame.to_b64): an encoded frame is
    its payload and 43 bytes of header and checksum, and its text has
    four characters for every three bytes of that, rounded up. *)
Theorem to_b64_length f (s : string) :
  to_b64 f = Ok s ->
  to_bytes f = Ok (wire_frame f) /\
  length (wire_frame f) = (43 + length (payload f))%nat /\
  String.length s = (4 * ((45 + length (payload f)) / 3))%nat.
Proof.
  unfold to_b64. rewrite to_bytes_cases.
  destruct (decide (length (frames.session_id f) = 16%nat)) as [Hs|];
    [|done].
  destruct (decide (Z.of_nat (length (payload f)) <= 65535)); [|done].
  destruct (decide (wire_ranges f)); [|done].
  cbn [bind]. intros Heq.
  assert (s = b64encode (wire_frame f)) as -> by congruence.
  split; [done|]. split; [by apply length_wire_frame|].
  rewrite length_b64encode, length_wire_frame by done.
  do 2 f_equal. lia.
Qed.

(** A character that is neither of the alphabet nor the pad stops the
    decoder loop, in whatever state it is met. *)
Lemma a2b_loop_foreign (c : ascii) (s : string) quad_pos leftchar pads
    (padding_started : bool) (bin_data : list byte) :
  In c (list_ascii_of_string s) ->
  c <> pad -> b64_index c = None ->
  a2b_loop s quad_pos leftchar pads padding_started bin_data = None.
Proof.
  intros Hin Hpad Hidx.
  revert quad_pos leftchar pads padding_started bin_data.
  induction s as [|ch rest IH]; intros quad_pos leftchar pads started out;
    [destruct Hin|].
  cbn [a2b_loop].
  destruct (Ascii.eqb_spec ch pad) as [->|Hch].
  - destruct Hin as [Heq|Hin]; [by subst c|].
    destruct (2 <=? quad_pos)%nat; [|by apply IH].
    destruct (4 <=? quad_pos + S pads)%nat; [|by apply IH].
    destruct rest; [destruct Hin|done].
  - destruct Hin as [Heq|Hin].
    + subst ch. by rewrite Hidx.
    + destruct (b64_index ch) as [v|]; [|done].
      destruct started; [done|].
      destruct quad_pos as [|[|[|?]]]; by apply IH.
Qed.

(** X11 (frames.py, Frame.from_b64): a text that holds a character
    outside the base64 alphabet and the pad is refused with a
    [FrameError], wherever the character stands; the strict decoder
    never skips it. *)
Theorem from_b64_foreign_character (c : ascii) (s : string) :
  In c (list_ascii_of_string s) ->
  c <> pad -> b64_index c = None ->
  from_b64 s = Raise (FrameError Base64Failed).
Proof.
  intros Hin Hpad Hidx. unfold from_b64.
  assert (b64decode s = None) as ->; [|done].
  unfold b64decode. destruct s as [|ch rest]; [destruct Hin|].
  destruct (Ascii.eqb ch pad); [done|].
  by apply (a2b_loop_foreign c).
Qed.

End text_properties.

(** ** sender.py: batches of frames and their texts *)

Section batch_properties.
Context {A : Type}.
Implicit Types (seq batch : list A) (n : Z).

Lemma _batched_loop_concat seq n batch :
  concat (sender._batched_loop seq n batch) = batch ++ seq.
Proof.
  revert batch. induction seq as [|item seq IH]; intros batch.
  - cbn [sender._batched_loop]. rewrite app_nil_r.
    destruct batch; [done|]. cbn [concat]. apply app_nil_r.
  - cbn [sender._batched_loop].
    destruct (Z.of_nat (length (batch ++ [item])) =? n).
    + cbn [concat]. rewrite IH. cbn [app]. by rewrite <- app_assoc.
    + rewrite IH. by rewrite <- app_assoc.
Qed.

(** X12 (sender.py, _batched): whatever the batch size, the batches
    joined in order are the input: nothing is dropped, repeated or
    reordered. *)
Theorem batched_concat seq n : concat (sender._batched seq n) = seq.
Proof. unfold sender._batched. by rewrite _batched_loop_concat. Qed.

Lemma _batched_loop_sizes seq n batch (i : nat) (b : list A) :
  (Z.of_nat (length batch) < n) ->
  sender._batched_loop seq n batch !! i = Some b ->
  0 < Z.of_nat (length b) <= n /\
  ((S i < length (sender._batched_loop seq n batch))%nat ->
   Z.of_nat (length b) = n).
Proof.
  revert batch i. induction seq as [|item seq IH]; intros batch i Hlt Hb.
  - cbn [sender._batched_loop] in *.
    destruct batch as [|x batch]; [done|].
    destruct i; [|done]. injection Hb as <-.
    cbn [length] in *. split; [lia|]. lia.
  - cbn [sender._batched_loop] in *.
    assert (length (batch ++ [item]) = S (length batch)) as Hlen
      by (rewrite length_app; cbn [length]; lia).
    destruct (Z.eqb_spec (Z.of_nat (length (batch ++ [item]))) n)
      as [Heq|Hne].
    + destruct i as [|i].
      * injection Hb as <-. lia.
      * cbn [length]. destruct (IH [] i) as [H1 H2]; [cbn; lia|done|].
        split; [done|]. intros Hi. apply H2. lia.
    + apply IH; [lia|done].
Qed.

(** X13 (sender.py, _batched): for a positive batch size no batch is
    empty, none is larger than the size, and every batch but the last
    has exactly that size. *)
Theorem batched_sizes seq n (i : nat) (b : list A) :
  0 < n ->
  sender._batched seq n !! i = Some b ->
  0 < Z.of_nat (length b) <= n /\
  ((S i < length (sender._batched seq n))%nat -> Z.of_nat (length b) = n).
Proof.
  intros Hn Hb. apply (_batched_loop_sizes seq n []); [cbn; lia|done].
Qed.

Lemma _batched_loop_never_full seq n batch :
  n <= 0 ->
  sender._batched_loop seq n batch
  = match batch ++ seq with [] => [] | _ => [batch ++ seq] end.
Proof.
  intros Hn. revert batch. induction seq as [|item seq IH]; intros batch.
  - cbn [sender._batched_loop]. rewrite app_nil_r. by destruct batch.
  - cbn [sender._batched_loop].
    destruct (Z.eqb_spec (Z.of_nat (length (batch ++ [item]))) n)
      as [Heq|_].
    + rewrite length_app in Heq. cbn [length] in Heq. lia.
    + rewrite IH, <- app_assoc. done.
Qed.

(** X14 (sender.py, _batched): a batch size of zero or below never
    closes a batch, so all the input comes out as one batch at the
    end. *)
Theorem batched_nonpositive seq n :
  n <= 0 ->
  sender._batched seq n = match seq with [] => [] | _ => [seq] end.
Proof.
  intros Hn. unfold sender._batched.
  by rewrite _batched_loop_never_full.
Qed.

End batch_properties.

Section qr_strings.
Import base64.

Lemma to_b64_valid f :
  valid_frame f ->
  to_b64 f = Ok (b64encode (wire_frame f)) /\
  from_b64 (b64encode (wire_frame f)) = Ok f.
Proof.
  intros Hv. pose proof Hv as (Hs & Hp & Hf & Hr).
  unfold to_b64, from_b64. rewrite to_bytes_ok by done.
  split; [done|]. rewrite b64decode_b64encode.
  apply from_bytes_to_bytes; [done|]. by apply to_bytes_ok.
Qed.

Lemma frames_to_qr_strings_valid (fs : list Frame) :
  Forall valid_frame fs ->
  exists strings,
    sender.frames_to_qr_strings fs = Ok strings /\
    from_b64 <$> strings = Ok <$> fs.
Proof.
  induction 1 as [|f fs Hf _ (strings & Hstrings & Hdec)].
  - by exists [].
  - destruct (to_b64_valid f Hf) as [Henc Hback].
    exists (b64encode (wire_frame f) :: strings).
    cbn [sender.frames_to_qr_strings]. rewrite Henc, Hstrings.
    split; [done|]. cbn [fmap list_fmap]. fold (fmap from_b64 strings).
    fold (fmap (@Ok Frame) fs). by rewrite Hback, Hdec.
Qed.

(** X15 (sender.py, frames_to_qr_strings): for valid frames the function
    raises nothing and returns one text per frame, in order, and
    [from_b64] turns each text back into its frame. *)
Theorem frames_to_qr_strings_decode (fs : list Frame) :
  Forall valid_frame fs ->
  exists strings,
    sender.frames_to_qr_strings fs = Ok strings /\
    length strings = length fs /\
    from_b64 <$> strings = Ok <$> fs.
Proof.
  intros Hvalid.
  destruct (frames_to_qr_strings_valid fs Hvalid) as (strings & Hs & Hdec).
  exists strings. split; [done|]. split; [|done].
  apply (f_equal length) in Hdec. by rewrite !length_fmap in Hdec.
Qed.

End qr_strings.

(** ** sender.py: the frame plan of [generate_frames] *)

Section filter_facts.
Context {A : Type} (P : A -> Prop) `{!forall x, Decision (P x)}.

Lemma filter_Forall_all (l : list A) : Forall P l -> filter P l = l.
Proof.
  induction 1 as [|x l Hx _ IH]; [done|].
  by rewrite filter_cons_True, IH.
Qed.

Lemma filter_Forall_nil (l : list A) :
  Forall (fun x => ~ P x) l -> filter P l = [].
Proof.
  induction 1 as [|x l Hx _ IH]; [done|].
  by rewrite filter_cons_False.
Qed.

End filter_facts.

Section data_order.
Context `{Externals}.
Variable m : SessionMetadata.
Hypothesis superblock_data_pos : 0 < superblock_data m.

(** What a DATA frame delivers: a block id and the bytes of the block. *)
Definition delivery (f : Frame) : Z * list byte := (block_id f, payload f).

Lemma superblock_loop_deliveries fuel hdr hi (cs : list (list byte)) b s :
  frame_type hdr = SESSION_HEADER ->
  (length cs < fuel)%nat ->
  delivery <$> filter (fun f => frame_type f = DATA)
                 (sender.superblock_loop fuel m hdr hi cs b s)
  = imap (fun k c => (b + Z.of_nat k, c)) cs.
Proof.
  intros Hhdr. revert cs b s.
  induction fuel as [|fuel IH]; intros cs b s Hfuel; [lia|].
  cbn [sender.superblock_loop].
  set (n := Z.to_nat (superblock_data m)).
  assert (0 < n)%nat as Hn by lia.
  destruct (take n cs) as [|c0 blocks0] eqn:Htake.
  { destruct cs as [|c cs]; [done|]. destruct n; [lia|done]. }
  rewrite <- Htake. set (blocks := take n cs).
  assert (0 < length blocks)%nat as Hlen
    by (unfold blocks; rewrite Htake; cbn; lia).
  rewrite !filter_app, !fmap_app.
  rewrite filter_Forall_all; cycle 1.
  { apply Forall_forall. by intros f (k & blk & -> & Hk)%elem_of_lookup_imap. }
  rewrite filter_Forall_nil; cycle 1.
  { apply Forall_forall. by intros f (k & blk & -> & Hk)%elem_of_lookup_imap. }
  rewrite filter_Forall_nil; cycle 1.
  { destruct (_ && _); [|constructor].
    apply Forall_singleton. by rewrite Hhdr. }
  cbn [fmap list_fmap app].
  rewrite IH; cycle 1.
  { rewrite length_drop.
    assert (length blocks <= length cs)%nat
      by (unfold blocks; rewrite length_take; lia).
    lia. }
  rewrite fmap_imap.
  transitivity (imap (fun k c => (b + Z.of_nat k, c))
                  (blocks ++ drop n cs));
    [|unfold blocks; by rewrite take_drop].
  rewrite imap_app.
  apply (f_equal2 app); apply imap_ext; intros k c _; unfold delivery;
    cbn; f_equal; lia.
Qed.

(** X16 (sender.py, generate_frames): for a positive superblock size
    and a chunk size the reader accepts, the DATA frames come out in
    block order, one for each chunk of the payload and no other: the
    k-th DATA frame has block id k and carries the k-th chunk. *)
Theorem generate_frames_data_in_order (payload : list byte)
    (header_repeat header_interval : Z) :
  -1 <= chunk_size m ->
  delivery <$> filter (fun f => frame_type f = DATA)
                 (sender.generate_frames payload m header_repeat
                    header_interval)
  = imap (fun k c => (Z.of_nat k, c))
      (chunker.iter_chunks payload (chunk_size m)).
Proof.
  intros _. unfold sender.generate_frames.
  rewrite filter_app, fmap_app.
  rewrite filter_Forall_nil; cycle 1.
  { apply Forall_forall. by intros f ->%elem_of_replicate_inv. }
  cbn [fmap list_fmap app].
  rewrite superblock_loop_deliveries by (done || lia).
  apply imap_ext. intros k c _. f_equal.
Qed.

End data_order.

Section empty_plan.
Context `{Externals}.

Lemma iter_chunks_nil cs : chunker.iter_chunks [] cs = [].
Proof.
  unfold chunker.iter_chunks. cbn [chunker.read_loop length].
  unfold chunker.read. destruct (cs <? 0); [done|].
  by rewrite take_nil.
Qed.

(** X17 (sender.py, generate_frames): the plan opens with
    [max(1, header_repeat)] headers, at least one; and for an empty
    payload read with an accepted chunk size, for a chunk size of zero,
    and for a superblock size of zero or below, these headers are all
    that is emitted: no DATA and no FEC frame, and nothing is raised. *)
Theorem generate_frames_only_headers (payload : list byte)
    (m : SessionMetadata) (header_repeat header_interval : Z) :
  (payload = [] /\ -1 <= chunk_size m) \/ chunk_size m = 0
  \/ superblock_data m <= 0 ->
  sender.generate_frames payload m header_repeat header_interval
  = replicate (Z.to_nat (Z.max 1 header_repeat)) (sender._header_frame m 0)
  /\ (1 <= Z.to_nat (Z.max 1 header_repeat))%nat.
Proof.
  intros Hcase. split; [|lia]. unfold sender.generate_frames.
  rewrite <- (app_nil_r (replicate _ _)) at 2. f_equal.
  destruct Hcase as [[-> _]|[Hcs|Hsd]].
  - rewrite iter_chunks_nil. cbn. by rewrite take_nil.
  - rewrite Hcs, iter_chunks_zero. cbn. by rewrite take_nil.
  - cbn [sender.superblock_loop].
    replace (Z.to_nat (superblock_data m)) with 0%nat by lia. done.
Qed.

End empty_plan.

Section sender_plan.
Context `{Externals}.
Variables (file : list byte) (m : SessionMetadata).

Hypothesis chunk_size_pos : 0 < chunk_size m.
Hypothesis superblock_data_pos : 0 < superblock_data m.
Hypothesis total_size_file : total_size m = Z.of_nat (length file).
Hypothesis total_chunks_est :
  total_chunks m = estimate_total_chunks (total_size m) (chunk_size m).

(** The block id that follows superblock [s]: where the next superblock
    starts, or the end of the payload. *)
Definition superblock_end (s : Z) : Z :=
  Z.min ((s + 1) * superblock_data m) (total_chunks m).

(** What every field of an emitted frame is, by the type of the frame. *)
Definition planned (f : Frame) : Prop :=
  frames.session_id f = models.session_id m /\
  total_blocks f = total_chunks m /\
  flags f = 0 /\
  match frame_type f with
  | SESSION_HEADER =>
      superblock_id f = 0 /\ block_id f = 0 /\ blocks_in_super f = 0 /\
      payload f = encode_metadata m
  | DATA =>
      0 <= block_id f < total_chunks m /\
      superblock_id f = block_id f / superblock_data m /\
      blocks_in_super f
      = Z.of_nat (length (superblock_chunks file m (superblock_id f))) /\
      session_chunks file m !! Z.to_nat (block_id f) = Some (payload f)
  | FEC =>
      0 <= superblock_id f /\
      superblock_chunks file m (superblock_id f) <> [] /\
      blocks_in_super f
      = Z.of_nat (length (superblock_chunks file m (superblock_id f))) /\
      payload f
      = fec.xor_parity_block (superblock_chunks file m (superblock_id f)) /\
      superblock_end (superblock_id f) <= block_id f
        < superblock_end (superblock_id f) + redundancy m
  | INDEX => False
  end.

Lemma header_frame_planned : planned (sender._header_frame m 0).
Proof. unfold planned. cbn. by auto 10. Qed.

Lemma superblock_loop_planned fuel hi b s :
  0 <= s -> b = s * superblock_data m ->
  (length (drop (Z.to_nat b) (session_chunks file m)) < fuel)%nat ->
  Forall planned
    (sender.superblock_loop fuel m (sender._header_frame m 0) hi
       (drop (Z.to_nat b) (session_chunks file m)) b s).
Proof.
  revert b s.
  induction fuel as [|fuel IH]; intros b s Hs Hb Hfuel; [lia|].
  assert (0 <= b) as Hb0 by nia.
  cbn [sender.superblock_loop].
  set (n := Z.to_nat (superblock_data m)).
  set (rest := drop (Z.to_nat b) (session_chunks file m)) in *.
  assert (0 < n)%nat as Hn by lia.
  assert (take n rest = superblock_chunks file m s) as Hsuper.
  { unfold superblock_chunks, rest, n. by rewrite Hb. }
  assert (forall (k : nat) blk,
            take n rest !! k = Some blk ->
            session_chunks file m !! Z.to_nat (b + Z.of_nat k) = Some blk)
    as Hlookup.
  { intros k blk [Hk _]%lookup_take_Some. unfold rest in Hk.
    rewrite lookup_drop in Hk.
    by replace (Z.to_nat (b + Z.of_nat k)) with (Z.to_nat b + k)%nat
      by lia. }
  pose proof (total_chunks_length file m chunk_size_pos total_size_file
                total_chunks_est) as Htc.
  assert (length rest = (length (session_chunks file m) - Z.to_nat b)%nat)
    as Hlr by apply length_drop.
  destruct (take n rest) as [|c cs] eqn:Htake; [constructor|].
  rewrite <- Htake in *.
  set (blocks := take n rest) in *.
  assert (0 < length blocks)%nat as Hpos by (rewrite Htake; cbn; lia).
  assert (length blocks = Nat.min n (length rest)) as Hlen
    by apply length_take.
  assert (b + Z.of_nat (length blocks) = superblock_end s) as Hend.
  { unfold superblock_end.
    replace ((s + 1) * superblock_data m) with (b + superblock_data m)
      by lia.
    lia. }
  repeat apply Forall_app_2.
  - apply Forall_forall. intros f (k & blk & -> & Hk)%elem_of_lookup_imap.
    pose proof (lookup_lt_Some _ _ _ Hk) as Hklt.
    pose proof (Hlookup k blk Hk) as Hchunk.
    assert (b + Z.of_nat k < total_chunks m) as Hbelow.
    { apply (session_chunk_below file m chunk_size_pos total_size_file
               total_chunks_est _ blk); [lia|done]. }
    assert ((b + Z.of_nat k) / superblock_data m = s) as Hdiv.
    { symmetry. apply (Z.div_unique _ _ s (Z.of_nat k)); lia. }
    unfold planned. cbn. rewrite Hdiv, <- Hsuper.
    repeat split; (done || lia).
  - apply Forall_forall. intros f (k & p & -> & Hk)%elem_of_lookup_imap.
    pose proof (list_elem_of_lookup_2 _ _ _ Hk) as Hp.
    apply elem_of_generate_parity_blocks in Hp.
    assert (0 < redundancy m /\ (k < Z.to_nat (redundancy m))%nat)
      as [Hred Hk'].
    { unfold fec.generate_parity_blocks in Hk.
      destruct (Z.leb_spec (redundancy m) 0); [done|].
      apply lookup_replicate in Hk as [_ Hk]. lia. }
    unfold planned. cbn. rewrite <- Hsuper, <- Hend.
    repeat split; try (done || lia).
    intros Hnil. rewrite Hnil in Hpos. cbn in Hpos. lia.
  - destruct (_ && _); [|constructor].
    apply Forall_singleton, header_frame_planned.
  - destruct (decide (n <= length rest)%nat) as [Hfull|Hpart].
    + replace (length blocks) with n by lia.
      unfold rest. rewrite drop_drop.
      replace (Z.to_nat b + n)%nat with (Z.to_nat (b + Z.of_nat n)) by lia.
      apply IH; [lia|unfold n; nia|].
      rewrite length_drop. fold rest in Hfuel. lia.
    + rewrite drop_ge, superblock_loop_nil by lia. constructor.
Qed.

Lemma generate_frames_all_planned (header_repeat header_interval : Z) :
  Forall planned
    (sender.generate_frames file m header_repeat header_interval).
Proof.
  unfold sender.generate_frames. apply Forall_app_2.
  - apply Forall_forall. intros f ->%elem_of_replicate_inv.
    apply header_frame_planned.
  - fold (session_chunks file m).
    rewrite <- (drop_0 (session_chunks file m)) at 2.
    apply (superblock_loop_planned _ _ 0 0); [lia|lia|].
    rewrite drop_0. lia.
Qed.

(** X18 (sender.py, generate_frames): every field of every emitted
    frame.  All frames carry the session id and the total chunk count.
    A DATA frame has a block id below the chunk count, carries the chunk
    of that id, and names the superblock [block_id div superblock_data]
    with the number of blocks in it.  An FEC frame names a superblock
    that is not empty, carries the XOR parity of its blocks, and its
    block id runs on from the end of the superblock by less than the
    redundancy.  A header carries the encoded metadata.  No INDEX frame
    is emitted. *)
Theorem generate_frames_planned (header_repeat header_interval : Z)
    (f : Frame) :
  f ∈ sender.generate_frames file m header_repeat header_interval ->
  planned f.
Proof.
  intros Hf.
  exact (proj1 (Forall_forall _ _)
           (generate_frames_all_planned header_repeat header_interval)
           f Hf).
Qed.

(** The sizes within which every planned frame fits the wire format. *)
Definition fits_wire : Prop :=
  length (models.session_id m) = 16%nat /\
  Z.of_nat (length (encode_metadata m)) <= 65535 /\
  chunk_size m <= 65535 /\
  superblock_data m < 2 ^ 16 /\
  total_chunks m < 2 ^ 32 /\
  total_chunks m + redundancy m <= 2 ^ 32.

Lemma superblock_chunks_sizes s :
  (length (superblock_chunks file m s) <= Z.to_nat (superblock_data m))%nat
  /\ Forall (fun blk => Z.of_nat (length blk) <= chunk_size m)
       (superblock_chunks file m s).
Proof.
  split; [unfold superblock_chunks; rewrite length_take; lia|].
  apply Forall_forall. intros blk Hblk.
  apply list_elem_of_lookup in Hblk as [k Hk].
  apply superblock_chunks_lookup in Hk.
  apply iter_chunks_length_chunk in Hk as [Hk _]; [lia|done].
Qed.

Lemma planned_valid f : fits_wire -> planned f -> valid_frame f.
Proof.
  intros (Hsid & Hmeta & Hcs & Hsd & Htc & Hred) (Hs & Ht & Hf & Hcase).
  pose proof (total_chunks_length file m chunk_size_pos total_size_file
                total_chunks_est) as Hlen.
  unfold valid_frame, wire_ranges. rewrite Hs, Ht, Hf.
  destruct (frame_type f).
  - destruct Hcase as (-> & -> & -> & ->). lia.
  - destruct Hcase as (Hb & Hsuper & Hin & Hchunk).
    pose proof (superblock_chunks_sizes (superblock_id f)) as [Hk _].
    apply iter_chunks_length_chunk in Hchunk as [Hchunk _]; [|done].
    assert (0 <= superblock_id f <= block_id f).
    { rewrite Hsuper. split; [apply Z.div_pos; lia|].
      apply Z.div_le_upper_bound; nia. }
    lia.
  - destruct Hcase as (Hs0 & Hne & Hin & Hpay & Hb).
    pose proof (superblock_chunks_sizes (superblock_id f)) as [Hk Hall].
    assert (Z.of_nat (length (payload f)) <= chunk_size m) as Hp.
    { rewrite Hpay, length_xor_parity_block.
      assert (max_list (length <$> superblock_chunks file m (superblock_id f))
              ∈ length <$> superblock_chunks file m (superblock_id f))
        as (blk & -> & Hblk)%list_elem_of_fmap.
      { apply max_list_elem_of. by destruct (superblock_chunks _ _ _). }
      by apply (proj1 (Forall_forall _ _) Hall). }
    assert (superblock_id f * superblock_data m < total_chunks m) as Hstart.
    { destruct (superblock_chunks file m (superblock_id f)) as [|blk ?]
        eqn:Hchunks; [done|].
      assert (superblock_chunks file m (superblock_id f) !! 0%nat
              = Some blk) as Hhd by (by rewrite Hchunks).
      apply superblock_chunks_lookup, lookup_lt_Some in Hhd. lia. }
    unfold superblock_end in Hb. nia.
  - done.
Qed.

(** X19 (sender.py, generate_frames and frames_to_qr_strings; frames.py):
    within the sizes of the wire format every emitted frame is valid, so
    turning the plan into texts raises nothing, and decoding the texts
    gives the plan back, frame by frame. *)
Theorem generate_frames_encodable (header_repeat header_interval : Z) :
  fits_wire ->
  Forall valid_frame
    (sender.generate_frames file m header_repeat header_interval) /\
  exists strings,
    sender.frames_to_qr_strings
      (sender.generate_frames file m header_repeat header_interval)
    = Ok strings /\
    from_b64 <$> strings
    = Ok <$> sender.generate_frames file m header_repeat header_interval.
Proof.
  intros Hfits.
  assert (Forall valid_frame
            (sender.generate_frames file m header_repeat header_interval))
    as Hvalid.
  { eapply Forall_impl; [apply generate_frames_all_planned|].
    intros f. by apply planned_valid. }
  split; [done|]. by apply frames_to_qr_strings_valid.
Qed.

End sender_plan.

(** ** receiver.py: the reassembler on arbitrary frames *)

Section reassembler_states.
Context `{Externals}.
Import receiver.

Implicit Types (r : Reassembler) (f : Frame) (m : SessionMetadata).

Lemma ingest_init_no_header f :
  (frame_type f = SESSION_HEADER -> decode_metadata (payload f) = None) ->
  ingest init f = init.
Proof.
  intros Hf. unfold ingest, _handle_header.
  destruct (frame_type f); [by rewrite Hf|done..].
Qed.

(** X20 (receiver.py, Reassembler.ingest): until a session header is
    met whose payload decodes, every frame is dropped: after any
    sequence of DATA, FEC and INDEX frames and of headers that do not
    decode, the reassembler is as it was created. *)
Theorem ingest_nothing_before_header (fs : list Frame) :
  Forall (fun f => frame_type f = SESSION_HEADER ->
                   decode_metadata (payload f) = None) fs ->
  ingest_all init fs = init.
Proof.
  induction 1 as [|f fs Hf _ IH]; [done|].
  cbn [ingest_all fold_left]. rewrite ingest_init_no_header by done.
  exact IH.
Qed.

(** The states that hold a session: metadata and session id are set
    together, by a header that was counted. *)
Definition settled r : Prop :=
  match meta r with
  | None => r = init
  | Some _ => is_Some (session_id r) /\ 1 <= headers_seen r
  end.

Lemma _maybe_recover_headers_seen r s :
  headers_seen (_maybe_recover r s) = headers_seen r.
Proof.
  destruct (_maybe_recover_cases r s) as [->|(?&?&?&?&_&_&_&_&->)]; done.
Qed.

Lemma _maybe_recover_settled r s :
  is_Some (meta r) -> settled r -> settled (_maybe_recover r s).
Proof.
  intros [m Hm]. unfold settled.
  rewrite _maybe_recover_meta, _maybe_recover_session,
    _maybe_recover_headers_seen, Hm. done.
Qed.

Lemma ingest_settled r f : settled r -> settled (ingest r f).
Proof.
  intros Hr. unfold ingest, _handle_header.
  destruct (frame_type f).
  - destruct (decode_metadata (payload f)); [|done].
    destruct (other_session r f); [done|].
    unfold settled in *. cbn. split; [done|].
    destruct (meta r); [lia|]. rewrite Hr. cbn. lia.
  - destruct (other_session r f); [done|].
    destruct (meta r) as [m|] eqn:Hm; [|done].
    destruct (data_blocks r !! block_id f); [done|].
    apply _maybe_recover_settled; [by exists m|].
    unfold settled in *. cbn. by rewrite Hm in *.
  - destruct (other_session r f); [done|].
    destruct (meta r) as [m|] eqn:Hm; [|done].
    apply _maybe_recover_settled; [by exists m|].
    unfold settled in *. cbn. by rewrite Hm in *.
  - destruct (other_session r f); [done|]. by destruct (meta r).
Qed.

Lemma ingest_all_settled r fs : settled r -> settled (ingest_all r fs).
Proof.
  revert r. induction fs as [|f fs IH]; intros r Hr; [done|].
  cbn [ingest_all fold_left]. by apply IH, ingest_settled.
Qed.

(** X21 (receiver.py, Reassembler.ingest and _handle_header): whatever
    frames a new reassembler is fed, either it has no metadata and is
    still exactly as created (no session id, no block, no parity, no
    header counted), or it has metadata together with a session id and
    at least one counted header. *)
Theorem reachable_states (fs : list Frame) :
  match meta (ingest_all init fs) with
  | None => ingest_all init fs = init
  | Some _ =>
      is_Some (session_id (ingest_all init fs)) /\
      1 <= headers_seen (ingest_all init fs)
  end.
Proof.
  assert (settled init) as Hinit by done.
  exact (ingest_all_settled init fs Hinit).
Qed.

(** X22 (receiver.py, Reassembler.ingest and _maybe_recover): no frame
    ever removes or changes a stored block: the blocks held before a
    sequence of frames are held unchanged after it, whatever the frames
    are. *)
Theorem ingest_all_keeps_blocks r (fs : list Frame) :
  data_blocks r ⊆ data_blocks (ingest_all r fs).
Proof.
  apply map_subseteq_spec. intros i blk Hblk.
  by apply ingest_all_preserves.
Qed.

(** X23 (receiver.py, Reassembler.ingest): a DATA frame that is ingested
    a second time changes nothing, in any state and whether or not the
    first copy was accepted. *)
Theorem ingest_data_twice r f :
  frame_type f = DATA -> ingest (ingest r f) f = ingest r f.
Proof.
  intros Ht. unfold ingest at 2 3. rewrite Ht.
  destruct (other_session r f) eqn:Hother.
  { unfold ingest. by rewrite Ht, Hother. }
  destruct (meta r) as [m|] eqn:Hm.
  2:{ unfold ingest. by rewrite Ht, Hother, Hm. }
  destruct (data_blocks r !! block_id f) as [blk|] eqn:Hblk.
  { unfold ingest. by rewrite Ht, Hother, Hm, Hblk. }
  set (r' := _maybe_recover
               (set_data_block r (block_id f) (payload f))
               (superblock_id f)).
  assert (other_session r' f = false) as Hother'.
  { unfold other_session, r' in *. by rewrite _maybe_recover_session. }
  assert (meta r' = Some m) as Hm'.
  { unfold r'. by rewrite _maybe_recover_meta. }
  assert (data_blocks r' !! block_id f = Some (payload f)) as Hblk'.
  { apply _maybe_recover_preserves. cbn. apply lookup_insert_eq. }
  unfold ingest. by rewrite Ht, Hother', Hm', Hblk'.
Qed.

Lemma write_blocks_first_missing (blocks : gmap Z (list byte))
    (idx : list Z) :
  write_blocks blocks idx
  = match filter (fun i => blocks !! i = None) idx with
    | [] => Ok (concat (omap (fun i => blocks !! i) idx))
    | i :: _ => Raise (RuntimeError (MissingBlock i))
    end.
Proof.
  induction idx as [|i idx IH]; [done|].
  cbn [write_blocks omap list_omap].
  destruct (blocks !! i) as [blk|] eqn:Hi.
  - rewrite filter_cons_False by (by rewrite Hi).
    rewrite IH. by destruct (filter _ idx).
  - by rewrite filter_cons_True.
Qed.

(** X24 (receiver.py, Reassembler.write_payload): with metadata present
    the function goes through the block ids below [total_chunks] in
    order: it raises for the least id that is not stored, and when none
    is missing it writes the stored blocks of these ids, joined in
    order; blocks stored under other ids are not written. *)
Theorem write_payload_first_missing r m :
  meta r = Some m ->
  write_payload r
  = match missing r (seqZ 0 (total_chunks m)) with
    | [] => Ok (concat (known r (seqZ 0 (total_chunks m))))
    | i :: _ => Raise (RuntimeError (MissingBlock i))
    end.
Proof.
  intros Hm. unfold write_payload, missing, known. rewrite Hm.
  apply write_blocks_first_missing.
Qed.

End reassembler_states.

(** ** receiver.py and sender.py: reassembly when frames are lost *)

Section loss_recovery.
Context `{Externals}.
Import receiver.
Variables (file : list byte) (m : SessionMetadata).

Hypothesis chunk_size_pos : 0 < chunk_size m.
Hypothesis superblock_data_pos : 0 < superblock_data m.
Hypothesis total_size_file : total_size m = Z.of_nat (length file).
Hypothesis total_chunks_est :
  total_chunks m = estimate_total_chunks (total_size m) (chunk_size m).

Implicit Types (r : Reassembler) (f : Frame).

(** A DATA frame that names the superblock its block id lies in. *)
Definition well_placed f : Prop :=
  frame_type f = DATA -> superblock_id f = block_id f / superblock_data m.

(** No superblock with a parity copy is left with exactly one block
    missing: every recovery that was possible has been done. *)
Definition closed_at r (s : Z) : Prop :=
  forall p held,
    parity_blocks r !! s = Some (p :: held) ->
    length (missing r (indices m s)) <> 1%nat.

Lemma superblock_parity_nonempty s :
  superblock_chunks file m s <> [] ->
  fec.xor_parity_block (superblock_chunks file m s) <> [].
Proof.
  intros Hne. apply xor_parity_block_nonempty.
  destruct (superblock_chunks file m s) as [|blk rest] eqn:Hs; [done|].
  apply Exists_cons_hd.
  assert (superblock_chunks file m s !! 0%nat = Some blk) as Hhd
    by (by rewrite Hs).
  apply superblock_chunks_lookup in Hhd.
  by apply (session_chunk_nonempty file m chunk_size_pos _ _ Hhd).
Qed.

Lemma length_one_inv {A} (l : list A) :
  length l = 1%nat -> exists x, l = [x].
Proof. destruct l as [|x [|]]; try done. by exists x. Qed.

Lemma _maybe_recover_closed_at r s :
  consistent file m r -> closed_at (_maybe_recover r s) s.
Proof.
  intros Hc p held Hpar Hlen.
  rewrite _maybe_recover_parity in Hpar.
  destruct (consistent_parity file m r Hc s _ Hpar) as (Hs & Hne & Hheld).
  apply Forall_cons in Hheld as [Hp _].
  pose proof (superblock_parity_nonempty s Hne) as Hpne.
  rewrite Hp in Hpne.
  pose proof (consistent_meta file m r Hc) as Hm.
  destruct (_maybe_recover_cases r s)
    as [Heq|(m'&j&p0&rest&Hm'&Hmiss&Hpar'&Hp0&Heq)].
  - rewrite Heq in Hlen. apply length_one_inv in Hlen as [j Hj].
    pose proof (_maybe_recover_single r m s j p held Hm Hj Hpar Hpne)
      as Hrec.
    rewrite Heq in Hrec.
    assert (j ∈ missing r (indices m s)) as Hin
      by (rewrite Hj; apply list_elem_of_here).
    apply elem_of_missing in Hin as [_ Hnone].
    apply (f_equal (fun x => data_blocks x !! j)) in Hrec.
    cbn in Hrec. rewrite lookup_insert_eq, Hnone in Hrec. done.
  - assert (m' = m) as -> by congruence.
    rewrite Heq in Hlen.
    match type of Hlen with
    | length ?l = _ => destruct l as [|x l'] eqn:Hx; [done|]
    end.
    assert (x ∈ x :: l') as Hin by apply list_elem_of_here.
    rewrite <- Hx in Hin. apply elem_of_missing in Hin as [Hxi Hxn].
    cbn in Hxn.
    destruct (decide (x = j)) as [->|Hxj];
      [by rewrite lookup_insert_eq in Hxn|].
    rewrite lookup_insert_ne in Hxn by done.
    assert (x ∈ missing r (indices m s)) as Hxm
      by (by apply elem_of_missing).
    rewrite Hmiss in Hxm. by apply list_elem_of_singleton in Hxm.
Qed.

Lemma missing_set_other r j (v : list byte) (idx : list Z) :
  j ∉ idx -> missing (set_data_block r j v) idx = missing r idx.
Proof.
  intros Hj. unfold missing. cbn [set_data_block data_blocks].
  induction idx as [|i idx IH]; [done|].
  apply not_elem_of_cons in Hj as [Hne Hj].
  rewrite !filter_cons, lookup_insert_ne, IH by done. done.
Qed.

Lemma _maybe_recover_closed r s :
  consistent file m r ->
  (forall t, t <> s -> closed_at r t) ->
  forall t, closed_at (_maybe_recover r s) t.
Proof.
  intros Hc Hothers t.
  destruct (decide (t = s)) as [->|Hts];
    [by apply _maybe_recover_closed_at|].
  intros p held Hpar. rewrite _maybe_recover_parity in Hpar.
  destruct (_maybe_recover_cases r s)
    as [->|(m'&j&p0&rest&Hm'&Hmiss&_&_&->)];
    [by apply (Hothers t Hts p held)|].
  assert (m' = m) as ->
    by (pose proof (consistent_meta file m r Hc); congruence).
  rewrite missing_set_other; [by apply (Hothers t Hts p held)|].
  intros Hjt.
  assert (j ∈ missing r (indices m s)) as Hjs
    by (rewrite Hmiss; apply list_elem_of_here).
  apply elem_of_missing in Hjs as [Hjs _].
  apply Hts. by apply (indices_disjoint m t s j).
Qed.

Lemma set_data_block_consistent r f :
  consistent file m r -> genuine file m f -> frame_type f = DATA ->
  consistent file m (set_data_block r (block_id f) (payload f)).
Proof.
  intros [Hmeta Hsess Hblocks Hparity] [_ Hf] Ht. rewrite Ht in Hf.
  split; cbn [set_data_block meta session_id data_blocks parity_blocks];
    try done.
  intros i blk Hi. destruct (decide (i = block_id f)) as [->|Hne].
  - rewrite lookup_insert_eq in Hi. injection Hi as <-. done.
  - rewrite lookup_insert_ne in Hi by done. by apply Hblocks.
Qed.

Lemma append_parity_consistent r f :
  consistent file m r -> genuine file m f -> frame_type f = FEC ->
  consistent file m (append_parity r (superblock_id f) (payload f)).
Proof.
  intros [Hmeta Hsess Hblocks Hparity] [_ Hf] Ht. rewrite Ht in Hf.
  destruct Hf as (Hs & Hne & Hpay).
  split; cbn [append_parity meta session_id data_blocks parity_blocks];
    try done.
  intros s held Hheld.
  destruct (decide (s = superblock_id f)) as [->|Hs'].
  - rewrite lookup_insert_eq in Hheld. injection Hheld as <-.
    split; [done|]. split; [done|].
    apply Forall_app. split; [|by apply Forall_singleton].
    destruct (parity_blocks r !! superblock_id f) as [old|] eqn:Hold;
      [|done].
    by apply Hparity in Hold as (_ & _ & ?).
  - rewrite lookup_insert_ne in Hheld by done. by apply Hparity.
Qed.

Lemma well_placed_index f :
  genuine file m f -> well_placed f -> frame_type f = DATA ->
  block_id f ∈ indices m (superblock_id f).
Proof.
  intros [_ Hf] Hw Ht. rewrite Ht in Hf. destruct Hf as [Hb0 Hchunk].
  pose proof (session_chunk_below file m chunk_size_pos total_size_file
                total_chunks_est (block_id f) _ Hb0 Hchunk).
  apply elem_of_indices. rewrite (Hw Ht).
  pose proof (Z.div_mod (block_id f) (superblock_data m)).
  pose proof (Z.mod_pos_bound (block_id f) (superblock_data m)).
  split; [nia|lia].
Qed.

Lemma ingest_closed r f :
  consistent file m r -> genuine file m f -> well_placed f ->
  (forall t, closed_at r t) -> forall t, closed_at (ingest r f) t.
Proof.
  intros Hc Hf Hw Hcl.
  pose proof (genuine_same_session file m r f Hc Hf) as Hsame.
  pose proof (consistent_meta file m r Hc) as Hm.
  unfold ingest, _handle_header.
  destruct (frame_type f) eqn:Ht; rewrite ?Hsame, ?Hm.
  - destruct Hf as [_ Hf]. rewrite Ht in Hf. rewrite Hf.
    intros t p held Hpar. by apply (Hcl t p held).
  - destruct (data_blocks r !! block_id f) eqn:Hb; [done|].
    apply _maybe_recover_closed; [by apply set_data_block_consistent|].
    intros t Hts p held Hpar.
    rewrite missing_set_other; [by apply (Hcl t p held)|].
    intros Hin. apply Hts.
    apply (indices_disjoint m t (superblock_id f) (block_id f)); [done|].
    by apply well_placed_index.
  - apply _maybe_recover_closed; [by apply append_parity_consistent|].
    intros t Hts p held Hpar.
    cbn [append_parity parity_blocks] in Hpar.
    rewrite lookup_insert_ne in Hpar by done.
    by apply (Hcl t p held).
  - done.
Qed.

Lemma ingest_all_closed r fs :
  consistent file m r -> (forall t, closed_at r t) ->
  Forall (genuine file m) fs -> Forall well_placed fs ->
  forall t, closed_at (ingest_all r fs) t.
Proof.
  intros Hc Hcl Hfs Hws. revert r Hc Hcl Hws.
  induction Hfs as [|f fs Hf _ IH]; intros r Hc Hcl Hws; [done|].
  apply Forall_cons in Hws as [Hw Hws].
  cbn [ingest_all fold_left]. apply IH; [|by apply ingest_closed|done].
  by apply (ingest_consistent file m).
Qed.

Lemma ingest_parity_kept r f s (p : list byte) held :
  parity_blocks r !! s = Some (p :: held) ->
  exists held', parity_blocks (ingest r f) !! s = Some (p :: held').
Proof.
  intros Hpar. unfold ingest, _handle_header.
  destruct (frame_type f).
  - destruct (decode_metadata (payload f)); [|by eauto].
    destruct (other_session r f); by eauto.
  - destruct (other_session r f); [by eauto|].
    destruct (meta r); [|by eauto].
    destruct (data_blocks r !! block_id f); [by eauto|].
    rewrite _maybe_recover_parity. by eauto.
  - destruct (other_session r f); [by eauto|].
    destruct (meta r); [|by eauto].
    rewrite _maybe_recover_parity. cbn [append_parity parity_blocks].
    destruct (decide (superblock_id f = s)) as [->|Hne].
    + rewrite lookup_insert_eq, Hpar. cbn. by eauto.
    + rewrite lookup_insert_ne by done. by eauto.
  - destruct (other_session r f); [by eauto|]. destruct (meta r); by eauto.
Qed.

Lemma ingest_all_parity_kept r fs s (p : list byte) held :
  parity_blocks r !! s = Some (p :: held) ->
  exists held', parity_blocks (ingest_all r fs) !! s = Some (p :: held').
Proof.
  revert r held. induction fs as [|f fs IH]; intros r held Hpar;
    [by eauto|].
  destruct (ingest_parity_kept r f s p held Hpar) as [held' Hpar'].
  cbn [ingest_all fold_left]. by apply (IH _ held').
Qed.

Lemma ingest_fec_held r f :
  consistent file m r -> genuine file m f -> frame_type f = FEC ->
  exists p held,
    parity_blocks (ingest r f) !! superblock_id f = Some (p :: held).
Proof.
  intros Hc Hf Ht.
  pose proof (genuine_same_session file m r f Hc Hf) as Hsame.
  unfold ingest. rewrite Ht, Hsame, (consistent_meta file m r Hc).
  rewrite _maybe_recover_parity. cbn [append_parity parity_blocks].
  rewrite lookup_insert_eq.
  destruct (parity_blocks r !! superblock_id f) as [[|q l]|]; cbn;
    by eauto.
Qed.

Lemma ingest_all_fec_held r fs f :
  consistent file m r -> Forall (genuine file m) fs ->
  f ∈ fs -> frame_type f = FEC ->
  exists p held,
    parity_blocks (ingest_all r fs) !! superblock_id f = Some (p :: held).
Proof.
  intros Hc Hfs. revert r Hc.
  induction Hfs as [|g fs Hg _ IH]; intros r Hc Hin Ht;
    [by apply elem_of_nil in Hin|].
  cbn [ingest_all fold_left].
  apply elem_of_cons in Hin as [->|Hin].
  - destruct (ingest_fec_held r g Hc Hg Ht) as (p & held & Hpar).
    destruct (ingest_all_parity_kept _ fs _ p held Hpar) as [held' ?].
    by eauto.
  - apply IH; [|done..]. by apply (ingest_consistent file m).
Qed.

(** What reached the receiver: a DATA frame of a block, an FEC frame of
    a superblock. *)
Definition delivered (fs : list Frame) (i : Z) : Prop :=
  exists f, f ∈ fs /\ frame_type f = DATA /\ block_id f = i.

Definition protected (fs : list Frame) (s : Z) : Prop :=
  exists f, f ∈ fs /\ frame_type f = FEC /\ superblock_id f = s.

(** Every block was delivered, or it is the only block of its
    superblock that was not and a parity frame of the superblock was. *)
Definition recoverable (fs : list Frame) : Prop :=
  forall i, 0 <= i < total_chunks m ->
    delivered fs i \/
    (protected fs (i / superblock_data m) /\
     forall j, j ∈ indices m (i / superblock_data m) -> j <> i ->
               delivered fs j).

Lemma reassembly_with_losses hdr fs :
  genuine file m hdr -> frame_type hdr = SESSION_HEADER ->
  Forall (genuine file m) fs -> Forall well_placed fs ->
  recoverable fs ->
  is_complete (ingest_all init (hdr :: fs)) = true /\
  write_payload (ingest_all init (hdr :: fs)) = Ok file.
Proof.
  intros Hhdr Ht Hfs Hws Hrec. cbn [ingest_all fold_left].
  pose proof (adopt_consistent file m hdr Hhdr Ht) as Hc0.
  assert (forall t, closed_at (ingest init hdr) t) as Hcl0.
  { intros t p held Hpar. exfalso. revert Hpar.
    unfold ingest, _handle_header. rewrite Ht.
    destruct Hhdr as [_ Hdec]. rewrite Ht in Hdec. rewrite Hdec.
    cbn. by rewrite lookup_empty. }
  destruct (ingest_all_consistent file m chunk_size_pos superblock_data_pos
              total_size_file total_chunks_est (ingest init hdr) fs Hc0 Hfs)
    as [Hc Hpresent].
  pose proof (ingest_all_closed (ingest init hdr) fs Hc0 Hcl0 Hfs Hws)
    as Hcl.
  fold (ingest_all (ingest init hdr) fs).
  apply (consistent_all_present_writes file m); try done.
  intros i Hi.
  destruct (data_blocks (ingest_all (ingest init hdr) fs) !! i) as [blk|]
    eqn:Hnone; [by eexists|exfalso].
  destruct (Hrec i Hi) as [(f&Hf&Hft&<-)|[(f&Hf&Hft&Hs) Hothers]].
  - destruct (Hpresent f Hf Hft) as [blk Hblk]. congruence.
  - destruct (ingest_all_fec_held (ingest init hdr) fs f Hc0 Hfs Hf Hft)
      as (p & held & Hpar).
    rewrite Hs in Hpar. apply (Hcl _ p held Hpar).
    rewrite (missing_single _ _ i); [done|apply NoDup_indices| |].
    + apply elem_of_indices.
      pose proof (Z.div_mod i (superblock_data m)).
      pose proof (Z.mod_pos_bound i (superblock_data m)).
      split; [nia|lia].
    + intros j Hj. split; [|by intros ->].
      intros Hjn. destruct (decide (j = i)) as [|Hne]; [done|].
      destruct (Hothers j Hj Hne) as (g&Hg&Hgt&<-).
      destruct (Hpresent g Hg Hgt) as [blk Hblk]. congruence.
Qed.

(** X25 (receiver.py, Reassembler.ingest and _maybe_recover; sender.py,
    generate_frames; fec.py): single-loss recovery works end to end.
    Of the emitted frames a header arrives first and then any of the
    others, in any order and any number of times; if every block is
    either delivered by its DATA frame or is the only undelivered block
    of a superblock of which an FEC frame is delivered, the reassembler
    is complete and writes exactly the payload file. *)
Theorem reassembly_despite_single_losses
    (header_repeat header_interval : Z) (hdr : Frame) (fs : list Frame) :
  decode_metadata (encode_metadata m) = Some m ->
  frame_type hdr = SESSION_HEADER ->
  (forall f, f ∈ hdr :: fs ->
     f ∈ sender.generate_frames file m header_repeat header_interval) ->
  recoverable fs ->
  is_complete (ingest_all init (hdr :: fs)) = true /\
  write_payload (ingest_all init (hdr :: fs)) = Ok file.
Proof.
  intros Hdec Ht Hsub Hrec.
  pose proof (generate_frames_genuine file m chunk_size_pos
                superblock_data_pos total_size_file total_chunks_est Hdec
                header_repeat header_interval) as Hgen.
  pose proof (generate_frames_all_planned file m chunk_size_pos
                superblock_data_pos total_size_file total_chunks_est
                header_repeat header_interval) as Hplan.
  rewrite Forall_forall in Hgen, Hplan.
  apply reassembly_with_losses; [|done| | |done].
  - apply Hgen, Hsub, list_elem_of_here.
  - apply Forall_forall. intros f Hf.
    by apply Hgen, Hsub, list_elem_of_further.
  - apply Forall_forall. intros f Hf Hft.
    assert (planned file m f) as (_ & _ & _ & Hcase)
      by (by apply Hplan, Hsub, list_elem_of_further).
    rewrite Hft in Hcase. by destruct Hcase as (_ & ? & _).
Qed.

End loss_recovery.

(** ** receiver.py: the capture loop of [process_stream] *)

Section stream_properties.
Context `{Externals}.
Import receiver.

Implicit Types (r : Reassembler) (f : Frame).

Lemma receiver_file_sha256 (file : list byte) :
  _file_sha256 file = sha256_hexdigest file.
Proof.
  unfold _file_sha256.
  by rewrite fold_left_append_chunks, read_loop_concat by lia.
Qed.

(** X26 (chunker.py and receiver.py, _file_sha256): the digest of a file
    that is read in buffers of 256 KiB is the digest of the whole file,
    for the sender's copy of the function and for the receiver's. *)
Theorem file_sha256_whole_file (hexdigest : list byte -> string)
    (file : list byte) :
  chunker._file_sha256 hexdigest file = hexdigest file /\
  _file_sha256 file = sha256_hexdigest file.
Proof.
  split; [|apply receiver_file_sha256].
  unfold chunker._file_sha256.
  rewrite fold_left_append_chunks, read_loop_concat; [done| |lia].
  apply READ_BUF_pos.
Qed.

(** A text the loop skips: empty, or refused with [FrameError]. *)
Definition skipped (data : string) : Prop :=
  data = EmptyString \/ exists why, from_b64 data = Raise (FrameError why).

Lemma ingest_decoded_skipped r data :
  skipped data -> ingest_decoded r data = Ok r.
Proof.
  intros [->|[why Hwhy]]; [done|].
  unfold ingest_decoded. destruct data; [done|]. by rewrite Hwhy.
Qed.

Lemma from_b64_Ok_nonempty data f :
  from_b64 data = Ok f -> data <> EmptyString.
Proof. intros Hf ->. by vm_compute in Hf. Qed.

Lemma ingest_decoded_ok r data f :
  from_b64 data = Ok f -> ingest_decoded r data = Ok (ingest r f).
Proof.
  intros Hf. pose proof (from_b64_Ok_nonempty data f Hf).
  unfold ingest_decoded. destruct data; [done|]. by rewrite Hf.
Qed.



Lemma ingest_decoded_info_skipped r (decoded_info : list string) :
  Forall skipped decoded_info ->
  ingest_decoded_info r decoded_info = Ok r.
Proof.
  induction 1 as [|data rest Hd _ IH]; [done|].
  cbn [ingest_decoded_info]. by rewrite ingest_decoded_skipped.
Qed.

(** A text the reassembler ignores as long as it has no session:
    skipped, or a frame that is not a header whose payload decodes. *)
Definition ignored (data : string) : Prop :=
  skipped data \/
  exists f, from_b64 data = Ok f /\
    (frame_type f = SESSION_HEADER -> decode_metadata (payload f) = None).

Lemma ingest_decoded_info_ignored (decoded_info : list string) :
  Forall ignored decoded_info ->
  ingest_decoded_info init decoded_info = Ok init.
Proof.
  induction 1 as [|data rest Hd _ IH]; [done|].
  cbn [ingest_decoded_info].
  destruct Hd as [Hs|(f & Hf & Hh)].
  - by rewrite ingest_decoded_skipped.
  - rewrite (ingest_decoded_ok init data f Hf). cbn [bind].
    by rewrite ingest_init_no_header.
Qed.

(** X27 (receiver.py, process_stream): a capture that ends without a
    session header that decodes, whatever else it shows (nothing at
    all, empty texts, texts that are no frames, DATA and FEC frames),
    ends in the error "No session header received"; nothing is
    written. *)
Theorem process_stream_no_header (captures : list (list string)) :
  Forall (Forall ignored) captures ->
  process_stream captures = Failed NoSessionHeader.
Proof.
  intros Hall.
  assert (capture_loop init captures = Ok init) as Hloop.
  { induction Hall as [|decoded_info rest Hd _ IH]; [done|].
    cbn [capture_loop].
    rewrite ingest_decoded_info_ignored by done. cbn [bind]. exact IH. }
  unfold process_stream. by rewrite Hloop.
Qed.

(** X28 (receiver.py, process_stream; frames.py, Frame.from_b64): a text
    whose frame type byte is unknown makes [from_b64] raise
    [ValueError], which the loop does not catch: met in the first image
    after texts that are skipped, it ends [process_stream] with that
    exception, and the rest of the capture is never read. *)
Theorem process_stream_unknown_type_aborts (before after : list string)
    (data : string) (captures : list (list string)) :
  Forall skipped before ->
  from_b64 data = Raise ValueError ->
  process_stream ((before ++ data :: after) :: captures)
  = Failed (Propagated ValueError).
Proof.
  intros Hbefore Hdata.
  assert (forall r, ingest_decoded_info r (before ++ data :: after)
                    = Raise ValueError) as Hinfo.
  { intros r. induction Hbefore as [|d rest Hd _ IH].
    - cbn [app ingest_decoded_info]. unfold ingest_decoded.
      destruct data; [by vm_compute in Hdata|]. by rewrite Hdata.
    - cbn [app ingest_decoded_info].
      by rewrite ingest_decoded_skipped. }
  unfold process_stream. cbn [capture_loop]. by rewrite Hinfo.
Qed.

End stream_properties.

Section stream_end_to_end.
Context `{Externals}.
Import receiver.
Variables (file : list byte) (m : SessionMetadata).

Hypothesis chunk_size_pos : 0 < chunk_size m.
Hypothesis superblock_data_pos : 0 < superblock_data m.
Hypothesis total_size_file : total_size m = Z.of_nat (length file).
Hypothesis total_chunks_est :
  total_chunks m = estimate_total_chunks (total_size m) (chunk_size m).



End stream_end_to_end.

(** ** receiver.py: the adopted session *)

Section session_stickiness.
Context `{Externals}.
Import receiver.

Implicit Types (r : Reassembler) (f : Frame).

Lemma ingest_session_kept r f (sid : list byte) :
  session_id r = Some sid -> sid <> [] ->
  session_id (ingest r f) = Some sid.
Proof.
  intros Hsid Hne. unfold ingest, _handle_header.
  destruct (frame_type f).
  - destruct (decode_metadata (payload f)); [|done].
    destruct (other_session r f) eqn:Hother; [done|].
    unfold other_session in Hother. rewrite Hsid in Hother.
    destruct sid as [|b sid]; [done|].
    apply negb_false_iff, bool_decide_eq_true_1 in Hother.
    cbn. by rewrite Hother.
  - destruct (other_session r f); [done|].
    destruct (meta r); [|done].
    destruct (data_blocks r !! block_id f); [done|].
    by rewrite _maybe_recover_session.
  - destruct (other_session r f); [done|].
    destruct (meta r); [|done].
    by rewrite _maybe_recover_session.
  - destruct (other_session r f); [done|]. by destruct (meta r).
Qed.

(** X30 (receiver.py, Reassembler.ingest and _handle_header): once a
    session id that is not empty is adopted, no sequence of frames
    changes it: headers of other sessions are refused like their DATA
    and FEC frames, so a reassembler serves one session for its whole
    life. *)
Theorem session_id_never_changes r (fs : list Frame) (sid : list byte) :
  session_id r = Some sid -> sid <> [] ->
  session_id (ingest_all r fs) = Some sid.
Proof.
  intros Hsid Hne. revert r Hsid.
  induction fs as [|f fs IH]; intros r Hsid; [done|].
  cbn [ingest_all fold_left]. apply IH.
  by apply ingest_session_kept.
Qed.

End session_stickiness.

(** * The further properties on the concrete session *)

Section concrete_further.
Import receiver example.

Ltac conjuncts := repeat match goal with |- _ /\ _ => split end.

(** The texts of the frames of the concrete session, and the text of
    its first DATA frame. *)
Definition example_texts : list string :=
  (fun f => base64.b64encode (wire_frame f)) <$> frames.

Definition data0_text : string := base64.b64encode (wire_frame data0).

Lemma recover_single_missing_restores_witness :
  [[Byte.x01; Byte.x02]; [Byte.x03]] ≡ₚ [Byte.x01; Byte.x02] :: [[Byte.x03]]
  /\ Exists (fun blk : list byte => blk <> [])
       [[Byte.x01; Byte.x02]; [Byte.x03]] /\
  exists recovered,
    fec.recover_single_missing [[Byte.x03]]
      (fec.xor_parity_block [[Byte.x01; Byte.x02]; [Byte.x03]]) 1
    = Some recovered /\
    length recovered
    = max_list (length <$> [[Byte.x01; Byte.x02]; [Byte.x03]]) /\
    take (length [Byte.x01; Byte.x02]) recovered = [Byte.x01; Byte.x02].
Proof.
  assert ([[Byte.x01; Byte.x02]; [Byte.x03]]
          ≡ₚ [Byte.x01; Byte.x02] :: [[Byte.x03]]) as H1 by reflexivity.
  assert (Exists (fun blk : list byte => blk <> [])
            [[Byte.x01; Byte.x02]; [Byte.x03]]) as H2
    by (apply Exists_cons_hd; discriminate).
  split; [exact H1|]. split; [exact H2|].
  exact (recover_single_missing_restores
           [[Byte.x01; Byte.x02]; [Byte.x03]] [[Byte.x03]]
           [Byte.x01; Byte.x02] H1 H2).
Defined.

Lemma iter_chunks_concat_file_witness :
  -1 <= 2 /\ 2 <> 0 /\
  concat (chunker.iter_chunks (bytes_of_string "ABC") 2)
  = bytes_of_string "ABC".
Proof.
  assert (-1 <= 2) as H1 by lia.
  assert (2 <> 0) as H2 by lia.
  split; [exact H1|]. split; [exact H2|].
  exact (iter_chunks_concat_file (bytes_of_string "ABC") 2 H1 H2).
Defined.

Lemma iter_chunks_sizes_witness :
  0 < 2 /\
  chunker.iter_chunks (bytes_of_string "ABC") 2 !! 1%nat
  = Some (bytes_of_string "C") /\
  Z.of_nat (length (chunker.iter_chunks (bytes_of_string "ABC") 2))
  = estimate_total_chunks (Z.of_nat (length (bytes_of_string "ABC"))) 2 /\
  0 < Z.of_nat (length (bytes_of_string "C")) <= 2 /\
  Z.of_nat (length (bytes_of_string "C"))
  = if Z.of_nat 1
       <? estimate_total_chunks
            (Z.of_nat (length (bytes_of_string "ABC"))) 2 - 1
    then 2
    else Z.of_nat (length (bytes_of_string "ABC"))
         - 2 * (estimate_total_chunks
                  (Z.of_nat (length (bytes_of_string "ABC"))) 2 - 1).
Proof.
  assert (0 < 2) as H1 by lia.
  assert (chunker.iter_chunks (bytes_of_string "ABC") 2 !! 1%nat
          = Some (bytes_of_string "C")) as H2 by (vm_compute; reflexivity).
  split; [exact H1|]. split; [exact H2|].
  exact (iter_chunks_sizes (bytes_of_string "ABC") 2 1
           (bytes_of_string "C") H1 H2).
Defined.

Lemma estimate_total_chunks_ceiling_witness :
  0 < 2 /\ 0 <= 5 /\
  2 * (estimate_total_chunks 5 2 - 1) < 5 <= 2 * estimate_total_chunks 5 2.
Proof.
  assert (0 < 2) as H1 by lia.
  assert (0 <= 5) as H2 by lia.
  split; [exact H1|]. split; [exact H2|].
  exact (estimate_total_chunks_ceiling 5 2 H1 H2).
Defined.

Lemma from_bytes_accepts_only_encodings_witness :
  from_bytes (wire_frame data0) = Ok data0 /\
  valid_frame data0 /\ to_bytes data0 = Ok (wire_frame data0).
Proof.
  assert (from_bytes (wire_frame data0) = Ok data0) as H1
    by (vm_compute; reflexivity).
  split; [exact H1|].
  exact (from_bytes_accepts_only_encodings (wire_frame data0) data0 H1).
Defined.

Lemma to_b64_length_witness :
  to_b64 data0 = Ok data0_text /\
  to_bytes data0 = Ok (wire_frame data0) /\
  length (wire_frame data0) = (43 + length (payload data0))%nat /\
  String.length data0_text
  = (4 * ((45 + length (payload data0)) / 3))%nat.
Proof.
  assert (to_b64 data0 = Ok data0_text) as H1 by (vm_compute; reflexivity).
  split; [exact H1|].
  exact (to_b64_length data0 data0_text H1).
Defined.

Lemma from_b64_foreign_character_witness :
  In "!"%char (list_ascii_of_string "QU!D") /\
  "!"%char <> base64.pad /\
  base64.b64_index "!" = None /\
  from_b64 "QU!D" = Raise (FrameError Base64Failed).
Proof.
  assert (In "!"%char (list_ascii_of_string "QU!D")) as H1
    by (right; right; left; reflexivity).
  assert ("!"%char <> base64.pad) as H2 by discriminate.
  assert (base64.b64_index "!" = None) as H3 by (vm_compute; reflexivity).
  split; [exact H1|]. split; [exact H2|]. split; [exact H3|].
  exact (from_b64_foreign_character "!" "QU!D" H1 H2 H3).
Defined.

Lemma batched_sizes_witness :
  0 < 2 /\
  sender._batched [data0; data1; parity0] 2 !! 0%nat = Some [data0; data1]
  /\ 0 < Z.of_nat (length [data0; data1]) <= 2 /\
  ((1 < length (sender._batched [data0; data1; parity0] 2))%nat ->
   Z.of_nat (length [data0; data1]) = 2).
Proof.
  assert (0 < 2) as H1 by lia.
  assert (sender._batched [data0; data1; parity0] 2 !! 0%nat
          = Some [data0; data1]) as H2 by reflexivity.
  split; [exact H1|]. split; [exact H2|].
  exact (batched_sizes [data0; data1; parity0] 2 0 [data0; data1] H1 H2).
Defined.

Lemma batched_nonpositive_witness :
  0 <= 0 /\
  sender._batched [data0; data1; parity0] 0
  = match [data0; data1; parity0] with
    | [] => []
    | _ => [[data0; data1; parity0]]
    end.
Proof.
  assert (0 <= 0) as H1 by lia.
  split; [exact H1|].
  exact (batched_nonpositive [data0; data1; parity0] 0 H1).
Defined.

Lemma frames_to_qr_strings_decode_witness :
  Forall valid_frame [header; data0] /\
  exists strings,
    sender.frames_to_qr_strings [header; data0] = Ok strings /\
    length strings = length [header; data0] /\
    from_b64 <$> strings = Ok <$> [header; data0].
Proof.
  assert (Forall valid_frame [header; data0]) as H1.
  { apply Forall_cons_2;
      [apply valid_example_frame; vm_compute; reflexivity|].
    apply Forall_cons_2;
      [apply valid_example_frame; vm_compute; reflexivity|].
    apply Forall_nil_2. }
  split; [exact H1|].
  exact (frames_to_qr_strings_decode [header; data0] H1).
Defined.

Lemma generate_frames_data_in_order_witness :
  0 < superblock_data example.meta /\
  -1 <= chunk_size example.meta /\
  delivery <$> filter (fun f => frame_type f = DATA)
                 (sender.generate_frames file example.meta
                    config.DEFAULT_HEADER_REPEAT
                    config.DEFAULT_HEADER_INTERVAL)
  = imap (fun k c => (Z.of_nat k, c))
      (chunker.iter_chunks file (chunk_size example.meta)).
Proof.
  assert (0 < superblock_data example.meta) as H1
    by (vm_compute; reflexivity).
  assert (-1 <= chunk_size example.meta) as H2
    by (vm_compute; discriminate).
  split; [exact H1|]. split; [exact H2|].
  exact (generate_frames_data_in_order example.meta H1 file
           config.DEFAULT_HEADER_REPEAT config.DEFAULT_HEADER_INTERVAL H2).
Defined.

Lemma generate_frames_only_headers_witness :
  ((([] : list byte) = [] /\ -1 <= chunk_size example.meta)
   \/ chunk_size example.meta = 0
   \/ superblock_data example.meta <= 0) /\
  sender.generate_frames [] example.meta 3 0
  = replicate (Z.to_nat (Z.max 1 3)) (sender._header_frame example.meta 0)
  /\ (1 <= Z.to_nat (Z.max 1 3))%nat.
Proof.
  assert ((([] : list byte) = [] /\ -1 <= chunk_size example.meta)
          \/ chunk_size example.meta = 0
          \/ superblock_data example.meta <= 0) as H1
    by (left; split; [reflexivity|vm_compute; discriminate]).
  split; [exact H1|].
  exact (generate_frames_only_headers [] example.meta 3 0 H1).
Defined.

Lemma generate_frames_planned_witness :
  0 < chunk_size example.meta /\
  0 < superblock_data example.meta /\
  total_size example.meta = Z.of_nat (length file) /\
  total_chunks example.meta
  = estimate_total_chunks (total_size example.meta)
      (chunk_size example.meta) /\
  parity0 ∈ sender.generate_frames file example.meta
              config.DEFAULT_HEADER_REPEAT config.DEFAULT_HEADER_INTERVAL /\
  planned file example.meta parity0.
Proof.
  assert (0 < chunk_size example.meta) as H1 by (vm_compute; reflexivity).
  assert (0 < superblock_data example.meta) as H2
    by (vm_compute; reflexivity).
  assert (total_size example.meta = Z.of_nat (length file)) as H3
    by reflexivity.
  assert (total_chunks example.meta
          = estimate_total_chunks (total_size example.meta)
              (chunk_size example.meta)) as H4 by reflexivity.
  assert (parity0 ∈ sender.generate_frames file example.meta
                      config.DEFAULT_HEADER_REPEAT
                      config.DEFAULT_HEADER_INTERVAL) as H5.
  { change (parity0 ∈ frames). rewrite frames_emitted.
    apply elem_of_app. right.
    apply list_elem_of_further, list_elem_of_further, list_elem_of_here. }
  split; [exact H1|]. split; [exact H2|]. split; [exact H3|].
  split; [exact H4|]. split; [exact H5|].
  exact (generate_frames_planned file example.meta H1 H2 H3 H4
           config.DEFAULT_HEADER_REPEAT config.DEFAULT_HEADER_INTERVAL
           parity0 H5).
Defined.

Lemma example_fits_wire : fits_wire example.meta.
Proof.
  unfold fits_wire. conjuncts; vm_compute; (reflexivity || discriminate).
Defined.

Lemma generate_frames_encodable_witness :
  0 < chunk_size example.meta /\
  0 < superblock_data example.meta /\
  total_size example.meta = Z.of_nat (length file) /\
  total_chunks example.meta
  = estimate_total_chunks (total_size example.meta)
      (chunk_size example.meta) /\
  fits_wire example.meta /\
  Forall valid_frame
    (sender.generate_frames file example.meta
       config.DEFAULT_HEADER_REPEAT config.DEFAULT_HEADER_INTERVAL) /\
  exists strings,
    sender.frames_to_qr_strings
      (sender.generate_frames file example.meta
         config.DEFAULT_HEADER_REPEAT config.DEFAULT_HEADER_INTERVAL)
    = Ok strings /\
    from_b64 <$> strings
    = Ok <$> sender.generate_frames file example.meta
               config.DEFAULT_HEADER_REPEAT config.DEFAULT_HEADER_INTERVAL.
Proof.
  assert (0 < chunk_size example.meta) as H1 by (vm_compute; reflexivity).
  assert (0 < superblock_data example.meta) as H2
    by (vm_compute; reflexivity).
  assert (total_size example.meta = Z.of_nat (length file)) as H3
    by reflexivity.
  assert (total_chunks example.meta
          = estimate_total_chunks (total_size example.meta)
              (chunk_size example.meta)) as H4 by reflexivity.
  pose proof example_fits_wire as H5.
  split; [exact H1|]. split; [exact H2|]. split; [exact H3|].
  split; [exact H4|]. split; [exact H5|].
  exact (generate_frames_encodable file example.meta H1 H2 H3 H4
           config.DEFAULT_HEADER_REPEAT config.DEFAULT_HEADER_INTERVAL H5).
Defined.

Lemma ingest_nothing_before_header_witness :
  Forall (fun f => frame_type f = SESSION_HEADER ->
                   decode_metadata (payload f) = None)
    [data0; parity0; data1] /\
  ingest_all init [data0; parity0; data1] = init.
Proof.
  assert (Forall (fun f => frame_type f = SESSION_HEADER ->
                           decode_metadata (payload f) = None)
            [data0; parity0; data1]) as H1.
  { apply Forall_cons_2; [intros Ht; discriminate Ht|].
    apply Forall_cons_2; [intros Ht; discriminate Ht|].
    apply Forall_cons_2; [intros Ht; discriminate Ht|].
    apply Forall_nil_2. }
  split; [exact H1|].
  exact (ingest_nothing_before_header [data0; parity0; data1] H1).
Defined.

Lemma ingest_data_twice_witness :
  frame_type data0 = DATA /\
  ingest (ingest (ingest init header) data0) data0
  = ingest (ingest init header) data0.
Proof.
  assert (frame_type data0 = DATA) as H1 by reflexivity.
  split; [exact H1|].
  exact (ingest_data_twice (ingest init header) data0 H1).
Defined.

Lemma write_payload_first_missing_witness :
  receiver.meta (ingest_all init [header; data1]) = Some example.meta /\
  write_payload (ingest_all init [header; data1])
  = match missing (ingest_all init [header; data1])
            (seqZ 0 (total_chunks example.meta)) with
    | [] =>
        Ok (concat (known (ingest_all init [header; data1])
                      (seqZ 0 (total_chunks example.meta))))
    | i :: _ => Raise (RuntimeError (MissingBlock i))
    end.
Proof.
  assert (receiver.meta (ingest_all init [header; data1])
          = Some example.meta) as H1 by (vm_compute; reflexivity).
  split; [exact H1|].
  exact (write_payload_first_missing (ingest_all init [header; data1])
           example.meta H1).
Defined.

Lemma example_recoverable : recoverable example.meta [data0; parity0].
Proof.
  intros i Hi.
  assert (total_chunks example.meta = 2) as Htc by (vm_compute; reflexivity).
  rewrite Htc in Hi.
  assert (i = 0 \/ i = 1) as [-> | ->] by lia.
  - left. exists data0.
    split; [apply list_elem_of_here|]. split; reflexivity.
  - right. split.
    + exists parity0.
      split; [apply list_elem_of_further, list_elem_of_here|].
      split; reflexivity.
    + intros j Hj Hne.
      assert (j = 0) as ->.
      { apply elem_of_indices in Hj as [Hj _].
        assert (superblock_data example.meta = 2) as Hsd
          by (vm_compute; reflexivity).
        rewrite Hsd in Hj. change (1 / 2) with 0 in Hj. lia. }
      exists data0.
      split; [apply list_elem_of_here|]. split; reflexivity.
Defined.

Lemma example_frames_emitted (f : Frame) :
  f ∈ [header; data0; parity0] ->
  f ∈ sender.generate_frames file example.meta
        config.DEFAULT_HEADER_REPEAT config.DEFAULT_HEADER_INTERVAL.
Proof.
  intros Hf. change (f ∈ frames). rewrite frames_emitted.
  apply elem_of_cons in Hf as [->|Hf].
  { apply elem_of_app. left. apply list_elem_of_here. }
  apply elem_of_app. right.
  apply elem_of_cons in Hf as [->|Hf]; [apply list_elem_of_here|].
  apply elem_of_cons in Hf as [->|Hf].
  { apply list_elem_of_further, list_elem_of_further, list_elem_of_here. }
  apply elem_of_nil in Hf. destruct Hf.
Defined.

Lemma reassembly_despite_single_losses_witness :
  0 < chunk_size example.meta /\
  0 < superblock_data example.meta /\
  total_size example.meta = Z.of_nat (length file) /\
  total_chunks example.meta
  = estimate_total_chunks (total_size example.meta)
      (chunk_size example.meta) /\
  decode_metadata (encode_metadata example.meta) = Some example.meta /\
  frame_type header = SESSION_HEADER /\
  (forall f, f ∈ header :: [data0; parity0] ->
     f ∈ sender.generate_frames file example.meta
           config.DEFAULT_HEADER_REPEAT config.DEFAULT_HEADER_INTERVAL) /\
  recoverable example.meta [data0; parity0] /\
  is_complete (ingest_all init (header :: [data0; parity0])) = true /\
  write_payload (ingest_all init (header :: [data0; parity0])) = Ok file.
Proof.
  assert (0 < chunk_size example.meta) as H1 by (vm_compute; reflexivity).
  assert (0 < superblock_data example.meta) as H2
    by (vm_compute; reflexivity).
  assert (total_size example.meta = Z.of_nat (length file)) as H3
    by reflexivity.
  assert (total_chunks example.meta
          = estimate_total_chunks (total_size example.meta)
              (chunk_size example.meta)) as H4 by reflexivity.
  assert (decode_metadata (encode_metadata example.meta)
          = Some example.meta) as H5 by (vm_compute; reflexivity).
  assert (frame_type header = SESSION_HEADER) as H6 by reflexivity.
  pose proof example_frames_emitted as H7.
  pose proof example_recoverable as H8.
  split; [exact H1|]. split; [exact H2|]. split; [exact H3|].
  split; [exact H4|]. split; [exact H5|]. split; [exact H6|].
  split; [exact H7|]. split; [exact H8|].
  exact (reassembly_despite_single_losses file example.meta H1 H2 H3 H4
           config.DEFAULT_HEADER_REPEAT config.DEFAULT_HEADER_INTERVAL
           header [data0; parity0] H5 H6 H7 H8).
Defined.

Lemma example_ignored :
  Forall (Forall ignored) [[EmptyString; "QU!D"%string]; []; [data0_text]].
Proof.
  apply Forall_cons_2.
  { apply Forall_cons_2; [left; left; reflexivity|].
    apply Forall_cons_2; [|apply Forall_nil_2].
    left. right. exists Base64Failed. vm_compute. reflexivity. }
  apply Forall_cons_2; [apply Forall_nil_2|].
  apply Forall_cons_2; [|apply Forall_nil_2].
  apply Forall_cons_2; [|apply Forall_nil_2].
  right. exists data0.
  split; [vm_compute; reflexivity|]. intros Ht. discriminate Ht.
Defined.

Lemma process_stream_no_header_witness :
  Forall (Forall ignored) [[EmptyString; "QU!D"%string]; []; [data0_text]]
  /\ process_stream [[EmptyString; "QU!D"%string]; []; [data0_text]]
     = Failed NoSessionHeader.
Proof.
  pose proof example_ignored as H1.
  split; [exact H1|].
  exact (process_stream_no_header
           [[EmptyString; "QU!D"%string]; []; [data0_text]] H1).
Defined.

Lemma process_stream_unknown_type_aborts_witness :
  Forall skipped [EmptyString] /\
  from_b64 unknown_type_b64 = Raise ValueError /\
  process_stream (([EmptyString] ++ unknown_type_b64 :: [data0_text])
                    :: [example_texts])
  = Failed (Propagated ValueError).
Proof.
  assert (Forall skipped [EmptyString]) as H1
    by (apply Forall_cons_2; [left; reflexivity|apply Forall_nil_2]).
  assert (from_b64 unknown_type_b64 = Raise ValueError) as H2
    by (vm_compute; reflexivity).
  split; [exact H1|]. split; [exact H2|].
  exact (process_stream_unknown_type_aborts [EmptyString] [data0_text]
           unknown_type_b64 [example_texts] H1 H2).
Defined.


Lemma session_id_never_changes_witness :
  session_id (ingest init header) = Some session /\
  session <> [] /\
  session_id (ingest_all (ingest init header) [foreign; header'; data0])
  = Some session.
Proof.
  assert (session_id (ingest init header) = Some session) as H1
    by (vm_compute; reflexivity).
  assert (session <> []) as H2 by (vm_compute; discriminate).
  split; [exact H1|]. split; [exact H2|].
  exact (session_id_never_changes (ingest init header)
           [foreign; header'; data0] session H1 H2).
Defined.

End concrete_further.
